(** * bootstrap_go: bootstrap standard errors of the mean and the median

    A shallow embedding of [main.go] (package [main] of
    hamodikk/bootstrap_go) and the properties of its numeric core.

    - Go's [float64] arithmetic is an interface ([Float64]).  The program
      is embedded once, over the interface, and its properties are proved
      for IEEE 754 binary64 ([binary64], executable, built on the standard
      library's [SpecFloat]) or for every arithmetic.  Exact real
      arithmetic ([exact], on [R]) is a second instance, used only to say
      what rounding is responsible for.
    - Go slices live in a store of arrays; a slice value is the name of its
      backing array, so that two uses of one slice alias.
    - [math/rand]'s process-wide generator is one component of the program
      state; the generator itself is an interface ([RandSource]).  What
      [rand.Seed] does to the generator depends on the Go toolchain, and
      the interface leaves it open.
    - Run-time panics (index out of range, [make] with a negative length,
      [rand.Intn] with a non-positive bound) are outcomes of their own.
    - For binary64, addition and division by two are shown to round
      without crossing a representable number, from the definitions of
      [SpecFloat] alone.
    - [main] is embedded as the computation it drives: the population,
      then [centralLimitTheorem] and [bootstrap] for each sample size; what
      it prints is what the embedding returns.
    - Go's [int] is [Z]: the program does no arithmetic on it beyond
      [len(data) - 1], [n / 2], [n % 2] and loop counters up to a length.
      Memory is not bounded: [make] succeeds for every length [n >= 0]. *)

From Stdlib Require Import ZArith List Reals Lra Lia.
From Stdlib Require Import Sorting.Sorted Sorting.Permutation.
From Stdlib Require Import Floats.SpecFloat.
From stdpp Require Import base option list sorting gmap.

Local Open Scope Z_scope.

(** ** Arithmetic on float64 *)

(** The operations of [float64] the program uses.  [f_of_int n] is the
    conversion [float64(n)] and also gives the literals [0.0] and [2.0];
    [f_pow2 x] is [math.Pow(x, 2)]; [f_less] is the order of
    [sort.Float64s] ([Float64Slice.Less]). *)
Class Float64 (F : Type) := {
  f_of_int : Z -> F;
  f_add : F -> F -> F;
  f_sub : F -> F -> F;
  f_mul : F -> F -> F;
  f_div : F -> F -> F;
  f_sqrt : F -> F;
  f_pow2 : F -> F;
  f_less : F -> F -> bool
}.

Declare Scope f64_scope.
Delimit Scope f64_scope with f64.
Infix "+" := f_add : f64_scope.
Infix "-" := f_sub : f64_scope.
Infix "*" := f_mul : f64_scope.
Infix "/" := f_div : f64_scope.

(** *** IEEE 754 binary64 *)

Module B64.

Definition prec : Z := 53.
Definition emax : Z := 1024.

Definition of_int (n : Z) : spec_float := binary_normalize prec emax n 0 false.
Definition add := SFadd prec emax.
Definition sub := SFsub prec emax.
Definition mul := SFmul prec emax.
Definition div := SFdiv prec emax.
Definition sqrt := SFsqrt prec emax.
Definition ltb := SFltb.
Definition leb := SFleb.
Definition abs := SFabs.

Definition is_nan (x : spec_float) : bool :=
  match x with S754_nan => true | _ => false end.

Definition valid (x : spec_float) : bool := valid_binary prec emax x.

(** The decimal literal [n * 10^k], rounded to nearest as the Go compiler
    rounds it.  For [k >= 0] the integer [n * 10^k] is rounded once.  For
    [k < 0] the quotient of [n] by [10^-k] is rounded once, both being
    exact in binary64 (this needs [|n| < 2^53] and [-k <= 22]). *)
Definition decimal (n : Z) (k : Z) : spec_float :=
  if 0 <=? k then of_int (n * 10 ^ k) else div (of_int n) (of_int (10 ^ (- k))).

(** [sort.Float64Slice.Less]:
    [x[i] < x[j] || (isNaN(x[i]) && !isNaN(x[j]))]. *)
Definition less (x y : spec_float) : bool :=
  ltb x y || (is_nan x && negb (is_nan y)).

(** The place of a value in the order of [less], as a triple compared
    lexicographically: NaN first, then -Inf, the negative numbers, the
    zeros, the positive numbers and +Inf. *)
Definition rank (x : spec_float) : Z * Z * Z :=
  match x with
  | S754_nan => (0, 0, 0)
  | S754_infinity true => (1, 0, 0)
  | S754_finite true m e => (2, - e, - Zpos m)
  | S754_zero _ => (3, 0, 0)
  | S754_finite false m e => (4, e, Zpos m)
  | S754_infinity false => (5, 0, 0)
  end.

Definition rank_lt (a b : Z * Z * Z) : Prop :=
  let '(a1, a2, a3) := a in
  let '(b1, b2, b3) := b in
  a1 < b1 \/ (a1 = b1 /\ (a2 < b2 \/ (a2 = b2 /\ a3 < b3))).

(** [math.Pow(x, 2)], following the cases of Go's [math.pow] that an
    exponent of 2 reaches: [x == 1] gives 1, a NaN gives NaN, a zero gives
    +0, an infinity gives +Inf; otherwise [x1, xe := Frexp(x)], the loop
    squares [x1] once, renormalises it into [[0.5, 1)] and the result is
    [Ldexp(x1, 2*xe)] (with [xe - 1] when renormalised). *)
Definition pow2 (x : spec_float) : spec_float :=
  match x with
  | S754_nan => S754_nan
  | S754_zero _ => S754_zero false
  | S754_infinity _ => S754_infinity false
  | S754_finite _ _ _ =>
      if SFeqb x (of_int 1) then of_int 1
      else
        let '(x1, xe) := SFfrexp prec emax x in
        let x1 := mul x1 x1 in
        let xe := Z.shiftl xe 1 in
        let '(x1, xe) :=
          if ltb x1 (decimal 5 (-1)) then (add x1 x1, xe - 1) else (x1, xe) in
        let a1 := mul (of_int 1) x1 in
        SFldexp prec emax a1 xe
  end.

End B64.

#[export] Instance binary64 : Float64 spec_float := {
  f_of_int := B64.of_int;
  f_add := B64.add;
  f_sub := B64.sub;
  f_mul := B64.mul;
  f_div := B64.div;
  f_sqrt := B64.sqrt;
  f_pow2 := B64.pow2;
  f_less := B64.less
}.

(** *** The value of a binary64 number, and rounding *)

(** The magnitude of the number with mantissa [m] and exponent [e], in
    units of 2^-1075: an integer for every exponent of binary64. *)
Definition mag (m : positive) (e : Z) : Z := Zpos m * 2 ^ (e + 1075).

(** The value of a finite number or a zero, in the same units. *)
Definition Zval (x : spec_float) : Z :=
  match x with
  | S754_finite s m e => cond_Zopp s (mag m e)
  | _ => 0
  end.

(** The magnitude 2^1024, the first that is out of range. *)
Definition b64_top : Z := 2 ^ 2099.

(** The sign bit is clear, or the number is NaN: zero or more, never less. *)
Definition sign_clear (x : spec_float) : bool :=
  match x with
  | S754_nan => true
  | S754_zero s | S754_infinity s | S754_finite s _ _ => negb s
  end.

(** Neither NaN nor an infinity. *)
Definition is_fin (x : spec_float) : bool :=
  match x with S754_finite _ _ _ | S754_zero _ => true | _ => false end.

(** The literal [2.0]. *)
Definition b64_two : spec_float := S754_finite false 4503599627370496 (-51).

(** Shifting right lost nothing. *)
Definition shr_exact (mrs : shr_record) : bool :=
  negb (shr_r mrs) && negb (shr_s mrs).

(** What [binary_round_aux] returns once the mantissa [m1] has 53 digits, or
    is 2^53 after rounding up. *)
Definition finish (sx : bool) (m1 e' : Z) : spec_float :=
  if m1 <? 2 ^ 53 then
    if e' <=? 971 then S754_finite sx (Z.to_pos m1) e' else S754_infinity sx
  else
    if e' + 1 <=? 971 then S754_finite sx 4503599627370496 (e' + 1)
    else S754_infinity sx.

(** [r], of sign [sx], is a rounding of the magnitude [X]: it is not on the
    wrong side of any representable number, and it is infinite exactly from
    2^1024 on. *)
Definition rounds_to (sx : bool) (X : Z) (r : spec_float) : Prop :=
  exists R,
    (forall ml el, bounded 53 1024 ml el = true -> mag ml el <= X -> mag ml el <= R) /\
    (forall mh eh, bounded 53 1024 mh eh = true -> X <= mag mh eh -> R <= mag mh eh) /\
    (b64_top <= X -> b64_top <= R) /\
    ((R < b64_top /\
      exists m e, r = S754_finite sx m e /\ bounded 53 1024 m e = true /\ mag m e = R) \/
     (b64_top <= R /\ r = S754_infinity sx)).

Definition rounds_signed (V : Z) (r : spec_float) : Prop :=
  (V = 0 -> r = S754_zero false) /\
  (0 < V -> rounds_to false V r) /\
  (V < 0 -> rounds_to true (- V) r).

(** [r] is a rounding of the exact value [V]. *)
Definition rounding_of (V : Z) (r : spec_float) : Prop :=
  (is_fin r = true ->
   B64.valid r = true /\
   (forall lo, B64.valid lo = true -> is_fin lo = true -> Zval lo <= V -> Zval lo <= Zval r) /\
   (forall hi, B64.valid hi = true -> is_fin hi = true -> V <= Zval hi -> Zval r <= Zval hi)) /\
  (b64_top <= V -> is_fin r = false) /\
  (V <= - b64_top -> is_fin r = false).

(** A zero of either sign. *)
Definition is_zero (x : spec_float) : bool :=
  match x with S754_zero _ => true | _ => false end.

(** The same float64 value, or two zeros: [+0] and [-0] are the one pair
    of different values that [Less] does not tell apart. *)
Definition same_number (x y : spec_float) : Prop :=
  x = y \/ (is_zero x = true /\ is_zero y = true).

(** [v] is the average of [a] and [b] rounded to binary64: a finite
    binary64 number with no binary64 number strictly between the exact
    average [(a + b) / 2] and [v].  It is the exact average when that is a
    binary64 number.  (Values are in units of 2^-1075, so the doubles below
    are exact.) *)
Definition rounds_average (a b v : spec_float) : Prop :=
  B64.valid v = true /\ is_fin v = true /\
  (forall lo, B64.valid lo = true -> is_fin lo = true ->
              2 * Zval lo <= Zval a + Zval b -> Zval lo <= Zval v) /\
  (forall hi, B64.valid hi = true -> is_fin hi = true ->
              Zval a + Zval b <= 2 * Zval hi -> Zval v <= Zval hi).

(** The sum of integers. *)
Definition sumZ (xs : list Z) : Z := fold_right Z.add 0 xs.

(** [v] is [sqrt(sampleVariance(data) / n)] exactly, as a number: [v >= 0]
    and [v^2 * n * (n - 1) * n^2] is the sum of the squares of
    [n * x - (x_1 + ... + x_n)], all in exact integer arithmetic on the
    values of the float64 numbers. *)
Definition exact_sampleStandardError (data : list spec_float) (v : spec_float) : Prop :=
  let n := Z.of_nat (length data) in
  let xs := map Zval data in
  is_fin v = true /\ 0 <= Zval v /\
  Zval v ^ 2 * n ^ 3 * (n - 1) = sumZ (map (fun x => (n * x - sumZ xs) ^ 2) xs).

(** *** Exact real arithmetic *)

Definition Rltb (x y : R) : bool := if Rlt_dec x y then true else false.

#[export] Instance exact : Float64 R := {
  f_of_int := IZR;
  f_add := Rplus;
  f_sub := Rminus;
  f_mul := Rmult;
  f_div := Rdiv;
  f_sqrt := sqrt;
  f_pow2 := fun x => (x ^ 2)%R;
  f_less := Rltb
}.

(** The minimum and the maximum of a sequence of real numbers. *)
Definition minimum (data : list R) : R := fold_right Rmin (hd 0%R data) data.
Definition maximum (data : list R) : R := fold_right Rmax (hd 0%R data) data.

(** ** What the estimators compute from the contents of a slice *)

Section Kernels.
Context {F : Type} {arith : Float64 F}.

(** The sum of [data] as [mean] accumulates it: in the order of the slice,
    from [0.0]. *)
Definition sum_loop (data : list F) : F :=
  fold_left (fun sum value => (sum + value)%f64) data (f_of_int 0).

(** The value [mean] returns on a slice that holds [data]. *)
Definition mean_of (data : list F) : F :=
  (sum_loop data / f_of_int (Z.of_nat (length data)))%f64.

(** The value [standardError] returns on a slice that holds [data]. *)
Definition standardError_of (data : list F) : F :=
  let mean := mean_of data in
  let variance :=
    fold_left (fun variance value => (variance + f_pow2 (value - mean))%f64)
              data (f_of_int 0) in
  let stdDev := f_sqrt (variance / f_of_int (Z.of_nat (length data) - 1))%f64 in
  (stdDev / f_sqrt (f_of_int (Z.of_nat (length data))))%f64.

(** *** The estimators as the specification words them *)

(** The sum of a sequence, its terms added one after the other in the
    order of the sequence, from [0.0]. *)
Definition sum_in_order (xs : list F) : F := fold_left f_add xs (f_of_int 0).

Definition arithmeticMean (data : list F) : F :=
  (sum_in_order data / f_of_int (Z.of_nat (length data)))%f64.

(** The squared deviations from the arithmetic mean, summed and divided by
    [n - 1] (Bessel's correction). *)
Definition sampleVariance (data : list F) : F :=
  (sum_in_order (map (fun x => f_pow2 (x - arithmeticMean data)%f64) data)
   / f_of_int (Z.of_nat (length data) - 1))%f64.

(** [sqrt(sampleVariance(data) / n)]. *)
Definition sampleStandardError (data : list F) : F :=
  f_sqrt (sampleVariance data / f_of_int (Z.of_nat (length data)))%f64.

(** *** Sorting *)

(** [sort.Float64s].  On a slice of at most 12 elements the library runs
    its [insertionSort]: for each [i], the element at [i] moves left while
    it is [Less] than its left neighbour; [insert_back x rp] does this on
    the reversed sorted prefix [rp].  On longer slices the library runs a
    quicksort, which also leaves the slice in ascending order; the two can
    only differ in the places of elements that [Less] does not tell apart
    (zeros of either sign, NaNs). *)
Fixpoint insert_back (x : F) (rp : list F) : list F :=
  match rp with
  | [] => [x]
  | y :: rp' => if f_less x y then y :: insert_back x rp' else x :: rp
  end.

Definition sort_Float64s (data : list F) : list F :=
  rev (fold_left (fun rp x => insert_back x rp) data []).

(** What [median] computes from the sorted slice: the element at [n / 2]
    when the length is odd, [(sorted[n/2-1] + sorted[n/2]) / 2.0] when it
    is even. *)
Definition middle_of_sorted (sorted : list F) : F :=
  let n := length sorted in
  if Nat.even n then
    ((nth (n / 2 - 1)%nat sorted (f_of_int 0) + nth (n / 2)%nat sorted (f_of_int 0))
     / f_of_int 2)%f64
  else nth (n / 2)%nat sorted (f_of_int 0).

(** [x] is not after [y] in the order of [sort.Float64s]. *)
Definition f_le (x y : F) : Prop := f_less y x = false.

(** A slice in the order [sort.Float64s] produces. *)
Definition ascending (data : list F) : Prop := StronglySorted f_le data.

(** A minimum and a maximum of a sequence, in that order. *)
Definition is_minimum (lo : F) (data : list F) : Prop :=
  In lo data /\ forall x, In x data -> f_le lo x.

Definition is_maximum (hi : F) (data : list F) : Prop :=
  In hi data /\ forall x, In x data -> f_le x hi.

End Kernels.

(** What sorting needs of [Less]: it is asymmetric, and "not less" is
    transitive (a strict weak order). *)
Class LessOrder (F : Type) {arith : Float64 F} : Prop := {
  less_asym : forall x y : F, f_less x y = true -> f_less y x = false;
  le_trans : forall x y z : F, f_le x y -> f_le y z -> f_le x z
}.

(** ** The random source *)

(** [math/rand].  The process-wide source is a state of type [G];
    [rand_NormFloat64] and [rand_Intn n] draw from a state and give the
    next one, and [rand.Intn(n)] lies in [[0, n)] for [n > 0].

    [rand_Seed seed g] is the source after [rand.Seed(seed)] on the source
    [g].  What it is depends on the toolchain that builds the program:
    before Go 1.24, or with [GODEBUG=randseednop=0], the call puts the
    source into a state that the seed alone fixes ([seed_resets]); from
    Go 1.24 on the call does nothing ([seed_ignored]).  The interface
    leaves both open. *)
Class RandSource (F G : Type) := {
  rand_Seed : Z -> G -> G;
  rand_NormFloat64 : G -> F * G;
  rand_Intn : Z -> G -> Z * G;
  rand_Intn_range : forall n g, 0 < n -> 0 <= fst (rand_Intn n g) < n
}.

(** [rand.Seed] takes effect: the source after the call does not depend on
    the source before it. *)
Definition seed_resets {F G} (random : RandSource F G) : Prop :=
  forall seed g1 g2, rand_Seed seed g1 = rand_Seed seed g2.

(** [rand.Seed] is a no-op. *)
Definition seed_ignored {F G} (random : RandSource F G) : Prop :=
  forall seed g, rand_Seed seed g = g.

(** A small linear congruential source, to run the program on concrete
    inputs.  The properties below hold for every source. *)
Module Lcg.

Definition next (g : Z) : Z := (g * 1103515245 + 12345) mod 2147483648.

Definition Seed (seed : Z) (g : Z) : Z := seed mod 2147483648.

Definition Seed_nop (seed : Z) (g : Z) : Z := g.

Definition Intn (n : Z) (g : Z) : Z * Z := (next g mod n, next g).

Definition NormFloat64 {F} {arith : Float64 F} (g : Z) : F * Z :=
  ((f_of_int (next g mod 7 - 3) / f_of_int 2)%f64, next g).

End Lcg.

#[export] Instance lcg {F} {arith : Float64 F} : RandSource F Z := {
  rand_Seed := Lcg.Seed;
  rand_NormFloat64 := Lcg.NormFloat64;
  rand_Intn := Lcg.Intn;
  rand_Intn_range := fun n g Hn => Z.mod_pos_bound (Lcg.next g) n Hn
}.

(** The same source built by a toolchain for which [rand.Seed] is a
    no-op.  It is not an instance that resolution finds: it is named where
    it is meant. *)
Definition lcg_seed_nop {F} {arith : Float64 F} : RandSource F Z := {|
  rand_Seed := Lcg.Seed_nop;
  rand_NormFloat64 := Lcg.NormFloat64;
  rand_Intn := Lcg.Intn;
  rand_Intn_range := fun n g Hn => Z.mod_pos_bound (Lcg.next g) n Hn
|}.

(** An ideal source: a tape of the values that the calls of [rand.Intn]
    return, one after the other.  A tape whose values are below [n] gives
    them unchanged as the values of [rand.Intn(n)].  With every tape of a
    given length as likely as every other, the values of [rand.Intn(n)]
    are uniform on [[0, n)] and independent.  ([rand.NormFloat64] reads the
    tape too; [rand.Seed] leaves it.) *)
Definition tape {F} {arith : Float64 F} : RandSource F (list Z) := {|
  rand_Seed := fun _ t => t;
  rand_NormFloat64 := fun t => (f_of_int (hd 0 t), tl t);
  rand_Intn := fun n t => (hd 0 t mod n, tl t);
  rand_Intn_range := fun n t Hn => Z.mod_pos_bound (hd 0 t) n Hn
|}.

(** ** Program state, panics and the monad of Go functions *)

Inductive panic : Set :=
| index_out_of_range
| makeslice_len_out_of_range
| invalid_argument_to_Intn.

Inductive outcome (S A : Type) : Type :=
| Ok (a : A) (s : S)
| Panic (p : panic).
Arguments Ok {S A} a s.
Arguments Panic {S A} p.

(** What the caller of a function observes besides the state. *)
Definition result {S A} (o : outcome S A) : A + panic :=
  match o with Ok a _ => inl a | Panic p => inr p end.

(** The first component of a result that is a pair. *)
Definition first_of {A B} (r : A * B + panic) : A + panic :=
  match r with inl (a, _) => inl a | inr p => inr p end.

(** A slice is the name of its backing array. *)
Definition slice := nat.

Section Program.
Context {F G : Type} {arith : Float64 F} {random : RandSource F G}.

Record state := State { heap : gmap slice (list F); rng : G }.

Definition M (A : Type) : Type := state -> outcome state A.

Definition ret {A} (a : A) : M A := fun s => Ok a s.

Definition bind {A B} (m : M A) (k : A -> M B) : M B :=
  fun s => match m s with Ok a s' => k a s' | Panic p => Panic p end.

Notation "x <- m ;; k" := (bind m (fun x => k))
  (at level 100, m at next level, right associativity).
Notation "m ;;; k" := (bind m (fun _ => k))
  (at level 100, right associativity).

(** The elements of a slice; a name with no array is the nil slice. *)
Definition contents (s : state) (l : slice) : list F :=
  default [] (heap s !! l).

Definition set_heap (h : gmap slice (list F)) (s : state) : state :=
  State h (rng s).

(** [len(data)] *)
Definition len (data : slice) : M Z :=
  fun s => Ok (Z.of_nat (length (contents s data))) s.

(** [range data]: the elements, in order. *)
Definition range (data : slice) : M (list F) :=
  fun s => Ok (contents s data) s.

(** [data[i]] *)
Definition index (data : slice) (i : Z) : M F :=
  fun s =>
    if (0 <=? i) && (i <? Z.of_nat (length (contents s data)))
    then Ok (nth (Z.to_nat i) (contents s data) (f_of_int 0)) s
    else Panic index_out_of_range.

(** [data[i] = v] *)
Definition assign (data : slice) (i : Z) (v : F) : M unit :=
  fun s =>
    if (0 <=? i) && (i <? Z.of_nat (length (contents s data)))
    then Ok tt (set_heap (<[data := <[Z.to_nat i := v]> (contents s data)]> (heap s)) s)
    else Panic index_out_of_range.

(** [make([]float64, n)]: a fresh array of [n] zeros. *)
Definition make (n : Z) : M slice :=
  fun s =>
    if n <? 0 then Panic makeslice_len_out_of_range
    else
      let l := fresh (dom (heap s)) in
      Ok l (set_heap (<[l := replicate (Z.to_nat n) (f_of_int 0)]> (heap s)) s).

(** [sort.Float64s(data)]: sorts the backing array in place. *)
Definition sort_Float64s_in_place (data : slice) : M unit :=
  fun s => Ok tt (set_heap (alter sort_Float64s data (heap s)) s).

(** [rand.Seed(seed)] *)
Definition Seed (seed : Z) : M unit :=
  fun s => Ok tt (State (heap s) (rand_Seed seed (rng s))).

(** [rand.NormFloat64()] *)
Definition NormFloat64 : M F :=
  fun s => let '(v, g) := rand_NormFloat64 (rng s) in Ok v (State (heap s) g).

(** [rand.Intn(n)] *)
Definition Intn (n : Z) : M Z :=
  fun s =>
    if n <=? 0 then Panic invalid_argument_to_Intn
    else let '(k, g) := rand_Intn n (rng s) in Ok k (State (heap s) g).

(** [for i := i0; i < i0 + k; i++ { body }] *)
Fixpoint for_loop (k : nat) (i : Z) (body : Z -> M unit) : M unit :=
  match k with
  | O => ret tt
  | S k' => body i ;;; for_loop k' (i + 1) body
  end.

(** [for i := 0; i < n; i++ { body }] *)
Definition for_upto (n : Z) (body : Z -> M unit) : M unit :=
  for_loop (Z.to_nat n) 0 body.

(** *** The functions of main.go *)

Definition generatePopulation (size : Z) (mean stddev : F) : M slice :=
  population <- make size ;;
  let seed := 42 in
  Seed seed ;;;
  for_upto size (fun i =>
    v <- NormFloat64 ;;
    assign population i (v * stddev + mean)%f64) ;;;
  ret population.

Definition median (data : slice) : M F :=
  sort_Float64s_in_place data ;;;
  n <- len data ;;
  if Z.rem n 2 =? 0 then
    a <- index data (Z.quot n 2 - 1) ;;
    b <- index data (Z.quot n 2) ;;
    ret ((a + b) / f_of_int 2)%f64
  else
    index data (Z.quot n 2).

Definition mean (data : slice) : M F :=
  values <- range data ;;
  let sum := fold_left (fun sum value => (sum + value)%f64) values (f_of_int 0) in
  n <- len data ;;
  ret (sum / f_of_int n)%f64.

Definition standardError (data : slice) : M F :=
  mean <- mean data ;;
  values <- range data ;;
  let variance :=
    fold_left (fun variance value => (variance + f_pow2 (value - mean))%f64)
              values (f_of_int 0) in
  n <- len data ;;
  let stdDev := f_sqrt (variance / f_of_int (n - 1))%f64 in
  n' <- len data ;;
  ret (stdDev / f_sqrt (f_of_int n'))%f64.

Definition bootstrap (population : slice) (bootstrapSamples sampleSize : Z)
  : M (F * F) :=
  means <- make bootstrapSamples ;;
  medians <- make bootstrapSamples ;;
  for_upto bootstrapSamples (fun i =>
    sample <- make sampleSize ;;
    for_upto sampleSize (fun j =>
      n <- len population ;;
      k <- Intn n ;;
      v <- index population k ;;
      assign sample j v) ;;;
    m <- mean sample ;;
    assign means i m ;;;
    md <- median sample ;;
    assign medians i md) ;;;
  seMean <- standardError means ;;
  seMedian <- standardError medians ;;
  ret (seMean, seMedian).

Definition centralLimitTheorem (population : slice) (sampleSize numSamples : Z)
  : M F :=
  sampleMeans <- make numSamples ;;
  for_upto numSamples (fun i =>
    sample <- make sampleSize ;;
    for_upto sampleSize (fun j =>
      n <- len population ;;
      k <- Intn n ;;
      v <- index population k ;;
      assign sample j v) ;;;
    m <- mean sample ;;
    assign sampleMeans i m) ;;;
  standardError sampleMeans.

(** *** Calls in sequence *)

(** A call of one of the two estimators on a population, as [main] issues
    them for each sample size. *)
Inductive call : Set :=
| call_bootstrap (bootstrapSamples sampleSize : Z)
| call_centralLimitTheorem (sampleSize numSamples : Z).

Definition run_call (population : slice) (c : call) : M unit :=
  match c with
  | call_bootstrap bootstrapSamples sampleSize =>
      bootstrap population bootstrapSamples sampleSize ;;; ret tt
  | call_centralLimitTheorem sampleSize numSamples =>
      centralLimitTheorem population sampleSize numSamples ;;; ret tt
  end.

Fixpoint run_calls (population : slice) (cs : list call) : M unit :=
  match cs with
  | [] => ret tt
  | c :: cs' => run_call population c ;;; run_calls population cs'
  end.

(** ** Resampling, as the specification describes it *)

(** [count] successive values of [rand.Intn(n)], and the source after. *)
Fixpoint draw_indices (n : Z) (count : nat) (g : G) : list Z * G :=
  match count with
  | O => ([], g)
  | S count' =>
      let '(k, g1) := rand_Intn n g in
      let '(ks, g2) := draw_indices n count' g1 in
      (k :: ks, g2)
  end.

(** The element of [source] at index [k]. *)
Definition pick (source : list F) (k : Z) : F :=
  nth (Z.to_nat k) source (f_of_int 0).

(** One sample of [sampleSize] elements, each at an index that
    [rand.Intn(len(source))] chose: drawn with replacement. *)
Definition resample (source : list F) (sampleSize : nat) (g : G) : list F * G :=
  let '(ks, g') := draw_indices (Z.of_nat (length source)) sampleSize g in
  (map (pick source) ks, g').

(** [count] samples drawn one after the other. *)
Fixpoint resamples (source : list F) (sampleSize count : nat) (g : G)
  : list (list F) * G :=
  match count with
  | O => ([], g)
  | S count' =>
      let '(sample, g1) := resample source sampleSize g in
      let '(samples, g2) := resamples source sampleSize count' g1 in
      (sample :: samples, g2)
  end.

(** The positions of [count] samples of [sampleSize] elements each: the
    successive values of [rand.Intn(n)], [sampleSize] for each sample. *)
Fixpoint draw_positions (n : Z) (sampleSize count : nat) (g : G)
  : list (list Z) * G :=
  match count with
  | O => ([], g)
  | S count' =>
      let '(ks, g1) := draw_indices n sampleSize g in
      let '(kss, g2) := draw_positions n sampleSize count' g1 in
      (ks :: kss, g2)
  end.

(** [count] elements [rand.NormFloat64()*stddev + mean], drawn one after
    the other, and the source after. *)
Fixpoint normal_draws (mean stddev : F) (count : nat) (g : G) : list F * G :=
  match count with
  | O => ([], g)
  | S count' =>
      let '(v, g1) := rand_NormFloat64 g in
      let '(vs, g2) := normal_draws mean stddev count' g1 in
      ((v * stddev + mean)%f64 :: vs, g2)
  end.

(** The value [median] returns on a slice that holds [data]. *)
Definition median_of (data : list F) : F :=
  let sorted := sort_Float64s data in
  let n := Z.of_nat (length data) in
  if Z.rem n 2 =? 0 then
    ((pick sorted (Z.quot n 2 - 1) + pick sorted (Z.quot n 2)) / f_of_int 2)%f64
  else pick sorted (Z.quot n 2).

(** *** [main] *)

(** What [main] reports for one sample size: the arguments of its [Printf]
    calls, each written to the log and to the standard output. *)
Record report := Report {
  report_sampleSize : Z;
  report_cltSeMean : F;
  report_seMean : F;
  report_seMedian : F
}.

(** [for _, sampleSize := range sampleSizes { ... }] *)
Fixpoint main_loop (population : slice) (bootstrapSamples numSamples : Z)
    (sampleSizes : list Z) : M (list report) :=
  match sampleSizes with
  | [] => ret []
  | sampleSize :: rest =>
      cltSeMean <- centralLimitTheorem population sampleSize numSamples ;;
      se <- bootstrap population bootstrapSamples sampleSize ;;
      let '(seMean, seMedian) := se in
      reports <- main_loop population bootstrapSamples numSamples rest ;;
      ret (Report sampleSize cltSeMean seMean seMedian :: reports)
  end.

(** The computation of [main]: its parameters, the population and the
    loop over the sample sizes.  What it returns here is what it prints.
    The profiling server, the log file, the memory statistics and the
    final sleep are not part of the model. *)
Definition main : M (list report) :=
  let populationSize := 10000 in
  let mean := f_of_int 100 in
  let stddev := f_of_int 10 in
  let bootstrapSamples := 100 in
  let sampleSizes := [25; 100; 225; 400] in
  let numSamples := 1000 in
  population <- generatePopulation populationSize mean stddev ;;
  main_loop population bootstrapSamples numSamples sampleSizes.

(** The reports as a function of the population and of the random source:
    for each sample size, [numSamples] samples for [centralLimitTheorem],
    then [bootstrapSamples] samples for [bootstrap]. *)
Fixpoint reports_of (pop : list F) (bootstrapSamples numSamples : Z)
    (sampleSizes : list Z) (g : G) : list report :=
  match sampleSizes with
  | [] => []
  | sampleSize :: rest =>
      let '(forClt, g1) := resamples pop (Z.to_nat sampleSize) (Z.to_nat numSamples) g in
      let '(forBootstrap, g2) :=
        resamples pop (Z.to_nat sampleSize) (Z.to_nat bootstrapSamples) g1 in
      Report sampleSize
             (standardError_of (map mean_of forClt))
             (standardError_of (map mean_of forBootstrap))
             (standardError_of (map median_of forBootstrap))
      :: reports_of pop bootstrapSamples numSamples rest g2
  end.

(** ** Which arrays a computation may write *)

(** [modifies_only X m]: when [m] returns, every array that existed before
    and is not named in [X] holds what it held; no array disappears. *)
Definition modifies_only {A} (X : gset slice) (m : M A) : Prop :=
  forall (s : state) a s', m s = Ok a s' ->
    dom (heap s) ⊆ dom (heap s') /\
    forall l, l ∈ dom (heap s) -> l ∉ X -> heap s' !! l = heap s !! l.

Lemma modifies_only_weaken {A} (X Y : gset slice) (m : M A) :
  X ⊆ Y -> modifies_only X m -> modifies_only Y m.
Proof.
  intros HXY Hm s a s' Hrun. destruct (Hm s a s' Hrun) as [Hdom Hsame].
  split; [exact Hdom|]. intros l Hl HnY. apply Hsame; [exact Hl|set_solver].
Qed.

Lemma modifies_only_ret {A} (X : gset slice) (a : A) : modifies_only X (ret a).
Proof. intros s a' s' [= _ <-]. split; [done|auto]. Qed.

Lemma modifies_only_bind {A B} (X : gset slice) (m : M A) (k : A -> M B) :
  modifies_only X m -> (forall a, modifies_only X (k a)) ->
  modifies_only X (bind m k).
Proof.
  intros Hm Hk s b s' Hrun. unfold bind in Hrun.
  destruct (m s) as [a s1|p] eqn:E; [|discriminate].
  destruct (Hm s a s1 E) as [Hd1 Hs1].
  destruct (Hk a s1 b s' Hrun) as [Hd2 Hs2].
  split; [set_solver|].
  intros l Hl HX. rewrite Hs2; [apply Hs1; assumption| set_solver | assumption].
Qed.

Lemma modifies_only_pure {A} (X : gset slice) (m : M A) :
  (forall s a s', m s = Ok a s' -> heap s' = heap s) -> modifies_only X m.
Proof.
  intros Hm s a s' Hrun. rewrite (Hm s a s' Hrun). split; [done|auto].
Qed.

Lemma modifies_only_len X data : modifies_only X (len data).
Proof. apply modifies_only_pure. intros s a s' [= _ <-]. reflexivity. Qed.

Lemma modifies_only_range X data : modifies_only X (range data).
Proof. apply modifies_only_pure. intros s a s' [= _ <-]. reflexivity. Qed.

Lemma modifies_only_index X data i : modifies_only X (index data i).
Proof.
  apply modifies_only_pure. intros s a s'. unfold index.
  destruct (_ && _); [intros [= _ <-]; reflexivity|discriminate].
Qed.

Lemma modifies_only_Seed X seed : modifies_only X (Seed seed).
Proof. apply modifies_only_pure. intros s a s' [= _ <-]. reflexivity. Qed.

Lemma modifies_only_NormFloat64 X : modifies_only X NormFloat64.
Proof.
  apply modifies_only_pure. intros s a s'. unfold NormFloat64.
  destruct (rand_NormFloat64 (rng s)). intros [= _ <-]. reflexivity.
Qed.

Lemma modifies_only_Intn X n : modifies_only X (Intn n).
Proof.
  apply modifies_only_pure. intros s a s'. unfold Intn.
  destruct (n <=? 0); [discriminate|].
  destruct (rand_Intn n (rng s)). intros [= _ <-]. reflexivity.
Qed.

Lemma modifies_only_assign X data i v :
  data ∈ X -> modifies_only X (assign data i v).
Proof.
  intros HX s a s'. unfold assign.
  destruct (_ && _); [intros [= _ <-]|discriminate]. simpl. split.
  - rewrite dom_insert. set_solver.
  - intros l _ Hl. apply lookup_insert_ne. set_solver.
Qed.

Lemma modifies_only_sort X data :
  data ∈ X -> modifies_only X (sort_Float64s_in_place data).
Proof.
  intros HX s a s' [= _ <-]. simpl. split.
  - rewrite dom_alter. done.
  - intros l _ Hl. apply lookup_alter_ne. set_solver.
Qed.

(** A slice that [make] returns names no array that existed before, so the
    rest of the function may write it. *)
Lemma modifies_only_make {B} X n (k : slice -> M B) :
  (forall l, modifies_only (X ∪ {[l]}) (k l)) ->
  modifies_only X (bind (make n) k).
Proof.
  intros Hk s b s' Hrun. unfold bind, make in Hrun.
  destruct (n <? 0); [discriminate|].
  set (l := fresh (dom (heap s))) in *.
  assert (Hfresh : l ∉ dom (heap s)) by apply is_fresh.
  destruct (Hk l _ b s' Hrun) as [Hd Hs]. simpl in Hd, Hs.
  rewrite dom_insert in Hd. split; [set_solver|].
  intros l' Hl' HX. assert (Hne : l <> l') by (intros ->; exact (Hfresh Hl')).
  etrans; [apply Hs|apply lookup_insert_ne, Hne].
  - apply elem_of_dom. rewrite lookup_insert_ne by exact Hne.
    apply elem_of_dom, Hl'.
  - intros [HinX|Heq%elem_of_singleton]%elem_of_union; [exact (HX HinX)|].
    exact (Hne (eq_sym Heq)).
Qed.

Lemma modifies_only_for_loop X k i (body : Z -> M unit) :
  (forall j, modifies_only X (body j)) -> modifies_only X (for_loop k i body).
Proof.
  intros Hbody. revert i. induction k as [|k IH]; intros i; simpl.
  - apply modifies_only_ret.
  - apply modifies_only_bind; [apply Hbody|intros _; apply IH].
Qed.

Lemma modifies_only_for_upto X n (body : Z -> M unit) :
  (forall j, modifies_only X (body j)) -> modifies_only X (for_upto n body).
Proof. apply modifies_only_for_loop. Qed.

Lemma modifies_only_mean X data : modifies_only X (mean data).
Proof.
  apply modifies_only_bind; [apply modifies_only_range|intros values].
  apply modifies_only_bind; [apply modifies_only_len|intros n].
  apply modifies_only_ret.
Qed.

Lemma modifies_only_standardError X data : modifies_only X (standardError data).
Proof.
  apply modifies_only_bind; [apply modifies_only_mean|intros m].
  apply modifies_only_bind; [apply modifies_only_range|intros values].
  apply modifies_only_bind; [apply modifies_only_len|intros n].
  apply modifies_only_bind; [apply modifies_only_len|intros n'].
  apply modifies_only_ret.
Qed.

Lemma modifies_only_median X data : data ∈ X -> modifies_only X (median data).
Proof.
  intros HX. unfold median.
  apply modifies_only_bind; [apply modifies_only_sort, HX|intros _].
  apply modifies_only_bind; [apply modifies_only_len|intros n].
  destruct (Z.rem n 2 =? 0).
  - apply modifies_only_bind; [apply modifies_only_index|intros a].
    apply modifies_only_bind; [apply modifies_only_index|intros b].
    apply modifies_only_ret.
  - apply modifies_only_index.
Qed.

(** Filling a sample writes the sample only. *)
Lemma modifies_only_fill X population sample sampleSize :
  sample ∈ X ->
  modifies_only X
    (for_upto sampleSize (fun j =>
       bind (len population) (fun n =>
       bind (Intn n) (fun k =>
       bind (index population k) (fun v => assign sample j v))))).
Proof.
  intros HX. apply modifies_only_for_upto. intros j.
  apply modifies_only_bind; [apply modifies_only_len|intros n].
  apply modifies_only_bind; [apply modifies_only_Intn|intros k].
  apply modifies_only_bind; [apply modifies_only_index|intros v].
  apply modifies_only_assign, HX.
Qed.

Lemma modifies_only_bootstrap population bootstrapSamples sampleSize :
  modifies_only ∅ (bootstrap population bootstrapSamples sampleSize).
Proof.
  unfold bootstrap.
  apply modifies_only_make; intros means.
  apply modifies_only_make; intros medians.
  apply modifies_only_bind.
  - apply modifies_only_for_upto; intros i.
    apply modifies_only_make; intros sample.
    apply modifies_only_bind; [apply modifies_only_fill; set_solver|intros _].
    apply modifies_only_bind; [apply modifies_only_mean|intros m].
    apply modifies_only_bind; [apply modifies_only_assign; set_solver|intros _].
    apply modifies_only_bind; [apply modifies_only_median; set_solver|intros md].
    apply modifies_only_assign; set_solver.
  - intros _.
    apply modifies_only_bind; [apply modifies_only_standardError|intros a].
    apply modifies_only_bind; [apply modifies_only_standardError|intros b].
    apply modifies_only_ret.
Qed.

Lemma modifies_only_centralLimitTheorem population sampleSize numSamples :
  modifies_only ∅ (centralLimitTheorem population sampleSize numSamples).
Proof.
  unfold centralLimitTheorem.
  apply modifies_only_make; intros sampleMeans.
  apply modifies_only_bind.
  - apply modifies_only_for_upto; intros i.
    apply modifies_only_make; intros sample.
    apply modifies_only_bind; [apply modifies_only_fill; set_solver|intros _].
    apply modifies_only_bind; [apply modifies_only_mean|intros m].
    apply modifies_only_assign; set_solver.
  - intros _. apply modifies_only_standardError.
Qed.

(** ** Running the primitives *)

Lemma run_bind {A B} (m : M A) (k : A -> M B) (s : state) a s1 :
  m s = Ok a s1 -> bind m k s = k a s1.
Proof. intros Hm. unfold bind. rewrite Hm. reflexivity. Qed.

Lemma state_eta (s : state) : State (heap s) (rng s) = s.
Proof. destruct s; reflexivity. Qed.

Lemma contents_lookup (s : state) l xs : heap s !! l = Some xs -> contents s l = xs.
Proof. unfold contents. intros ->. reflexivity. Qed.

Lemma run_len (s : state) l xs :
  heap s !! l = Some xs -> len l s = Ok (Z.of_nat (length xs)) s.
Proof. intros Hl. unfold len. rewrite (contents_lookup _ _ _ Hl). reflexivity. Qed.

Lemma run_range (s : state) l xs : heap s !! l = Some xs -> range l s = Ok xs s.
Proof. intros Hl. unfold range. rewrite (contents_lookup _ _ _ Hl). reflexivity. Qed.

Lemma in_range_true i n : 0 <= i < n -> (0 <=? i) && (i <? n) = true.
Proof. intros [? ?]. apply andb_true_intro; split; [apply Z.leb_le|apply Z.ltb_lt]; lia. Qed.

Lemma in_range_false i n : ~ (0 <= i < n) -> (0 <=? i) && (i <? n) = false.
Proof.
  intros Hn. destruct (0 <=? i) eqn:E1; [|reflexivity].
  destruct (i <? n) eqn:E2; [|reflexivity].
  apply Z.leb_le in E1. apply Z.ltb_lt in E2. lia.
Qed.

Lemma run_index (s : state) l xs i :
  heap s !! l = Some xs -> 0 <= i < Z.of_nat (length xs) ->
  index l i s = Ok (pick xs i) s.
Proof.
  intros Hl Hi. unfold index. rewrite (contents_lookup _ _ _ Hl).
  rewrite in_range_true by exact Hi. reflexivity.
Qed.

Lemma run_index_panic (s : state) l xs i :
  heap s !! l = Some xs -> ~ (0 <= i < Z.of_nat (length xs)) ->
  index l i s = Panic index_out_of_range.
Proof.
  intros Hl Hi. unfold index. rewrite (contents_lookup _ _ _ Hl).
  rewrite in_range_false by exact Hi. reflexivity.
Qed.

Lemma run_assign (s : state) l xs i v :
  heap s !! l = Some xs -> 0 <= i < Z.of_nat (length xs) ->
  assign l i v s = Ok tt (State (<[l := <[Z.to_nat i := v]> xs]> (heap s)) (rng s)).
Proof.
  intros Hl Hi. unfold assign. rewrite (contents_lookup _ _ _ Hl).
  rewrite in_range_true by exact Hi. reflexivity.
Qed.

Lemma run_make (s : state) n :
  0 <= n ->
  make n s = Ok (fresh (dom (heap s)))
                (State (<[fresh (dom (heap s)) := replicate (Z.to_nat n) (f_of_int 0)]> (heap s))
                       (rng s)).
Proof.
  intros Hn. unfold make. destruct (n <? 0) eqn:E; [apply Z.ltb_lt in E; lia|].
  reflexivity.
Qed.

Lemma run_make_panic (s : state) n :
  n < 0 -> make n s = Panic makeslice_len_out_of_range.
Proof. intros Hn. unfold make. apply Z.ltb_lt in Hn. rewrite Hn. reflexivity. Qed.

Lemma fresh_not_allocated (s : state) l xs :
  heap s !! l = Some xs -> fresh (dom (heap s)) <> l.
Proof.
  intros Hl Heq. apply (is_fresh (dom (heap s))). rewrite Heq.
  apply elem_of_dom. eauto.
Qed.

Lemma run_Intn (s : state) n :
  0 < n ->
  Intn n s = Ok (fst (rand_Intn n (rng s))) (State (heap s) (snd (rand_Intn n (rng s)))).
Proof.
  intros Hn. unfold Intn. destruct (n <=? 0) eqn:E; [apply Z.leb_le in E; lia|].
  destruct (rand_Intn n (rng s)); reflexivity.
Qed.

Lemma run_Intn_panic (s : state) n :
  n <= 0 -> Intn n s = Panic invalid_argument_to_Intn.
Proof. intros Hn. unfold Intn. apply Z.leb_le in Hn. rewrite Hn. reflexivity. Qed.

(** ** Drawing a sample *)

Lemma draw_indices_length n count g : length (fst (draw_indices n count g)) = count.
Proof.
  revert g. induction count as [|c IH]; intros g; simpl; [reflexivity|].
  destruct (rand_Intn n g) as [k g1]. specialize (IH g1).
  destruct (draw_indices n c g1) as [ks g2]. simpl in *. congruence.
Qed.

Lemma draw_indices_range n count g :
  0 < n -> Forall (fun k => 0 <= k < n) (fst (draw_indices n count g)).
Proof.
  intros Hn. revert g. induction count as [|c IH]; intros g; simpl; [constructor|].
  pose proof (rand_Intn_range n g Hn) as Hk.
  destruct (rand_Intn n g) as [k g1]. specialize (IH g1).
  destruct (draw_indices n c g1) as [ks g2]. simpl in *. constructor; assumption.
Qed.

Lemma resample_length source sampleSize g :
  length (fst (resample source sampleSize g)) = sampleSize.
Proof.
  unfold resample. pose proof (draw_indices_length (Z.of_nat (length source)) sampleSize g) as Hl.
  destruct (draw_indices _ sampleSize g) as [ks g']. simpl in *.
  rewrite length_map. exact Hl.
Qed.

Lemma pick_In (source : list F) k :
  0 <= k < Z.of_nat (length source) -> In (pick source k) source.
Proof. intros Hk. unfold pick. apply nth_In. lia. Qed.

Lemma resample_In source sampleSize g :
  source <> [] ->
  Forall (fun v => In v source) (fst (resample source sampleSize g)).
Proof.
  intros Hne. unfold resample.
  assert (Hn : 0 < Z.of_nat (length source)) by (destruct source; [congruence|simpl; lia]).
  pose proof (draw_indices_range _ sampleSize g Hn) as Hr.
  destruct (draw_indices _ sampleSize g) as [ks g']. simpl in *.
  induction Hr as [|k ks Hk Hr IH]; simpl; constructor; [apply pick_In, Hk|exact IH].
Qed.

Lemma resamples_length source sampleSize count g :
  length (fst (resamples source sampleSize count g)) = count.
Proof.
  revert g. induction count as [|c IH]; intros g; simpl; [reflexivity|].
  destruct (resample source sampleSize g) as [smp g1]. specialize (IH g1).
  destruct (resamples source sampleSize c g1) as [ss g2]. simpl in *. congruence.
Qed.

Lemma resamples_each source sampleSize count g :
  source <> [] ->
  Forall (fun sample => length sample = sampleSize /\ Forall (fun v => In v source) sample)
         (fst (resamples source sampleSize count g)).
Proof.
  intros Hne. revert g. induction count as [|c IH]; intros g; simpl; [constructor|].
  pose proof (resample_length source sampleSize g) as Hlen.
  pose proof (resample_In source sampleSize g Hne) as Hin.
  destruct (resample source sampleSize g) as [smp g1]. specialize (IH g1).
  destruct (resamples source sampleSize c g1) as [ss g2]. simpl in *.
  constructor; [split; assumption|exact IH].
Qed.

Lemma resamples_positions (pop : list F) sampleSize count g :
  resamples pop sampleSize count g
  = (map (map (pick pop))
         (fst (draw_positions (Z.of_nat (length pop)) sampleSize count g)),
     snd (draw_positions (Z.of_nat (length pop)) sampleSize count g)).
Proof.
  revert g. induction count as [|c IH]; intros g; [reflexivity|].
  cbn [resamples draw_positions]. unfold resample.
  destruct (draw_indices (Z.of_nat (length pop)) sampleSize g) as [ks g1].
  rewrite IH.
  destruct (draw_positions (Z.of_nat (length pop)) sampleSize c g1) as [kss g2].
  reflexivity.
Qed.

Lemma draw_positions_length n sampleSize count g :
  length (fst (draw_positions n sampleSize count g)) = count.
Proof.
  revert g. induction count as [|c IH]; intros g; simpl; [reflexivity|].
  destruct (draw_indices n sampleSize g) as [ks g1]. specialize (IH g1).
  destruct (draw_positions n sampleSize c g1) as [kss g2]. simpl in *. congruence.
Qed.

Lemma draw_positions_each n sampleSize count g :
  0 < n ->
  Forall (fun ks => length ks = sampleSize /\ Forall (fun k => 0 <= k < n) ks)
         (fst (draw_positions n sampleSize count g)).
Proof.
  intros Hn. revert g. induction count as [|c IH]; intros g; simpl; [constructor|].
  pose proof (draw_indices_length n sampleSize g) as Hlen.
  pose proof (draw_indices_range n sampleSize g Hn) as Hr.
  destruct (draw_indices n sampleSize g) as [ks g1]. specialize (IH g1).
  destruct (draw_positions n sampleSize c g1) as [kss g2]. simpl in *.
  constructor; [split; assumption|exact IH].
Qed.

Lemma insert_at_end (done : list F) (v z : F) rest n :
  n = length done ->
  <[n := v]> (done ++ z :: rest) = (done ++ [v]) ++ rest.
Proof.
  intros ->. rewrite insert_app_r_alt by lia. rewrite Nat.sub_diag. simpl.
  rewrite <- app_assoc. reflexivity.
Qed.

Lemma run_fill_loop population sample pop count :
  forall (done : list F) (s : state),
  heap s !! population = Some pop -> pop <> [] -> sample <> population ->
  heap s !! sample = Some (done ++ replicate count (f_of_int 0)) ->
  for_loop count (Z.of_nat (length done))
    (fun j =>
       bind (len population) (fun n =>
       bind (Intn n) (fun k =>
       bind (index population k) (fun v => assign sample j v)))) s
  = Ok tt (State (<[sample := done ++ map (pick pop)
                       (fst (draw_indices (Z.of_nat (length pop)) count (rng s)))]> (heap s))
                 (snd (draw_indices (Z.of_nat (length pop)) count (rng s)))).
Proof.
  intros done s Hpop Hne Hdiff. revert done s Hpop.
  assert (Hn : 0 < Z.of_nat (length pop)) by (destruct pop; [congruence|simpl; lia]).
  induction count as [|c IH]; intros done s Hpop Hsample; simpl.
  - rewrite app_nil_r in *. rewrite insert_id by exact Hsample.
    unfold ret. rewrite state_eta. reflexivity.
  - unfold bind at 1 2. rewrite (run_len _ _ _ Hpop).
    unfold bind at 1. rewrite (run_Intn _ _ Hn).
    pose proof (rand_Intn_range (Z.of_nat (length pop)) (rng s) Hn) as Hk.
    destruct (rand_Intn (Z.of_nat (length pop)) (rng s)) as [k g1]. simpl in Hk |- *.
    unfold bind at 1. rewrite (run_index _ _ pop k) by (simpl; assumption).
    rewrite (run_assign _ _ (done ++ replicate (S c) (f_of_int 0)));
      [|exact Hsample|rewrite length_app; simpl; lia].
    rewrite Nat2Z.id. simpl replicate. rewrite insert_at_end by congruence. simpl rng. simpl heap.
    replace (Z.of_nat (length done) + 1) with (Z.of_nat (length (done ++ [pick pop k])))
      by (rewrite length_app; simpl; lia).
    rewrite IH; simpl.
    + destruct (draw_indices (Z.of_nat (length pop)) c g1) as [ks g2]. simpl.
      rewrite insert_insert_eq. rewrite <- app_assoc. reflexivity.
    + rewrite lookup_insert_ne by exact Hdiff. exact Hpop.
    + apply lookup_insert_eq.
Qed.

(** ** Sorting rearranges *)

Lemma insert_back_Permutation (x : F) rp : Permutation (insert_back x rp) (x :: rp).
Proof.
  induction rp as [|y rp IH]; simpl; [reflexivity|].
  destruct (f_less x y); [|reflexivity].
  rewrite IH. apply perm_swap.
Qed.

Lemma insertion_pass_Permutation (data rp : list F) :
  Permutation (fold_left (fun rp x => insert_back x rp) data rp) (data ++ rp).
Proof.
  revert rp. induction data as [|x data IH]; intros rp; simpl; [reflexivity|].
  rewrite IH. rewrite insert_back_Permutation. symmetry. apply Permutation_middle.
Qed.

Lemma sort_Float64s_Permutation (data : list F) :
  Permutation (sort_Float64s data) data.
Proof.
  unfold sort_Float64s. rewrite <- Permutation_rev.
  rewrite insertion_pass_Permutation. rewrite app_nil_r. reflexivity.
Qed.

Lemma sort_Float64s_length (data : list F) :
  length (sort_Float64s data) = length data.
Proof. apply Permutation_length, sort_Float64s_Permutation. Qed.

(** ** Running the estimators *)

Lemma run_mean (s : state) l xs :
  heap s !! l = Some xs -> mean l s = Ok (mean_of xs) s.
Proof.
  intros Hl. unfold mean.
  rewrite (run_bind _ _ _ _ _ (run_range _ _ _ Hl)).
  rewrite (run_bind _ _ _ _ _ (run_len _ _ _ Hl)). reflexivity.
Qed.

Lemma run_standardError (s : state) l xs :
  heap s !! l = Some xs -> standardError l s = Ok (standardError_of xs) s.
Proof.
  intros Hl. unfold standardError.
  rewrite (run_bind _ _ _ _ _ (run_mean _ _ _ Hl)).
  rewrite (run_bind _ _ _ _ _ (run_range _ _ _ Hl)).
  rewrite (run_bind _ _ _ _ _ (run_len _ _ _ Hl)).
  rewrite (run_bind _ _ _ _ _ (run_len _ _ _ Hl)). reflexivity.
Qed.

Lemma alter_lookup_insert (h : gmap slice (list F)) l xs (f : list F -> list F) :
  h !! l = Some xs -> alter f l h = <[l := f xs]> h.
Proof.
  intros Hl. apply map_eq. intros l'. destruct (decide (l = l')) as [<-|Hne].
  - rewrite lookup_alter_eq, lookup_insert_eq, Hl. reflexivity.
  - rewrite lookup_alter_ne, lookup_insert_ne by exact Hne. reflexivity.
Qed.

Lemma run_sort (s : state) l xs :
  heap s !! l = Some xs ->
  sort_Float64s_in_place l s
  = Ok tt (State (<[l := sort_Float64s xs]> (heap s)) (rng s)).
Proof.
  intros Hl. unfold sort_Float64s_in_place, set_heap.
  rewrite (alter_lookup_insert _ _ _ _ Hl). reflexivity.
Qed.

(** On a slice that holds [data], not empty, [median] returns [median_of data]
    and leaves the slice sorted. *)
Lemma run_median (s : state) l data :
  heap s !! l = Some data -> data <> [] ->
  median l s
  = Ok (median_of data) (State (<[l := sort_Float64s data]> (heap s)) (rng s)).
Proof.
  intros Hl Hne. unfold median. unfold bind at 1. rewrite (run_sort _ _ _ Hl).
  set (s1 := State _ _).
  assert (Hl1 : heap s1 !! l = Some (sort_Float64s data)) by apply lookup_insert_eq.
  unfold bind at 1. rewrite (run_len _ _ _ Hl1). rewrite sort_Float64s_length.
  assert (Hn : 0 < Z.of_nat (length data)) by (destruct data; [congruence|simpl; lia]).
  unfold median_of. set (n := Z.of_nat (length data)) in *.
  destruct (Z.rem n 2 =? 0) eqn:E.
  - apply Z.eqb_eq in E.
    unfold bind. rewrite !(run_index _ _ _ _ Hl1); [reflexivity| |];
      rewrite sort_Float64s_length; fold n; clearbody n;
      Z.quot_rem_to_equations; lia.
  - rewrite (run_index _ _ _ _ Hl1); [reflexivity|].
    rewrite sort_Float64s_length; fold n; clearbody n.
    Z.quot_rem_to_equations; lia.
Qed.

(** On an empty slice [median] indexes [data[-1]]. *)
Lemma run_median_empty (s : state) l :
  heap s !! l = Some [] -> median l s = Panic index_out_of_range.
Proof.
  intros Hl. unfold median. unfold bind at 1. rewrite (run_sort _ _ _ Hl).
  set (s1 := State _ _).
  assert (Hl1 : heap s1 !! l = Some []) by apply lookup_insert_eq.
  unfold bind at 1. rewrite (run_len _ _ _ Hl1). simpl.
  unfold bind. rewrite (run_index_panic _ _ _ _ Hl1); [reflexivity|simpl; lia].
Qed.

(** ** Drawing one sample into a fresh slice *)

Lemma run_draw_sample {B} (s : state) population pop sampleSize (k : slice -> M B) :
  heap s !! population = Some pop -> pop <> [] -> 0 <= sampleSize ->
  bind (make sampleSize) (fun sample =>
    bind (for_upto sampleSize (fun j =>
            bind (len population) (fun n =>
            bind (Intn n) (fun k =>
            bind (index population k) (fun v => assign sample j v)))))
         (fun _ => k sample)) s
  = k (fresh (dom (heap s)))
      (State (<[fresh (dom (heap s)) :=
                 fst (resample pop (Z.to_nat sampleSize) (rng s))]> (heap s))
             (snd (resample pop (Z.to_nat sampleSize) (rng s)))).
Proof.
  intros Hpop Hne Hsize. unfold bind at 1. rewrite (run_make _ _ Hsize).
  set (sample := fresh (dom (heap s))).
  assert (Hdiff : sample <> population) by (apply (fresh_not_allocated _ _ _ Hpop)).
  unfold bind at 1. unfold for_upto.
  pose proof (run_fill_loop population sample pop (Z.to_nat sampleSize) []
                (State (<[sample := replicate (Z.to_nat sampleSize) (f_of_int 0)]> (heap s)) (rng s)))
    as Hfill.
  simpl in Hfill. change (Z.of_nat 0) with 0 in Hfill. rewrite Hfill.
  - unfold resample.
    destruct (draw_indices (Z.of_nat (length pop)) (Z.to_nat sampleSize) (rng s)) as [ks g'].
    simpl. rewrite insert_insert_eq. reflexivity.
  - rewrite lookup_insert_ne by exact Hdiff. exact Hpop.
  - exact Hne.
  - exact Hdiff.
  - apply lookup_insert_eq.
Qed.

(** ** The loops of [bootstrap] and [centralLimitTheorem] *)

Lemma resample_nonempty (pop : list F) sampleSize g :
  1 <= sampleSize -> fst (resample pop (Z.to_nat sampleSize) g) <> [].
Proof.
  intros Hsize Hnil. pose proof (resample_length pop (Z.to_nat sampleSize) g) as Hlen.
  rewrite Hnil in Hlen. simpl in Hlen. lia.
Qed.

Lemma run_bootstrap_loop population means medians pop sampleSize count :
  forall (doneM doneD : list F) (s : state),
  heap s !! population = Some pop -> pop <> [] -> 1 <= sampleSize ->
  means <> population -> medians <> population -> means <> medians ->
  heap s !! means = Some (doneM ++ replicate count (f_of_int 0)) ->
  heap s !! medians = Some (doneD ++ replicate count (f_of_int 0)) ->
  length doneD = length doneM ->
  exists s',
    for_loop count (Z.of_nat (length doneM))
      (fun i =>
         bind (make sampleSize) (fun sample =>
         bind (for_upto sampleSize (fun j =>
                 bind (len population) (fun n =>
                 bind (Intn n) (fun k =>
                 bind (index population k) (fun v => assign sample j v)))))
              (fun _ =>
         bind (mean sample) (fun m =>
         bind (assign means i m) (fun _ =>
         bind (median sample) (fun md => assign medians i md)))))) s
    = Ok tt s' /\
    heap s' !! means
    = Some (doneM ++ map mean_of (fst (resamples pop (Z.to_nat sampleSize) count (rng s)))) /\
    heap s' !! medians
    = Some (doneD ++ map median_of (fst (resamples pop (Z.to_nat sampleSize) count (rng s)))) /\
    rng s' = snd (resamples pop (Z.to_nat sampleSize) count (rng s)).
Proof.
  intros doneM doneD s Hpop Hne Hsize HMp HDp HMD. revert doneM doneD s Hpop.
  induction count as [|c IH]; intros doneM doneD s Hpop Hmeans Hmedians Hlen.
  - exists s. simpl. rewrite !app_nil_r in *. auto.
  - cbn [for_loop]. unfold bind at 1.
    rewrite (run_draw_sample s population pop sampleSize _ Hpop Hne) by lia.
    set (sample := fresh (dom (heap s))).
    assert (HSp : sample <> population) by apply (fresh_not_allocated _ _ _ Hpop).
    assert (HSM : sample <> means) by apply (fresh_not_allocated _ _ _ Hmeans).
    assert (HSD : sample <> medians) by apply (fresh_not_allocated _ _ _ Hmedians).
    pose proof (resample_nonempty pop sampleSize (rng s) Hsize) as Hsmp.
    cbn [resamples].
    destruct (resample pop (Z.to_nat sampleSize) (rng s)) as [smp g1]. cbn [fst snd] in *.
    set (s1 := State (<[sample := smp]> (heap s)) g1).
    assert (H1 : heap s1 !! sample = Some smp) by apply lookup_insert_eq.
    rewrite (run_bind _ _ _ _ _ (run_mean s1 sample smp H1)).
    assert (H1M : heap s1 !! means = Some (doneM ++ replicate (S c) (f_of_int 0)))
      by (simpl; rewrite lookup_insert_ne by exact HSM; exact Hmeans).
    rewrite (run_bind _ _ s1 tt _ (run_assign s1 means _ (Z.of_nat (length doneM)) _ H1M
               ltac:(rewrite length_app; simpl; lia))).
    rewrite Nat2Z.id. cbn [replicate]. rewrite insert_at_end by congruence.
    set (s2 := State _ _).
    assert (H2 : heap s2 !! sample = Some smp)
      by (simpl; rewrite lookup_insert_ne by (apply not_eq_sym, HSM); exact H1).
    rewrite (run_bind _ _ _ _ _ (run_median s2 sample smp H2 Hsmp)).
    set (s3 := State _ _).
    assert (H3D : heap s3 !! medians = Some (doneD ++ replicate (S c) (f_of_int 0))).
    { simpl. rewrite lookup_insert_ne by exact HSD.
      rewrite lookup_insert_ne by exact HMD.
      rewrite lookup_insert_ne by exact HSD. exact Hmedians. }
    rewrite (run_assign s3 medians _ (Z.of_nat (length doneM)) _ H3D)
      by (rewrite length_app; simpl; lia).
    rewrite Nat2Z.id. cbn [replicate]. rewrite insert_at_end by congruence.
    set (s4 := State _ _).
    replace (Z.of_nat (length doneM) + 1)
      with (Z.of_nat (length (doneM ++ [mean_of smp])))
      by (rewrite length_app; simpl; lia).
    destruct (IH (doneM ++ [mean_of smp]) (doneD ++ [median_of smp]) s4)
      as (s' & Hrun & HM' & HD' & Hg').
    + simpl. rewrite lookup_insert_ne by exact HDp.
      rewrite lookup_insert_ne by exact HSp.
      rewrite lookup_insert_ne by exact HMp.
      rewrite lookup_insert_ne by exact HSp. exact Hpop.
    + simpl. rewrite lookup_insert_ne by (apply not_eq_sym, HMD).
      rewrite lookup_insert_ne by exact HSM. apply lookup_insert_eq.
    + simpl. apply lookup_insert_eq.
    + rewrite !length_app. simpl. lia.
    + exists s'. simpl rng in *.
      destruct (resamples pop (Z.to_nat sampleSize) c g1) as [ss g2]. cbn [fst snd] in *.
      rewrite <- !app_assoc in HM', HD'. auto.
Qed.

Lemma run_clt_loop population sampleMeans pop sampleSize count :
  forall (done : list F) (s : state),
  heap s !! population = Some pop -> pop <> [] -> 0 <= sampleSize ->
  sampleMeans <> population ->
  heap s !! sampleMeans = Some (done ++ replicate count (f_of_int 0)) ->
  exists s',
    for_loop count (Z.of_nat (length done))
      (fun i =>
         bind (make sampleSize) (fun sample =>
         bind (for_upto sampleSize (fun j =>
                 bind (len population) (fun n =>
                 bind (Intn n) (fun k =>
                 bind (index population k) (fun v => assign sample j v)))))
              (fun _ =>
         bind (mean sample) (fun m => assign sampleMeans i m)))) s
    = Ok tt s' /\
    heap s' !! sampleMeans
    = Some (done ++ map mean_of (fst (resamples pop (Z.to_nat sampleSize) count (rng s)))) /\
    rng s' = snd (resamples pop (Z.to_nat sampleSize) count (rng s)).
Proof.
  intros done s Hpop Hne Hsize HMp. revert done s Hpop.
  induction count as [|c IH]; intros done s Hpop Hmeans.
  - exists s. simpl. rewrite !app_nil_r in *. auto.
  - cbn [for_loop]. unfold bind at 1.
    rewrite (run_draw_sample s population pop sampleSize _ Hpop Hne) by lia.
    set (sample := fresh (dom (heap s))).
    assert (HSp : sample <> population) by apply (fresh_not_allocated _ _ _ Hpop).
    assert (HSM : sample <> sampleMeans) by apply (fresh_not_allocated _ _ _ Hmeans).
    cbn [resamples].
    destruct (resample pop (Z.to_nat sampleSize) (rng s)) as [smp g1]. cbn [fst snd] in *.
    set (s1 := State (<[sample := smp]> (heap s)) g1).
    assert (H1 : heap s1 !! sample = Some smp) by apply lookup_insert_eq.
    rewrite (run_bind _ _ _ _ _ (run_mean s1 sample smp H1)).
    assert (H1M : heap s1 !! sampleMeans = Some (done ++ replicate (S c) (f_of_int 0)))
      by (simpl; rewrite lookup_insert_ne by exact HSM; exact Hmeans).
    rewrite (run_assign s1 sampleMeans _ (Z.of_nat (length done)) _ H1M)
      by (rewrite length_app; simpl; lia).
    rewrite Nat2Z.id. cbn [replicate]. rewrite insert_at_end by congruence.
    set (s2 := State _ _).
    replace (Z.of_nat (length done) + 1)
      with (Z.of_nat (length (done ++ [mean_of smp])))
      by (rewrite length_app; simpl; lia).
    destruct (IH (done ++ [mean_of smp]) s2) as (s' & Hrun & HM' & Hg').
    + simpl. rewrite lookup_insert_ne by exact HMp.
      rewrite lookup_insert_ne by exact HSp. exact Hpop.
    + simpl. apply lookup_insert_eq.
    + exists s'. simpl rng in *.
      destruct (resamples pop (Z.to_nat sampleSize) c g1) as [ss g2]. cbn [fst snd] in *.
      rewrite <- !app_assoc in HM'. auto.
Qed.

(** ** The estimators as functions of the samples drawn *)

Lemma run_bootstrap (s : state) population pop bootstrapSamples sampleSize :
  heap s !! population = Some pop -> pop <> [] ->
  0 <= bootstrapSamples -> 1 <= sampleSize ->
  exists s',
    bootstrap population bootstrapSamples sampleSize s
    = Ok (standardError_of
            (map mean_of
               (fst (resamples pop (Z.to_nat sampleSize) (Z.to_nat bootstrapSamples) (rng s)))),
          standardError_of
            (map median_of
               (fst (resamples pop (Z.to_nat sampleSize) (Z.to_nat bootstrapSamples) (rng s)))))
         s' /\
    rng s' = snd (resamples pop (Z.to_nat sampleSize) (Z.to_nat bootstrapSamples) (rng s)).
Proof.
  intros Hpop Hne HB Hsize. unfold bootstrap.
  rewrite (run_bind _ _ _ _ _ (run_make s _ HB)).
  set (means := fresh (dom (heap s))). set (s1 := State _ _).
  assert (HMp : means <> population) by apply (fresh_not_allocated _ _ _ Hpop).
  assert (Hpop1 : heap s1 !! population = Some pop)
    by (simpl; rewrite lookup_insert_ne by exact HMp; exact Hpop).
  assert (HM1 : heap s1 !! means = Some (replicate (Z.to_nat bootstrapSamples) (f_of_int 0)))
    by apply lookup_insert_eq.
  rewrite (run_bind _ _ _ _ _ (run_make s1 _ HB)).
  set (medians := fresh (dom (heap s1))). set (s2 := State _ _).
  assert (HDp : medians <> population) by apply (fresh_not_allocated _ _ _ Hpop1).
  assert (HDM : medians <> means) by apply (fresh_not_allocated _ _ _ HM1).
  destruct (run_bootstrap_loop population means medians pop sampleSize
              (Z.to_nat bootstrapSamples) [] [] s2)
    as (s3 & Hrun & HM & HD & Hg); try assumption.
  - simpl. rewrite lookup_insert_ne by exact HDp. exact Hpop1.
  - apply not_eq_sym, HDM.
  - simpl. rewrite lookup_insert_ne by exact HDM. exact HM1.
  - simpl. apply lookup_insert_eq.
  - reflexivity.
  - simpl in Hrun, HM, HD, Hg. unfold for_upto.
    rewrite (run_bind _ _ _ _ _ Hrun).
    rewrite (run_bind _ _ _ _ _ (run_standardError s3 means _ HM)).
    rewrite (run_bind _ _ _ _ _ (run_standardError s3 medians _ HD)).
    exists s3. split; [reflexivity|exact Hg].
Qed.

Lemma run_centralLimitTheorem (s : state) population pop sampleSize numSamples :
  heap s !! population = Some pop -> pop <> [] ->
  0 <= sampleSize -> 0 <= numSamples ->
  exists s',
    centralLimitTheorem population sampleSize numSamples s
    = Ok (standardError_of
            (map mean_of
               (fst (resamples pop (Z.to_nat sampleSize) (Z.to_nat numSamples) (rng s)))))
         s' /\
    rng s' = snd (resamples pop (Z.to_nat sampleSize) (Z.to_nat numSamples) (rng s)).
Proof.
  intros Hpop Hne Hsize HN. unfold centralLimitTheorem.
  rewrite (run_bind _ _ _ _ _ (run_make s _ HN)).
  set (means := fresh (dom (heap s))). set (s1 := State _ _).
  assert (HMp : means <> population) by apply (fresh_not_allocated _ _ _ Hpop).
  destruct (run_clt_loop population means pop sampleSize (Z.to_nat numSamples) [] s1)
    as (s2 & Hrun & HM & Hg); try assumption.
  - simpl. rewrite lookup_insert_ne by exact HMp. exact Hpop.
  - simpl. apply lookup_insert_eq.
  - simpl in Hrun, HM, Hg. unfold for_upto.
    rewrite (run_bind _ _ _ _ _ Hrun).
    rewrite (run_standardError s2 means _ HM).
    exists s2. split; [reflexivity|exact Hg].
Qed.

(** With nothing to draw from, the first [rand.Intn(0)] panics. *)
Lemma run_draw_sample_empty {B} (s : state) population sampleSize (k : slice -> M B) :
  heap s !! population = Some [] -> 1 <= sampleSize ->
  bind (make sampleSize) (fun sample =>
    bind (for_upto sampleSize (fun j =>
            bind (len population) (fun n =>
            bind (Intn n) (fun k =>
            bind (index population k) (fun v => assign sample j v)))))
         (fun _ => k sample)) s
  = Panic invalid_argument_to_Intn.
Proof.
  intros Hpop Hsize. rewrite (run_bind _ _ _ _ _ (run_make s sampleSize ltac:(lia))).
  set (sample := fresh (dom (heap s))). set (s1 := State _ _).
  assert (Hdiff : sample <> population) by apply (fresh_not_allocated _ _ _ Hpop).
  assert (Hpop1 : heap s1 !! population = Some [])
    by (simpl; rewrite lookup_insert_ne by exact Hdiff; exact Hpop).
  unfold for_upto. destruct (Z.to_nat sampleSize) as [|c] eqn:E; [lia|].
  cbn [for_loop]. unfold bind at 1 2 3. rewrite (run_len _ _ _ Hpop1).
  unfold bind. rewrite run_Intn_panic by (simpl; lia). reflexivity.
Qed.

Lemma run_bootstrap_empty (s : state) population bootstrapSamples sampleSize :
  heap s !! population = Some [] -> 1 <= bootstrapSamples -> 1 <= sampleSize ->
  bootstrap population bootstrapSamples sampleSize s = Panic invalid_argument_to_Intn.
Proof.
  intros Hpop HB Hsize. unfold bootstrap.
  rewrite (run_bind _ _ _ _ _ (run_make s bootstrapSamples ltac:(lia))).
  set (means := fresh (dom (heap s))). set (s1 := State _ _).
  assert (HMp : means <> population) by apply (fresh_not_allocated _ _ _ Hpop).
  assert (Hpop1 : heap s1 !! population = Some [])
    by (simpl; rewrite lookup_insert_ne by exact HMp; exact Hpop).
  rewrite (run_bind _ _ _ _ _ (run_make s1 bootstrapSamples ltac:(lia))).
  set (medians := fresh (dom (heap s1))). set (s2 := State _ _).
  assert (HDp : medians <> population) by apply (fresh_not_allocated _ _ _ Hpop1).
  assert (Hpop2 : heap s2 !! population = Some [])
    by (simpl; rewrite lookup_insert_ne by exact HDp; exact Hpop1).
  unfold for_upto. destruct (Z.to_nat bootstrapSamples) as [|c] eqn:E; [lia|].
  cbn [for_loop]. unfold bind at 1 2.
  rewrite (run_draw_sample_empty s2 population sampleSize _ Hpop2 Hsize). reflexivity.
Qed.

Lemma run_centralLimitTheorem_empty (s : state) population sampleSize numSamples :
  heap s !! population = Some [] -> 1 <= sampleSize -> 1 <= numSamples ->
  centralLimitTheorem population sampleSize numSamples s
  = Panic invalid_argument_to_Intn.
Proof.
  intros Hpop Hsize HN. unfold centralLimitTheorem.
  rewrite (run_bind _ _ _ _ _ (run_make s numSamples ltac:(lia))).
  set (means := fresh (dom (heap s))). set (s1 := State _ _).
  assert (HMp : means <> population) by apply (fresh_not_allocated _ _ _ Hpop).
  assert (Hpop1 : heap s1 !! population = Some [])
    by (simpl; rewrite lookup_insert_ne by exact HMp; exact Hpop).
  unfold for_upto. destruct (Z.to_nat numSamples) as [|c] eqn:E; [lia|].
  cbn [for_loop]. unfold bind at 1 2.
  rewrite (run_draw_sample_empty s1 population sampleSize _ Hpop1 Hsize). reflexivity.
Qed.

(** ** Generating the population *)

Lemma run_NormFloat64 (s : state) :
  NormFloat64 s
  = Ok (fst (rand_NormFloat64 (rng s))) (State (heap s) (snd (rand_NormFloat64 (rng s)))).
Proof. unfold NormFloat64. destruct (rand_NormFloat64 (rng s)); reflexivity. Qed.

Lemma normal_draws_length mean stddev count g :
  length (fst (normal_draws mean stddev count g)) = count.
Proof.
  revert g. induction count as [|c IH]; intros g; simpl; [reflexivity|].
  destruct (rand_NormFloat64 g) as [v g1]. specialize (IH g1).
  destruct (normal_draws mean stddev c g1) as [vs g2]. simpl in *. congruence.
Qed.

(** Drawing [a + b] elements is drawing [a] and then [b] from where the
    source was left. *)
Lemma normal_draws_app mean stddev (a b : nat) (g : G) :
  fst (normal_draws mean stddev (a + b) g)
  = fst (normal_draws mean stddev a g)
    ++ fst (normal_draws mean stddev b (snd (normal_draws mean stddev a g))).
Proof.
  revert g. induction a as [|a IH]; intros g; [reflexivity|].
  cbn [Nat.add normal_draws].
  destruct (rand_NormFloat64 g) as [v g1]. specialize (IH g1).
  destruct (normal_draws mean stddev a g1) as [vs g2].
  destruct (normal_draws mean stddev (a + b) g1) as [ws g3].
  cbn [fst snd app] in *. rewrite IH. reflexivity.
Qed.

Lemma run_generate_loop population mean stddev count :
  forall (done : list F) (s : state),
  heap s !! population = Some (done ++ replicate count (f_of_int 0)) ->
  for_loop count (Z.of_nat (length done))
    (fun i => bind NormFloat64 (fun v =>
                assign population i (v * stddev + mean)%f64)) s
  = Ok tt (State (<[population := done ++ fst (normal_draws mean stddev count (rng s))]> (heap s))
                 (snd (normal_draws mean stddev count (rng s)))).
Proof.
  induction count as [|c IH]; intros done s Hpop; simpl.
  - rewrite app_nil_r in *. rewrite insert_id by exact Hpop.
    unfold ret. rewrite state_eta. reflexivity.
  - unfold bind at 1. rewrite (run_bind _ _ _ _ _ (run_NormFloat64 s)).
    destruct (rand_NormFloat64 (rng s)) as [v g1]. cbn [fst snd].
    rewrite (run_assign _ population (done ++ replicate (S c) (f_of_int 0))
               (Z.of_nat (length done)));
      [|exact Hpop|rewrite length_app; simpl; lia].
    rewrite Nat2Z.id. cbn [replicate]. rewrite insert_at_end by reflexivity.
    simpl heap. simpl rng.
    replace (Z.of_nat (length done) + 1)
      with (Z.of_nat (length (done ++ [(v * stddev + mean)%f64])))
      by (rewrite length_app; simpl; lia).
    rewrite IH by apply lookup_insert_eq. simpl.
    destruct (normal_draws mean stddev c g1) as [vs g2]. simpl.
    rewrite insert_insert_eq. rewrite <- app_assoc. reflexivity.
Qed.

(** [generatePopulation] returns a fresh slice that holds the [size] draws
    made from the source as [rand.Seed(42)] leaves it. *)
Lemma run_generatePopulation (s : state) size mean stddev :
  0 <= size ->
  generatePopulation size mean stddev s
  = Ok (fresh (dom (heap s)))
       (State (<[fresh (dom (heap s)) :=
                  fst (normal_draws mean stddev (Z.to_nat size) (rand_Seed 42 (rng s)))]> (heap s))
              (snd (normal_draws mean stddev (Z.to_nat size) (rand_Seed 42 (rng s))))).
Proof.
  intros Hsize. unfold generatePopulation.
  rewrite (run_bind _ _ _ _ _ (run_make s size Hsize)).
  set (population := fresh (dom (heap s))).
  unfold bind at 1. unfold Seed at 1. cbn [heap rng].
  unfold for_upto.
  pose proof (run_generate_loop population mean stddev (Z.to_nat size) []
                (State (<[population := replicate (Z.to_nat size) (f_of_int 0)]> (heap s))
                       (rand_Seed 42 (rng s)))) as Hloop.
  simpl in Hloop. change (Z.of_nat 0) with 0 in Hloop.
  rewrite (run_bind _ _ _ _ _ (Hloop (lookup_insert_eq _ _ _))).
  rewrite insert_insert_eq. reflexivity.
Qed.

(** ** Sorting puts in order *)

Section Order.
Context {order : LessOrder F}.

Lemma f_le_total (x y : F) : f_le x y \/ f_le y x.
Proof.
  unfold f_le. destruct (f_less y x) eqn:E; [right|left; reflexivity].
  apply less_asym, E.
Qed.

Lemma f_le_refl (x : F) : f_le x x.
Proof. destruct (f_le_total x x); assumption. Qed.

Lemma insert_back_descending (x : F) rp :
  StronglySorted (flip f_le) rp -> StronglySorted (flip f_le) (insert_back x rp).
Proof.
  induction 1 as [|y rp Hrp IH Hy]; simpl.
  - repeat constructor.
  - destruct (f_less x y) eqn:E.
    + constructor; [exact IH|].
      rewrite insert_back_Permutation. constructor; [|exact Hy].
      unfold flip, f_le. apply less_asym, E.
    + constructor; [constructor; assumption|].
      constructor; [exact E|].
      eapply Forall_impl; [exact Hy|]. intros z Hz. unfold flip in *.
      eapply le_trans; [exact Hz|exact E].
Qed.

Lemma insertion_pass_descending (data rp : list F) :
  StronglySorted (flip f_le) rp ->
  StronglySorted (flip f_le) (fold_left (fun rp x => insert_back x rp) data rp).
Proof.
  revert rp. induction data as [|x data IH]; intros rp Hrp; simpl; [exact Hrp|].
  apply IH, insert_back_descending, Hrp.
Qed.

Lemma rev_descending (l : list F) :
  StronglySorted (flip f_le) l -> ascending (rev l).
Proof.
  unfold ascending. induction 1 as [|x l Hl IH Hx]; simpl; [constructor|].
  apply StronglySorted_app_2; [|exact IH|repeat constructor].
  intros x1 x2 H1 H2. apply list_elem_of_singleton in H2 as ->.
  apply list_elem_of_In, in_rev in H1.
  rewrite Forall_forall in Hx. apply Hx, list_elem_of_In, H1.
Qed.

Lemma sort_Float64s_ascending (data : list F) : ascending (sort_Float64s data).
Proof.
  unfold sort_Float64s. apply rev_descending, insertion_pass_descending. constructor.
Qed.

(** A slice already in order is left as it is. *)
Lemma insertion_pass_ascending (data rp : list F) :
  ascending (rev rp ++ data) ->
  rev (fold_left (fun rp x => insert_back x rp) data rp) = rev rp ++ data.
Proof.
  revert rp. induction data as [|x data IH]; intros rp Hasc; simpl.
  - rewrite app_nil_r. reflexivity.
  - assert (Hins : insert_back x rp = x :: rp).
    { destruct rp as [|y rp]; [reflexivity|]. simpl.
      assert (Hyx : f_le y x).
      { apply (StronglySorted_app_1_elem_of _ _ _ _ _ Hasc).
        - simpl. apply elem_of_app. right. apply list_elem_of_singleton. reflexivity.
        - left. }
      unfold f_le in Hyx. rewrite Hyx. reflexivity. }
    rewrite Hins. rewrite IH; simpl; rewrite <- app_assoc; [reflexivity|exact Hasc].
Qed.

Lemma sort_Float64s_of_ascending (data : list F) :
  ascending data -> sort_Float64s data = data.
Proof. intros Hasc. apply (insertion_pass_ascending data []). exact Hasc. Qed.

Lemma sort_Float64s_fixpoint (data : list F) :
  sort_Float64s data = data <-> ascending data.
Proof.
  split; [|apply sort_Float64s_of_ascending].
  intros <-. apply sort_Float64s_ascending.
Qed.

End Order.

(** ** The median is the middle of the sorted slice *)

Lemma median_of_middle (data : list F) :
  median_of data = middle_of_sorted (sort_Float64s data).
Proof.
  unfold median_of, middle_of_sorted, pick. rewrite sort_Float64s_length.
  set (n := length data).
  assert (Hq : Z.to_nat (Z.quot (Z.of_nat n) 2) = (n / 2)%nat).
  { rewrite Z.quot_div_nonneg by lia. rewrite <- (Nat2Z.id (n / 2)).
    rewrite Nat2Z.inj_div. reflexivity. }
  assert (Hq1 : Z.to_nat (Z.quot (Z.of_nat n) 2 - 1) = (n / 2 - 1)%nat) by lia.
  assert (Hr : (Z.rem (Z.of_nat n) 2 =? 0) = Nat.even n).
  { destruct (Nat.even n) eqn:E.
    - apply Nat.even_spec in E as [k Hk]. apply Z.eqb_eq.
      Z.quot_rem_to_equations; lia.
    - rewrite <- Nat.negb_odd in E. apply negb_false_iff, Nat.odd_spec in E as [k Hk].
      apply Z.eqb_neq. Z.quot_rem_to_equations; lia. }
  rewrite Hq, Hq1, Hr. reflexivity.
Qed.

Lemma middle_of_sorted_odd_In (sorted : list F) :
  Nat.even (length sorted) = false ->
  In (middle_of_sorted sorted) sorted.
Proof.
  intros Hodd. unfold middle_of_sorted. rewrite Hodd. apply nth_In.
  destruct sorted; [discriminate|]. apply Nat.div_lt; simpl; lia.
Qed.

End Program.

(** ** Exact arithmetic *)

Lemma Rltb_true (x y : R) : Rltb x y = true <-> (x < y)%R.
Proof. unfold Rltb. destruct (Rlt_dec x y); split; (discriminate || tauto). Qed.

Lemma Rltb_false (x y : R) : Rltb x y = false <-> (y <= x)%R.
Proof.
  unfold Rltb. destruct (Rlt_dec x y); split; try (discriminate || reflexivity); lra.
Qed.

Lemma exact_f_le (x y : R) : f_le x y <-> (x <= y)%R.
Proof. unfold f_le. simpl. apply Rltb_false. Qed.

#[export] Instance exact_order : LessOrder R.
Proof.
  split.
  - intros x y Hxy. simpl in *. apply Rltb_true in Hxy. apply Rltb_false. lra.
  - intros x y z Hxy Hyz. apply exact_f_le in Hxy, Hyz. apply exact_f_le. lra.
Qed.

Lemma minimum_le (data : list R) x : In x data -> (minimum data <= x)%R.
Proof.
  unfold minimum. generalize (hd 0%R data) as d.
  induction data as [|y data IH]; intros d Hin; [destruct Hin|].
  simpl. destruct Hin as [->|Hin].
  - apply Rmin_l.
  - eapply Rle_trans; [apply Rmin_r|apply IH, Hin].
Qed.

Lemma le_maximum (data : list R) x : In x data -> (x <= maximum data)%R.
Proof.
  unfold maximum. generalize (hd 0%R data) as d.
  induction data as [|y data IH]; intros d Hin; [destruct Hin|].
  simpl. destruct Hin as [->|Hin].
  - apply Rmax_l.
  - eapply Rle_trans; [apply IH, Hin|apply Rmax_r].
Qed.

Lemma exact_middle_between (sorted : list R) lo hi :
  sorted <> [] -> Forall (fun x => lo <= x <= hi)%R sorted ->
  (lo <= middle_of_sorted sorted <= hi)%R.
Proof.
  intros Hne Hall. rewrite Forall_forall in Hall.
  unfold middle_of_sorted. set (n := length sorted).
  assert (Hn : (0 < n)%nat) by (subst n; destruct sorted; [congruence|simpl; lia]).
  assert (Hhalf : (n / 2 < n)%nat) by (apply Nat.div_lt; lia).
  destruct (Nat.even n) eqn:E.
  - assert (Hprev : (n / 2 - 1 < n)%nat) by lia.
    pose proof (Hall _ (proj2 (list_elem_of_In _ _) (nth_In sorted (f_of_int 0) Hprev))) as Ha.
    pose proof (Hall _ (proj2 (list_elem_of_In _ _) (nth_In sorted (f_of_int 0) Hhalf))) as Hb.
    cbv [f_add f_div f_of_int exact] in *. lra.
  - apply Hall, list_elem_of_In, nth_In. exact Hhalf.
Qed.

(** ** IEEE 754 binary64 *)

Lemma B64_less_rank (x y : spec_float) :
  B64.less x y = true <-> B64.rank_lt (B64.rank x) (B64.rank y).
Proof.
  unfold B64.less, B64.ltb, SFltb.
  destruct x as [sx|sx| |sx mx ex], y as [sy|sy| |sy my ey];
    try destruct sx; try destruct sy; simpl;
    try (split; [discriminate|lia]); try (split; [lia|reflexivity]);
    try (split; [reflexivity|lia]).
  all: change (Pos.compare_cont Eq mx my) with (Pos.compare mx my).
  all: destruct (Z.compare_spec ex ey); destruct (Pos.compare_spec mx my); simpl;
       split; intros; try discriminate; try reflexivity; lia.
Qed.

Lemma B64_not_less_rank (x y : spec_float) :
  B64.less x y = false <-> ~ B64.rank_lt (B64.rank x) (B64.rank y).
Proof.
  rewrite <- B64_less_rank. destruct (B64.less x y); split; congruence.
Qed.

#[export] Instance binary64_order : LessOrder spec_float.
Proof.
  split.
  - intros x y Hxy. apply B64_less_rank in Hxy. apply B64_not_less_rank.
    destruct (B64.rank x) as [[? ?] ?], (B64.rank y) as [[? ?] ?]. simpl in *. lia.
  - intros x y z Hxy Hyz. unfold f_le in *. simpl in *.
    apply B64_not_less_rank in Hxy, Hyz. apply B64_not_less_rank.
    destruct (B64.rank x) as [[? ?] ?], (B64.rank y) as [[? ?] ?],
             (B64.rank z) as [[? ?] ?]. simpl in *. lia.
Qed.

(** *** Dividing by one, and a number minus itself *)

Lemma div_eucl_pair a b : Z.div_eucl a b = (a / b, a mod b).
Proof. unfold Z.div, Z.modulo. destruct (Z.div_eucl a b). reflexivity. Qed.

Lemma B64_bounded_cases m e :
  bounded 53 1024 m e = true ->
  e <= 971 /\
  ((Zpos (digits2_pos m) = 53 /\ -1074 <= e) \/
   (Zpos (digits2_pos m) < 53 /\ e = -1074)).
Proof.
  unfold bounded, canonical_mantissa, fexp, emin. intros Hb.
  apply andb_prop in Hb as [H1 H2]. apply Z.eqb_eq in H1. apply Z.leb_le in H2.
  pose proof (Pos2Z.is_pos (digits2_pos m)). lia.
Qed.

(** Rounding a mantissa that is already canonical changes nothing. *)
Lemma B64_round_canonical s m e :
  bounded 53 1024 m e = true ->
  binary_round_aux 53 1024 s (Zpos m) e loc_Exact = S754_finite s m e.
Proof.
  intros Hb. pose proof Hb as Hb'. unfold bounded, canonical_mantissa in Hb'.
  apply andb_prop in Hb' as [H1 H2]. apply Z.eqb_eq in H1.
  unfold binary_round_aux, shr_fexp. cbn [Zdigits2].
  rewrite H1. rewrite Z.sub_diag.
  cbn [shr shr_record_of_loc shr_m loc_of_shr_record round_nearest_even].
  change (Zdigits2 (Zpos m)) with (Zpos (digits2_pos m)).
  rewrite H1. rewrite Z.sub_diag. cbn [shr shr_record_of_loc shr_m].
  rewrite H2. reflexivity.
Qed.

(** Nor does rounding its double at the exponent below. *)
Lemma B64_round_doubled s m e :
  bounded 53 1024 m e = true ->
  binary_round_aux 53 1024 s (Zpos m~0) (e - 1) loc_Exact = S754_finite s m e.
Proof.
  intros Hb. pose proof Hb as Hb'. unfold bounded, canonical_mantissa in Hb'.
  apply andb_prop in Hb' as [H1 H2]. apply Z.eqb_eq in H1.
  unfold binary_round_aux, shr_fexp. cbn [Zdigits2 digits2_pos].
  replace (Zpos (Pos.succ (digits2_pos m)) + (e - 1))
    with (Zpos (digits2_pos m) + e) by lia.
  rewrite H1. replace (e - (e - 1)) with 1 by lia.
  cbn [shr shr_record_of_loc SpecFloat.iter_pos shr_1 orb shr_m
       loc_of_shr_record round_nearest_even].
  replace (e - 1 + 1) with e by lia.
  change (Zdigits2 (Zpos m)) with (Zpos (digits2_pos m)).
  rewrite H1. rewrite Z.sub_diag. cbn [shr shr_record_of_loc shr_m].
  rewrite H2. reflexivity.
Qed.

Lemma B64_div_one s m e :
  bounded 53 1024 m e = true ->
  B64.div (S754_finite s m e) (B64.of_int 1) = S754_finite s m e.
Proof.
  intros Hb. destruct (B64_bounded_cases m e Hb) as [Hmax Hcase].
  change (B64.of_int 1) with (S754_finite false 4503599627370496 (-52)).
  unfold B64.div, B64.prec, B64.emax, SFdiv, SFdiv_core_binary.
  rewrite xorb_false_r.
  cbn [Zdigits2]. change (Zpos (digits2_pos 4503599627370496)) with 53.
  assert (Hnorm :
    (Zpos (digits2_pos m) = 53 /\ -1074 < e) \/
    Z.min (fexp 53 1024 (Zpos (digits2_pos m) + e - (53 + -52))) (e - -52) = e)
    by (unfold fexp, emin; lia).
  destruct Hnorm as [[Hd He]|He'].
  - replace (Z.min (fexp 53 1024 (Zpos (digits2_pos m) + e - (53 + -52))) (e - -52))
      with (e - 1) by (unfold fexp, emin; lia).
    replace (e - -52 - (e - 1)) with 53 by lia.
    rewrite div_eucl_pair. rewrite Z.shiftl_mul_pow2 by lia.
    replace (Zpos m * 2 ^ 53) with (Zpos m~0 * 4503599627370496)
      by (rewrite Pos2Z.inj_xO; change (2 ^ 53) with (2 * 4503599627370496); ring).
    rewrite Z.div_mul by lia. rewrite Z.mod_mul by lia.
    change (new_location 4503599627370496 0) with loc_Exact.
    apply B64_round_doubled, Hb.
  - rewrite He'. replace (e - -52 - e) with 52 by lia.
    rewrite div_eucl_pair. rewrite Z.shiftl_mul_pow2 by lia.
    change (2 ^ 52) with 4503599627370496.
    rewrite Z.div_mul by lia. rewrite Z.mod_mul by lia.
    change (new_location 4503599627370496 0) with loc_Exact.
    apply B64_round_canonical, Hb.
Qed.

Lemma B64_sub_self s m e :
  B64.sub (S754_finite s m e) (S754_finite s m e) = S754_zero false.
Proof.
  unfold B64.sub, SFsub. rewrite Z.min_id. unfold shl_align.
  rewrite !Z.sub_diag. reflexivity.
Qed.

(** The mean of one number is that number. *)
Lemma B64_mean_of_single (x : spec_float) :
  B64.valid x = true -> B64.is_nan x = false ->
  mean_of [x] = match x with S754_zero _ => S754_zero false | _ => x end.
Proof.
  intros Hvalid Hnan. destruct x as [s|s| |s m e]; try discriminate.
  - destruct s; reflexivity.
  - destruct s; reflexivity.
  - unfold mean_of, sum_loop. simpl fold_left.
    change (f_add (f_of_int 0) (S754_finite s m e)) with (S754_finite s m e).
    apply B64_div_one, Hvalid.
Qed.

(** On fewer than two numbers [standardError] divides zero by zero. *)
Lemma B64_standardError_of_short (data : list spec_float) :
  (length data < 2)%nat -> Forall (fun x => B64.valid x = true) data ->
  standardError_of data = S754_nan.
Proof.
  intros Hlen Hvalid. destruct data as [|x [|y data]]; [reflexivity| |simpl in Hlen; lia].
  apply Forall_inv in Hvalid. unfold standardError_of.
  destruct (B64.is_nan x) eqn:Hnan.
  - destruct x; try discriminate. reflexivity.
  - rewrite (B64_mean_of_single x Hvalid Hnan).
    destruct x as [s|s| |s m e]; try discriminate.
    + destruct s; reflexivity.
    + destruct s; reflexivity.
    + cbn [fold_left f_sub f_add f_pow2 binary64].
      rewrite B64_sub_self. reflexivity.
Qed.

(** *** Rounding to nearest does not cross a representable number *)

(** The number of binary digits of a mantissa. *)
Lemma digits2_pos_bounds (m : positive) :
  2 ^ (Zpos (digits2_pos m) - 1) <= Zpos m < 2 ^ Zpos (digits2_pos m).
Proof.
  induction m as [m IH|m IH|]; cbn [digits2_pos].
  - rewrite Pos2Z.inj_succ.
    replace (Z.succ (Zpos (digits2_pos m)) - 1) with (Z.succ (Zpos (digits2_pos m) - 1)) by lia.
    rewrite !Z.pow_succ_r by lia. lia.
  - rewrite Pos2Z.inj_succ.
    replace (Z.succ (Zpos (digits2_pos m)) - 1) with (Z.succ (Zpos (digits2_pos m) - 1)) by lia.
    rewrite !Z.pow_succ_r by lia. lia.
  - simpl. lia.
Qed.

(** Shifting right by [n] digits divides by [2^n]; the round and sticky
    bits are both clear exactly when nothing is lost. *)
Lemma iter_pos_nat {A} (f : A -> A) (p : positive) (x : A) :
  SpecFloat.iter_pos f p x = Nat.iter (Pos.to_nat p) f x.
Proof.
  revert x. induction p as [p IH|p IH|]; intros x; cbn [SpecFloat.iter_pos].
  - rewrite !IH. rewrite Pos2Nat.inj_xI.
    replace (S (2 * Pos.to_nat p))%nat with (Pos.to_nat p + (Pos.to_nat p + 1))%nat by lia.
    rewrite !Nat.iter_add. simpl. reflexivity.
  - rewrite !IH. rewrite Pos2Nat.inj_xO.
    replace (2 * Pos.to_nat p)%nat with (Pos.to_nat p + Pos.to_nat p)%nat by lia.
    rewrite Nat.iter_add. reflexivity.
  - reflexivity.
Qed.

Lemma shr_1_spec (mrs : shr_record) :
  0 <= shr_m mrs ->
  shr_m (shr_1 mrs) = shr_m mrs / 2 /\
  (shr_exact (shr_1 mrs) = true <-> (shr_exact mrs = true /\ shr_m mrs mod 2 = 0)).
Proof.
  destruct mrs as [m r s]. unfold shr_exact. simpl. intros Hm.
  destruct m as [|[p|p|]|p]; simpl; try lia.
  - split; [reflexivity|]. destruct r, s; simpl; split; intros; try (intuition congruence).
  - split.
    + apply (Z.div_unique _ _ _ 1); lia.
    + rewrite Pos2Z.inj_xI.
      replace ((2 * Zpos p + 1) mod 2) with 1 by (apply (Z.mod_unique _ _ (Zpos p)); lia).
      destruct r, s; simpl; split; intros; intuition congruence.
  - split.
    + apply (Z.div_unique _ _ _ 0); lia.
    + rewrite Pos2Z.inj_xO.
      replace ((2 * Zpos p) mod 2) with 0 by (apply (Z.mod_unique _ _ (Zpos p)); lia).
      destruct r, s; simpl; split; intros; intuition congruence.
  - split; [reflexivity|].
    split; [discriminate|]. intros [_ H1]. discriminate H1.
Qed.

Lemma shr_iter_spec (n : nat) (m : Z) :
  0 <= m ->
  let mrs := Nat.iter n shr_1 (Build_shr_record m false false) in
  shr_m mrs = m / 2 ^ Z.of_nat n /\
  (shr_exact mrs = true <-> m mod 2 ^ Z.of_nat n = 0).
Proof.
  intros Hm. induction n as [|n IH].
  - simpl. rewrite Z.div_1_r, Z.mod_1_r. unfold shr_exact. simpl. tauto.
  - simpl Nat.iter. cbv zeta in *. destruct IH as [IHm IHe].
    set (mrs := Nat.iter n shr_1 _) in *.
    assert (H0 : 0 <= shr_m mrs) by (rewrite IHm; apply Z.div_pos; lia).
    destruct (shr_1_spec mrs H0) as [H1 H2].
    rewrite Nat2Z.inj_succ, Z.pow_succ_r by lia. split.
    + rewrite H1, IHm. rewrite Z.div_div by lia. f_equal. lia.
    + rewrite H2, IHe, IHm.
      assert (Hp : 0 < 2 ^ Z.of_nat n) by (apply Z.pow_pos_nonneg; lia).
      set (P := 2 ^ Z.of_nat n) in *.
      rewrite (Z.mul_comm 2 P). rewrite Z.rem_mul_r by lia.
      pose proof (Z.mod_pos_bound m P Hp). pose proof (Z.mod_pos_bound (m / P) 2 ltac:(lia)).
      split; [intros [-> ->]; lia|intros Hz; nia].
Qed.

Lemma pow2_pos n : 0 <= n -> 0 < 2 ^ n.
Proof. intros. apply Z.pow_pos_nonneg; lia. Qed.

Lemma pow2_split a b : 0 <= a -> 0 <= b -> 2 ^ (a + b) = 2 ^ a * 2 ^ b.
Proof. intros. apply Z.pow_add_r; lia. Qed.

Lemma digits2_pos_unique (m : positive) (n : Z) :
  2 ^ (n - 1) <= Zpos m < 2 ^ n -> Zpos (digits2_pos m) = n.
Proof.
  intros [Hlo Hhi]. pose proof (digits2_pos_bounds m) as [Dlo Dhi].
  set (d := Zpos (digits2_pos m)) in *.
  assert (0 < d) by (subst d; lia).
  assert (0 < n).
  { destruct (Z_lt_le_dec 0 n) as [|Hn]; [assumption|].
    destruct (Z.eq_dec n 0) as [->|Hn0]; [simpl in Hhi; lia|].
    rewrite Z.pow_neg_r in Hhi by lia. lia. }
  destruct (Z.lt_trichotomy d n) as [Hlt|[Heq|Hgt]]; [|exact Heq|].
  - assert (2 ^ d <= 2 ^ (n - 1)) by (apply Z.pow_le_mono_r; lia). lia.
  - assert (2 ^ n <= 2 ^ (d - 1)) by (apply Z.pow_le_mono_r; lia). lia.
Qed.

Lemma bounded_intro m e :
  fexp 53 1024 (Zpos (digits2_pos m) + e) = e -> e <= 971 ->
  bounded 53 1024 m e = true.
Proof.
  intros H1 H2. unfold bounded, canonical_mantissa.
  apply andb_true_intro. split; [apply Z.eqb_eq, H1|apply Z.leb_le; lia].
Qed.

Lemma b64_top_pos : 0 < b64_top.
Proof. unfold b64_top. apply Z.pow_pos_nonneg; lia. Qed.

Lemma pow2_le_top n : n <= 2099 -> 2 ^ n <= b64_top.
Proof. intros Hn. unfold b64_top. apply Z.pow_le_mono_r; lia. Qed.

Lemma top_le_pow2 n : 2099 <= n -> b64_top <= 2 ^ n.
Proof. intros Hn. unfold b64_top. apply Z.pow_le_mono_r; lia. Qed.

Lemma pow2_lt_inv a b : 0 <= a -> 2 ^ a < 2 ^ b -> a < b.
Proof.
  intros Ha Hlt. apply (Z.pow_lt_mono_r_iff 2); try lia.
  destruct (Z_lt_le_dec b 0); [|lia]. rewrite (Z.pow_neg_r 2 b) in Hlt by lia.
  pose proof (pow2_pos a Ha). lia.
Qed.

Lemma top_lt_pow2_inv n : b64_top < 2 ^ n -> 2099 < n.
Proof. unfold b64_top. apply pow2_lt_inv. lia. Qed.

(** The magnitude of a valid number fits its exponent. *)
Lemma mag_upper m e :
  bounded 53 1024 m e = true -> mag m e < 2 ^ (e + 1128).
Proof.
  intros Hb. destruct (B64_bounded_cases m e Hb) as [Hmax Hc].
  pose proof (digits2_pos_bounds m) as [_ Dhi]. unfold mag.
  assert (Zpos m < 2 ^ 53).
  { eapply Z.lt_le_trans; [exact Dhi|]. apply Z.pow_le_mono_r; lia. }
  replace (e + 1128) with (53 + (e + 1075)) by lia.
  rewrite (pow2_split 53 (e + 1075)) by lia. pose proof (pow2_pos (e + 1075) ltac:(lia)). nia.
Qed.

Lemma mag_lower_normal m e :
  bounded 53 1024 m e = true -> -1074 < e -> 2 ^ (e + 1127) <= mag m e.
Proof.
  intros Hb He. destruct (B64_bounded_cases m e Hb) as [Hmax Hc].
  pose proof (digits2_pos_bounds m) as [Dlo _]. unfold mag.
  assert (Hd : Zpos (digits2_pos m) = 53) by lia. rewrite Hd in Dlo.
  replace (e + 1127) with (52 + (e + 1075)) by lia.
  rewrite (pow2_split 52 (e + 1075)) by lia. pose proof (pow2_pos (e + 1075) ltac:(lia)).
  change (53 - 1) with 52 in Dlo. nia.
Qed.

Lemma mag_below_top m e : bounded 53 1024 m e = true -> mag m e < b64_top.
Proof.
  intros Hb. pose proof (mag_upper m e Hb). destruct (B64_bounded_cases m e Hb) as [Hmax Hc].
  pose proof (pow2_le_top (e + 1128) ltac:(lia)). lia.
Qed.

(** A representable number below the (k+53)-digit number [mz * 2^ez] is below
    its truncation to 53 digits; one above it is above the truncation plus
    one. [P] is the weight of the last kept digit. *)
Lemma grid_lower q e' ml el X :
  -1074 < e' -> 2 ^ 52 <= q ->
  bounded 53 1024 ml el = true ->
  X < (q + 1) * 2 ^ (e' + 1075) ->
  mag ml el <= X -> mag ml el <= q * 2 ^ (e' + 1075).
Proof.
  intros He' Hq Hb HX Hlo.
  destruct (B64_bounded_cases ml el Hb) as [Hmax Hc].
  assert (Hel : -1074 <= el) by lia.
  pose proof (pow2_pos (e' + 1075) ltac:(lia)) as HP.
  destruct (Z_lt_le_dec el e') as [Hlt|Hge].
  - pose proof (mag_upper ml el Hb) as Hu.
    assert (2 ^ (el + 1128) <= 2 ^ (52 + (e' + 1075))) by (apply Z.pow_le_mono_r; lia).
    rewrite (pow2_split 52 (e' + 1075)) in H by lia. nia.
  - unfold mag in *. replace (el + 1075) with ((el - e') + (e' + 1075)) in * by lia.
    rewrite (pow2_split (el - e') (e' + 1075)) in * by lia.
    pose proof (pow2_pos (el - e') ltac:(lia)).
    set (u := Zpos ml * 2 ^ (el - e')) in *.
    assert (Hu : Zpos ml * (2 ^ (el - e') * 2 ^ (e' + 1075)) = u * 2 ^ (e' + 1075)) by (subst u; ring).
    rewrite Hu in *. assert (u < q + 1) by nia. nia.
Qed.

Lemma grid_upper q e' mh eh X :
  -1074 < e' -> 2 ^ 52 <= q ->
  bounded 53 1024 mh eh = true ->
  q * 2 ^ (e' + 1075) < X ->
  X <= mag mh eh -> (q + 1) * 2 ^ (e' + 1075) <= mag mh eh.
Proof.
  intros He' Hq Hb HX Hhi.
  destruct (B64_bounded_cases mh eh Hb) as [Hmax Hc].
  assert (Hel : -1074 <= eh) by lia.
  pose proof (pow2_pos (e' + 1075) ltac:(lia)) as HP.
  destruct (Z_lt_le_dec eh e') as [Hlt|Hge].
  - pose proof (mag_upper mh eh Hb) as Hu.
    assert (2 ^ (eh + 1128) <= 2 ^ (52 + (e' + 1075))) by (apply Z.pow_le_mono_r; lia).
    rewrite (pow2_split 52 (e' + 1075)) in H by lia. nia.
  - unfold mag in *. replace (eh + 1075) with ((eh - e') + (e' + 1075)) in * by lia.
    rewrite (pow2_split (eh - e') (e' + 1075)) in * by lia.
    pose proof (pow2_pos (eh - e') ltac:(lia)).
    set (u := Zpos mh * 2 ^ (eh - e')) in *.
    assert (Hu : Zpos mh * (2 ^ (eh - e') * 2 ^ (e' + 1075)) = u * 2 ^ (e' + 1075)) by (subst u; ring).
    rewrite Hu in *. assert (q < u) by nia. nia.
Qed.

(** The two passes of [binary_round_aux] on an exact mantissa. *)
Lemma shr_fexp_exact_nop m e :
  fexp 53 1024 (Zpos (digits2_pos m) + e) = e ->
  shr_fexp 53 1024 (Zpos m) e loc_Exact = (Build_shr_record (Zpos m) false false, e).
Proof.
  intros Hc. unfold shr_fexp.
  change (Zdigits2 (Zpos m)) with (Zpos (digits2_pos m)).
  rewrite Hc. rewrite Z.sub_diag. reflexivity.
Qed.

Lemma shr_fexp_exact_shift m e k :
  fexp 53 1024 (Zpos (digits2_pos m) + e) - e = k -> 0 < k ->
  exists mrs,
    shr_fexp 53 1024 (Zpos m) e loc_Exact = (mrs, e + k) /\
    shr_m mrs = Zpos m / 2 ^ k /\
    (shr_exact mrs = true <-> Zpos m mod 2 ^ k = 0).
Proof.
  intros Hk Hpos. unfold shr_fexp.
  change (Zdigits2 (Zpos m)) with (Zpos (digits2_pos m)).
  rewrite Hk. destruct k as [|p|p]; try lia.
  unfold shr. cbn [shr_record_of_loc]. rewrite iter_pos_nat.
  eexists. split; [reflexivity|].
  pose proof (shr_iter_spec (Pos.to_nat p) (Zpos m) ltac:(lia)) as Hs.
  cbv zeta in Hs. rewrite positive_nat_Z in Hs. exact Hs.
Qed.

Lemma round_nearest_even_cases mrs :
  let m1 := round_nearest_even (shr_m mrs) (loc_of_shr_record mrs) in
  m1 = shr_m mrs \/ (m1 = shr_m mrs + 1 /\ shr_exact mrs = false).
Proof.
  destruct mrs as [m r s]. unfold shr_exact.
  destruct r, s; simpl; try destruct (Z.even m); auto.
Qed.

Lemma second_pass sx m1 e' :
  -1074 < e' -> 2 ^ 52 <= m1 <= 2 ^ 53 ->
  (let '(mrs'', e'') := shr_fexp 53 1024 m1 e' loc_Exact in
   match shr_m mrs'' with
   | 0 => S754_zero sx
   | Zpos m => if e'' <=? 1024 - 53 then S754_finite sx m e'' else S754_infinity sx
   | Zneg _ => S754_nan
   end) = finish sx m1 e'.
Proof.
  intros He' [Hlo Hhi]. unfold finish.
  destruct (m1 <? 2 ^ 53) eqn:E.
  - apply Z.ltb_lt in E. destruct m1 as [|p1|p1]; try (simpl in Hlo; lia).
    assert (Hd : Zpos (digits2_pos p1) = 53) by (apply digits2_pos_unique; simpl; lia).
    rewrite shr_fexp_exact_nop by (rewrite Hd; unfold fexp, emin; lia).
    cbn [shr_m]. change (1024 - 53) with 971. rewrite Pos2Z.id. reflexivity.
  - apply Z.ltb_ge in E. assert (m1 = 9007199254740992) by (change (2 ^ 53) with 9007199254740992 in *; lia).
    subst m1. unfold shr_fexp.
    change (Zdigits2 9007199254740992) with 54.
    replace (fexp 53 1024 (54 + e') - e') with 1 by (unfold fexp, emin; lia).
    reflexivity.
Qed.

Lemma binary_round_aux_nop sx mz ez :
  fexp 53 1024 (Zpos (digits2_pos mz) + ez) = ez ->
  binary_round_aux 53 1024 sx (Zpos mz) ez loc_Exact
  = if ez <=? 971 then S754_finite sx mz ez else S754_infinity sx.
Proof.
  intros Hc. unfold binary_round_aux.
  rewrite (shr_fexp_exact_nop mz ez Hc).
  cbn [shr_m loc_of_shr_record round_nearest_even].
  rewrite (shr_fexp_exact_nop mz ez Hc). reflexivity.
Qed.

Lemma binary_round_aux_shift sx mz ez k :
  -1074 <= ez ->
  fexp 53 1024 (Zpos (digits2_pos mz) + ez) - ez = k -> 0 < k ->
  exists m1,
    (m1 = Zpos mz / 2 ^ k \/ (m1 = Zpos mz / 2 ^ k + 1 /\ Zpos mz mod 2 ^ k <> 0)) /\
    2 ^ 52 <= Zpos mz / 2 ^ k < 2 ^ 53 /\
    binary_round_aux 53 1024 sx (Zpos mz) ez loc_Exact = finish sx m1 (ez + k).
Proof.
  intros Hez Hk Hpos.
  destruct (shr_fexp_exact_shift mz ez k Hk Hpos) as (mrs & Hshr & Hq & Hex).
  assert (Hd : Zpos (digits2_pos mz) = k + 53) by (unfold fexp, emin in Hk; lia).
  pose proof (digits2_pos_bounds mz) as [Dlo Dhi]. rewrite Hd in Dlo, Dhi.
  assert (Hqb : 2 ^ 52 <= Zpos mz / 2 ^ k < 2 ^ 53).
  { pose proof (pow2_pos k ltac:(lia)) as HP.
    replace (k + 53 - 1) with (52 + k) in Dlo by lia.
    replace (k + 53) with (53 + k) in Dhi by lia.
    rewrite pow2_split in Dlo, Dhi by lia. split.
    - apply Z.div_le_lower_bound; lia.
    - apply Z.div_lt_upper_bound; lia. }
  pose proof (round_nearest_even_cases mrs) as Hr. cbv zeta in Hr.
  set (m1 := round_nearest_even (shr_m mrs) (loc_of_shr_record mrs)) in *.
  exists m1. rewrite Hq in Hr. split; [|split; [exact Hqb|]].
  - destruct Hr as [Hr|[Hr Hne]]; [left; exact Hr|right; split; [exact Hr|]].
    intros Hz. apply Hex in Hz. congruence.
  - unfold binary_round_aux. rewrite Hshr. fold m1.
    apply second_pass; [lia|]. destruct Hr as [->|[-> _]]; lia.
Qed.

Lemma finish_spec sx m1 e' :
  -1074 < e' -> 2 ^ 52 <= m1 <= 2 ^ 53 ->
  let R := m1 * 2 ^ (e' + 1075) in
  (R < b64_top /\
   exists m e, finish sx m1 e' = S754_finite sx m e /\
               bounded 53 1024 m e = true /\ mag m e = R) \/
  (b64_top <= R /\ finish sx m1 e' = S754_infinity sx).
Proof.
  intros He' [Hlo Hhi] R. unfold finish.
  pose proof (pow2_pos (e' + 1075) ltac:(lia)) as HP.
  destruct (m1 <? 2 ^ 53) eqn:E.
  - apply Z.ltb_lt in E. destruct m1 as [|p1|p1]; try (simpl in Hlo; lia).
    assert (Hd : Zpos (digits2_pos p1) = 53) by (apply digits2_pos_unique; simpl; lia).
    destruct (e' <=? 971) eqn:E2.
    + apply Z.leb_le in E2. left.
      assert (Hb : bounded 53 1024 p1 e' = true)
        by (apply bounded_intro; [rewrite Hd; unfold fexp, emin; lia|lia]).
      split; [apply (mag_below_top p1 e' Hb)|].
      exists p1, e'. rewrite Pos2Z.id. repeat split. exact Hb.
    + apply Z.leb_gt in E2. right. split; [|reflexivity].
      pose proof (top_le_pow2 (52 + (e' + 1075)) ltac:(lia)) as Htop.
      rewrite (pow2_split 52 (e' + 1075)) in Htop by lia. subst R. nia.
  - apply Z.ltb_ge in E. assert (Hm : m1 = 2 ^ 53) by lia.
    destruct (e' + 1 <=? 971) eqn:E2.
    + apply Z.leb_le in E2. left.
      assert (Hb : bounded 53 1024 4503599627370496 (e' + 1) = true).
      { apply bounded_intro; [|lia].
        change (Zpos (digits2_pos 4503599627370496)) with 53. unfold fexp, emin. lia. }
      assert (HR : mag 4503599627370496 (e' + 1) = R).
      { unfold mag. subst R. rewrite Hm.
        replace (e' + 1 + 1075) with (1 + (e' + 1075)) by lia.
        rewrite (pow2_split 1 (e' + 1075)) by lia.
        change (2 ^ 53) with (4503599627370496 * 2 ^ 1). ring. }
      split; [rewrite <- HR; apply (mag_below_top _ _ Hb)|].
      exists 4503599627370496%positive, (e' + 1). repeat split; assumption.
    + apply Z.leb_gt in E2. right. split; [|reflexivity].
      pose proof (top_le_pow2 (53 + (e' + 1075)) ltac:(lia)) as Htop.
      rewrite (pow2_split 53 (e' + 1075)) in Htop by lia. subst R. nia.
Qed.

(** [binary_round_aux] rounds: the result is the truncation to 53 digits or
    the next number. *)
Lemma round_aux_spec sx mz ez :
  -1074 <= ez -> ez <= fexp 53 1024 (Zpos (digits2_pos mz) + ez) ->
  rounds_to sx (mag mz ez) (binary_round_aux 53 1024 sx (Zpos mz) ez loc_Exact).
Proof.
  intros Hez Hk.
  pose proof (pow2_pos (ez + 1075) ltac:(lia)) as HPz.
  destruct (Z.eq_dec (fexp 53 1024 (Zpos (digits2_pos mz) + ez)) ez) as [Hc|Hne].
  - (* nothing to round *)
    rewrite (binary_round_aux_nop sx mz ez Hc).
    exists (mag mz ez). repeat split; try (intros; assumption).
    assert (Hd : Zpos (digits2_pos mz) <= 53) by (unfold fexp, emin in Hc; lia).
    destruct (ez <=? 971) eqn:E.
    + apply Z.leb_le in E. left.
      assert (Hb : bounded 53 1024 mz ez = true) by (apply bounded_intro; assumption).
      split; [apply (mag_below_top _ _ Hb)|]. exists mz, ez. repeat split. exact Hb.
    + apply Z.leb_gt in E. right. split; [|reflexivity].
      assert (Hd53 : Zpos (digits2_pos mz) = 53) by (unfold fexp, emin in Hc; lia).
      pose proof (digits2_pos_bounds mz) as [Dlo _]. rewrite Hd53 in Dlo.
      change (53 - 1) with 52 in Dlo.
      pose proof (top_le_pow2 (52 + (ez + 1075)) ltac:(lia)) as Htop.
      rewrite (pow2_split 52 (ez + 1075)) in Htop by lia. unfold mag. nia.
  - set (k := fexp 53 1024 (Zpos (digits2_pos mz) + ez) - ez).
    assert (Hpos : 0 < k) by (subst k; lia).
    destruct (binary_round_aux_shift sx mz ez k Hez eq_refl Hpos)
      as (m1 & Hm1 & Hq & ->).
    set (q := Zpos mz / 2 ^ k) in *. set (e' := ez + k) in *.
    pose proof (pow2_pos k ltac:(lia)) as HPk.
    assert (HP : 2 ^ (e' + 1075) = 2 ^ k * 2 ^ (ez + 1075)).
    { subst e'. replace (ez + k + 1075) with (k + (ez + 1075)) by lia.
      apply pow2_split; lia. }
    pose proof (Z.div_mod (Zpos mz) (2 ^ k) ltac:(lia)) as Hdm. fold q in Hdm.
    pose proof (Z.mod_pos_bound (Zpos mz) (2 ^ k) HPk) as Hrem.
    set (rem := Zpos mz mod 2 ^ k) in *.
    assert (HXlo : q * 2 ^ (e' + 1075) <= mag mz ez) by (unfold mag; rewrite HP; nia).
    assert (HXhi : mag mz ez < (q + 1) * 2 ^ (e' + 1075)) by (unfold mag; rewrite HP; nia).
    assert (HXne : rem <> 0 -> q * 2 ^ (e' + 1075) < mag mz ez) by (intros; unfold mag; rewrite HP; nia).
    assert (He' : -1074 < e') by lia.
    pose proof (pow2_pos (e' + 1075) ltac:(lia)) as HPe.
    exists (m1 * 2 ^ (e' + 1075)). split; [|split; [|split]].
    + intros ml el Hb Hle.
      pose proof (grid_lower q e' ml el (mag mz ez) He' ltac:(lia) Hb HXhi Hle).
      destruct Hm1 as [->|[-> _]]; nia.
    + intros mh eh Hb Hle. destruct Hm1 as [->|[-> Hr]]; [lia|].
      apply (grid_upper q e' mh eh (mag mz ez) He' ltac:(lia) Hb (HXne Hr) Hle).
    + intros Hover.
      assert (Hlt : b64_top < 2 ^ (53 + (e' + 1075))).
      { rewrite (pow2_split 53 (e' + 1075)) by lia. nia. }
      apply top_lt_pow2_inv in Hlt.
      pose proof (top_le_pow2 (52 + (e' + 1075)) ltac:(lia)) as Htop.
      rewrite (pow2_split 52 (e' + 1075)) in Htop by lia.
      destruct Hm1 as [->|[-> _]]; nia.
    + apply finish_spec; [exact He'|]. destruct Hm1 as [->|[-> _]]; lia.
Qed.

Lemma iter_xO_value (m d : positive) : Zpos (Pos.iter xO m d) = Zpos m * 2 ^ Zpos d.
Proof.
  rewrite (Pos.iter_swap_gen _ _ Zpos xO (Z.mul 2)) by reflexivity.
  change (Pos.iter (Z.mul 2) (Zpos m) d) with (Z.shiftl (Zpos m) (Zpos d)).
  apply Z.shiftl_mul_pow2. lia.
Qed.

Lemma iter_xO_digits (m d : positive) :
  Zpos (digits2_pos (Pos.iter xO m d)) = Zpos (digits2_pos m) + Zpos d.
Proof.
  apply digits2_pos_unique. rewrite iter_xO_value.
  pose proof (digits2_pos_bounds m) as [Dlo Dhi].
  pose proof (pow2_pos (Zpos d) ltac:(lia)).
  replace (Zpos (digits2_pos m) + Zpos d - 1) with ((Zpos (digits2_pos m) - 1) + Zpos d) by lia.
  rewrite !pow2_split by lia. nia.
Qed.

(** Aligning to a lower exponent keeps the value. *)
Lemma shl_align_spec mx ex t :
  t <= ex ->
  Zpos (fst (shl_align mx ex t)) = Zpos mx * 2 ^ (ex - t) /\
  snd (shl_align mx ex t) = t /\
  Zpos (digits2_pos (fst (shl_align mx ex t))) = Zpos (digits2_pos mx) + (ex - t).
Proof.
  intros Ht. unfold shl_align. destruct (t - ex) as [|p|p] eqn:E; try lia.
  - assert (t = ex) by lia. subst t. rewrite Z.sub_diag. simpl. lia.
  - cbn [fst snd]. rewrite iter_xO_value, iter_xO_digits.
    replace (ex - t) with (Zpos p) by lia. auto.
Qed.

Lemma shl_align_above mx ex t : ex <= t -> shl_align mx ex t = (mx, ex).
Proof. intros Ht. unfold shl_align. destruct (t - ex) eqn:E; try reflexivity; lia. Qed.

Lemma binary_round_spec sx mx ex :
  -1074 <= ex -> rounds_to sx (mag mx ex) (binary_round 53 1024 sx mx ex).
Proof.
  intros Hex. unfold binary_round.
  set (t := fexp 53 1024 (Zpos (digits2_pos mx) + ex)).
  destruct (Z_lt_le_dec t ex) as [Hlt|Hge].
  - destruct (shl_align_spec mx ex t ltac:(lia)) as (Hm & He & Hd).
    destruct (shl_align mx ex t) as [mz ez]. cbn [fst snd] in *. subst ez.
    assert (Hmag : mag mz t = mag mx ex).
    { unfold mag. rewrite Hm. replace (ex + 1075) with ((ex - t) + (t + 1075)) by lia.
      rewrite (pow2_split (ex - t) (t + 1075)); [ring|lia|]. subst t. unfold fexp, emin. lia. }
    rewrite <- Hmag. apply round_aux_spec.
    + subst t. unfold fexp, emin. lia.
    + rewrite Hd. replace (Zpos (digits2_pos mx) + (ex - t) + t) with (Zpos (digits2_pos mx) + ex) by lia.
      fold t. lia.
  - rewrite shl_align_above by lia. apply round_aux_spec; [lia|]. fold t. lia.
Qed.

Lemma mag_pos m e : -1075 <= e -> 0 < mag m e.
Proof. intros. unfold mag. pose proof (pow2_pos (e + 1075) ltac:(lia)). nia. Qed.

Lemma valid_exponent m e : bounded 53 1024 m e = true -> -1074 <= e <= 971.
Proof. intros Hb. destruct (B64_bounded_cases m e Hb). lia. Qed.

(** The sum of two finite numbers is a rounding of the exact sum. *)
Lemma add_finite_spec sa ma ea sb mb eb :
  bounded 53 1024 ma ea = true -> bounded 53 1024 mb eb = true ->
  rounds_signed (Zval (S754_finite sa ma ea) + Zval (S754_finite sb mb eb))
                (SFadd 53 1024 (S754_finite sa ma ea) (S754_finite sb mb eb)).
Proof.
  intros Ha Hb. pose proof (valid_exponent _ _ Ha). pose proof (valid_exponent _ _ Hb).
  unfold SFadd. set (ez := Z.min ea eb).
  destruct (shl_align_spec ma ea ez ltac:(subst ez; lia)) as (Hma & _ & _).
  destruct (shl_align_spec mb eb ez ltac:(subst ez; lia)) as (Hmb & _ & _).
  set (M := cond_Zopp sa (Zpos (fst (shl_align ma ea ez))) +
            cond_Zopp sb (Zpos (fst (shl_align mb eb ez)))).
  assert (Hez : -1074 <= ez) by (subst ez; lia).
  pose proof (pow2_pos (ez + 1075) ltac:(lia)) as HP.
  assert (HV : Zval (S754_finite sa ma ea) + Zval (S754_finite sb mb eb)
               = M * 2 ^ (ez + 1075)).
  { subst M. rewrite Hma, Hmb. unfold Zval, mag.
    replace (ea + 1075) with ((ea - ez) + (ez + 1075)) by lia.
    replace (eb + 1075) with ((eb - ez) + (ez + 1075)) by lia.
    rewrite (pow2_split (ea - ez)), (pow2_split (eb - ez)) by (subst ez; lia).
    destruct sa, sb; simpl; ring. }
  rewrite HV. unfold binary_normalize. destruct M as [|p|p].
  - split; [reflexivity|]. split; lia.
  - split; [lia|]. split; [|lia]. intros _.
    change (Zpos p * 2 ^ (ez + 1075)) with (mag p ez). apply binary_round_spec, Hez.
  - split; [lia|]. split; [lia|]. intros _.
    replace (- (Zneg p * 2 ^ (ez + 1075))) with (mag p ez) by (unfold mag; lia).
    apply binary_round_spec, Hez.
Qed.

Lemma Zval_bound x : B64.valid x = true -> - b64_top < Zval x < b64_top.
Proof.
  pose proof b64_top_pos as Htop.
  destruct x as [s|s| |s m e]; simpl; try lia. intros Hb.
  pose proof (mag_below_top m e Hb). pose proof (valid_exponent m e Hb).
  pose proof (mag_pos m e ltac:(lia)). destruct s; simpl; lia.
Qed.

Lemma rounding_of_exact r : B64.valid r = true -> is_fin r = true -> rounding_of (Zval r) r.
Proof.
  intros Hv Hf. pose proof (Zval_bound r Hv). split; [|split].
  - intros _. split; [exact Hv|]. split; intros; assumption.
  - lia.
  - lia.
Qed.

Lemma rounds_signed_rounding_of V r : rounds_signed V r -> rounding_of V r.
Proof.
  intros (H0 & Hp & Hn). pose proof b64_top_pos as Htop.
  destruct (Z.lt_trichotomy V 0) as [Hlt|[Heq|Hgt]].
  - destruct (Hn Hlt) as (R & HL & HU & HO & Hres).
    split; [|split].
    + intros Hf. destruct Hres as [(HR & m & e & -> & Hb & Hmag)|[_ ->]]; [|discriminate].
      split; [exact Hb|]. pose proof (valid_exponent m e Hb).
      pose proof (mag_pos m e ltac:(lia)). split.
      * intros lo Hv Hfl Hle. destruct lo as [sl|sl| |sl ml el]; try discriminate; simpl in *; try lia.
        pose proof (valid_exponent ml el Hv). pose proof (mag_pos ml el ltac:(lia)).
        destruct sl; simpl in *; [|lia].
        pose proof (HU ml el Hv ltac:(lia)). lia.
      * intros hi Hv Hfh Hle. simpl. destruct hi as [sh|sh| |sh mh eh]; try discriminate; simpl in *; try lia.
        pose proof (valid_exponent mh eh Hv). pose proof (mag_pos mh eh ltac:(lia)).
        destruct sh; simpl in *; [|lia].
        pose proof (HL mh eh Hv ltac:(lia)). lia.
    + lia.
    + intros Hov. destruct Hres as [(HR & _)|[_ ->]]; [|reflexivity].
      pose proof (HO ltac:(lia)). lia.
  - subst V. rewrite (H0 eq_refl). split; [|split]; try (simpl; lia).
    intros _. split; [reflexivity|]. simpl. split; intros; assumption.
  - destruct (Hp Hgt) as (R & HL & HU & HO & Hres).
    split; [|split].
    + intros Hf. destruct Hres as [(HR & m & e & -> & Hb & Hmag)|[_ ->]]; [|discriminate].
      split; [exact Hb|]. pose proof (valid_exponent m e Hb).
      pose proof (mag_pos m e ltac:(lia)). split.
      * intros lo Hv Hfl Hle. destruct lo as [sl|sl| |sl ml el]; try discriminate; simpl in *; try lia.
        pose proof (valid_exponent ml el Hv). pose proof (mag_pos ml el ltac:(lia)).
        destruct sl; simpl in *; [lia|].
        pose proof (HL ml el Hv ltac:(lia)). lia.
      * intros hi Hv Hfh Hle. simpl. destruct hi as [sh|sh| |sh mh eh]; try discriminate; simpl in *; try lia.
        pose proof (valid_exponent mh eh Hv). pose proof (mag_pos mh eh ltac:(lia)).
        destruct sh; simpl in *; [lia|].
        pose proof (HU mh eh Hv ltac:(lia)). lia.
    + intros Hov. destruct Hres as [(HR & _)|[_ ->]]; [|reflexivity].
      pose proof (HO Hov). lia.
    + lia.
Qed.

Lemma add_spec a b :
  B64.valid a = true -> B64.valid b = true -> is_fin a = true -> is_fin b = true ->
  rounding_of (Zval a + Zval b) (SFadd 53 1024 a b).
Proof.
  intros Ha Hb Hfa Hfb.
  destruct a as [sa|sa| |sa ma ea], b as [sb|sb| |sb mb eb]; try discriminate.
  - replace (SFadd 53 1024 (S754_zero sa) (S754_zero sb))
      with (S754_zero (if Bool.eqb sa sb then sa else false))
      by (destruct sa, sb; reflexivity).
    apply (rounding_of_exact (S754_zero _)); reflexivity.
  - change (SFadd 53 1024 (S754_zero sa) (S754_finite sb mb eb)) with (S754_finite sb mb eb).
    simpl Zval at 1. rewrite Z.add_0_l. apply rounding_of_exact; assumption.
  - change (SFadd 53 1024 (S754_finite sa ma ea) (S754_zero sb)) with (S754_finite sa ma ea).
    simpl Zval at 2. rewrite Z.add_0_r. apply rounding_of_exact; assumption.
  - apply rounds_signed_rounding_of, add_finite_spec; assumption.
Qed.

Lemma digits2_pos_le (m : positive) (n : Z) :
  Zpos m < 2 ^ n -> Zpos (digits2_pos m) <= n.
Proof.
  intros Hm. pose proof (digits2_pos_bounds m) as [Dlo _].
  destruct (Z_le_gt_dec (Zpos (digits2_pos m)) n) as [|Hgt]; [assumption|].
  assert (0 <= n).
  { destruct (Z_lt_le_dec n 0); [|assumption]. rewrite Z.pow_neg_r in Hm by lia. lia. }
  assert (2 ^ n <= 2 ^ (Zpos (digits2_pos m) - 1)) by (apply Z.pow_le_mono_r; lia). lia.
Qed.

Lemma bounded_subnormal (m : positive) :
  Zpos m < 2 ^ 53 -> bounded 53 1024 m (-1074) = true.
Proof.
  intros Hm. apply bounded_intro; [|lia].
  pose proof (digits2_pos_le m 53 Hm). unfold fexp, emin. lia.
Qed.

(** Halving a number above the smallest exponent is exact. *)
Lemma div_two_normal sx ms es :
  bounded 53 1024 ms es = true -> -1074 < es ->
  SFdiv 53 1024 (S754_finite sx ms es) b64_two = S754_finite sx ms (es - 1) /\
  bounded 53 1024 ms (es - 1) = true.
Proof.
  intros Hb Hes. destruct (B64_bounded_cases ms es Hb) as [Hmax Hc].
  assert (Hd : Zpos (digits2_pos ms) = 53) by lia.
  assert (Hb1 : bounded 53 1024 ms (es - 1) = true)
    by (apply bounded_intro; [rewrite Hd; unfold fexp, emin; lia|lia]).
  split; [|exact Hb1].
  unfold b64_two, SFdiv, SFdiv_core_binary. rewrite xorb_false_r.
  change (Zdigits2 (Zpos ms)) with (Zpos (digits2_pos ms)).
  change (Zdigits2 4503599627370496) with 53. rewrite Hd.
  destruct (Z_le_gt_dec (-1072) es) as [Hbig|Hsmall].
  - replace (Z.min (fexp 53 1024 (53 + es - (53 + -51))) (es - -51))
      with (es - 1 - 1) by (unfold fexp, emin; lia).
    replace (es - -51 - (es - 1 - 1)) with 53 by lia.
    rewrite div_eucl_pair. rewrite Z.shiftl_mul_pow2 by lia.
    replace (Zpos ms * 2 ^ 53) with (Zpos ms~0 * 4503599627370496)
      by (rewrite Pos2Z.inj_xO; change (2 ^ 53) with (2 * 4503599627370496); ring).
    rewrite Z.div_mul by lia. rewrite Z.mod_mul by lia.
    change (new_location 4503599627370496 0) with loc_Exact.
    apply B64_round_doubled, Hb1.
  - assert (es = -1073) by lia. subst es.
    change (Z.min (fexp 53 1024 (53 + -1073 - (53 + -51))) (-1073 - -51)) with (-1074).
    change (-1073 - -51 - -1074) with 52.
    rewrite div_eucl_pair. rewrite Z.shiftl_mul_pow2 by lia.
    change (2 ^ 52) with 4503599627370496.
    rewrite Z.div_mul by lia. rewrite Z.mod_mul by lia.
    change (new_location 4503599627370496 0) with loc_Exact.
    apply B64_round_canonical, Hb1.
Qed.

(** A tie at the smallest exponent goes to the even neighbour. *)
Lemma round_aux_tie sx (p : positive) :
  Zpos p < 2 ^ 52 ->
  exists m1,
    (Zpos m1 = Zpos p \/ Zpos m1 = Zpos p + 1) /\
    binary_round_aux 53 1024 sx (Zpos p) (-1074) (loc_Inexact Eq)
    = S754_finite sx m1 (-1074) /\
    bounded 53 1024 m1 (-1074) = true.
Proof.
  intros Hp.
  assert (Hfe : forall m : positive, Zpos m < 2 ^ 53 ->
            fexp 53 1024 (Zpos (digits2_pos m) + -1074) - -1074 = 0).
  { intros m Hm. pose proof (digits2_pos_le m 53 Hm). unfold fexp, emin. lia. }
  unfold binary_round_aux, shr_fexp.
  change (Zdigits2 (Zpos p)) with (Zpos (digits2_pos p)).
  rewrite (Hfe p) by (change (2 ^ 53) with (2 * 2 ^ 52); lia).
  cbn [shr shr_record_of_loc shr_m loc_of_shr_record round_nearest_even].
  set (m1 := if Z.even (Zpos p) then Zpos p else Zpos p + 1).
  assert (Hm1 : m1 = Zpos p \/ m1 = Zpos p + 1) by (subst m1; destruct (Z.even _); auto).
  assert (Hpos : exists q1, m1 = Zpos q1).
  { destruct Hm1 as [->| ->]; [exists p; reflexivity|exists (p + 1)%positive; lia]. }
  destruct Hpos as [q1 Hq1]. clearbody m1. subst m1.
  assert (Hq53 : Zpos q1 < 2 ^ 53) by (change (2 ^ 53) with (2 * 2 ^ 52); lia).
  change (Zdigits2 (Zpos q1)) with (Zpos (digits2_pos q1)).
  rewrite (Hfe q1 Hq53). cbn [shr shr_m].
  exists q1. split; [exact Hm1|]. split; [reflexivity|apply bounded_subnormal, Hq53].
Qed.

Lemma mag_emin m : mag m (-1074) = 2 * Zpos m.
Proof. unfold mag. change (2 ^ (-1074 + 1075)) with 2. lia. Qed.

(** Halving is exact, or a tie between two neighbours at the smallest
    exponent. *)
Lemma half_spec s :
  B64.valid s = true -> is_fin s = true ->
  let v := SFdiv 53 1024 s b64_two in
  B64.valid v = true /\ is_fin v = true /\
  (2 * Zval v = Zval s \/
   exists j, Zval s = 4 * j + 2 /\ (Zval v = 2 * j \/ Zval v = 2 * j + 2)).
Proof.
  intros Hv Hf v. subst v. destruct s as [sx|sx| |sx ms es]; try discriminate.
  - simpl. auto.
  - simpl in Hv. destruct (Z_lt_le_dec (-1074) es) as [Hes|Hes].
    + destruct (div_two_normal sx ms es Hv Hes) as [-> Hb1].
      split; [exact Hb1|]. split; [reflexivity|]. left.
      unfold Zval, mag. replace (es + 1075) with (1 + (es - 1 + 1075)) by lia.
      rewrite (pow2_split 1 (es - 1 + 1075)) by lia.
      destruct sx; simpl cond_Zopp; change (2 ^ 1) with 2; lia.
    + pose proof (valid_exponent ms es Hv). assert (es = -1074) by lia. subst es.
      pose proof (mag_upper ms (-1074) Hv) as Hu. rewrite mag_emin in Hu.
      change (2 ^ (-1074 + 1128)) with (2 * 2 ^ 53) in Hu.
      assert (Hfe : Z.min (fexp 53 1024 (Zpos (digits2_pos ms) + -1074 - (53 + -51)))
                          (-1074 - -51) = -1074).
      { pose proof (digits2_pos_le ms 53 ltac:(lia)). unfold fexp, emin. lia. }
      unfold b64_two, SFdiv, SFdiv_core_binary. rewrite xorb_false_r.
      change (Zdigits2 (Zpos ms)) with (Zpos (digits2_pos ms)).
      change (Zdigits2 4503599627370496) with 53. rewrite Hfe.
      change (-1074 - -51 - -1074) with 51.
      rewrite div_eucl_pair. rewrite Z.shiftl_mul_pow2 by lia.
      destruct ms as [p|p|].
      * (* odd: a tie *)
        assert (Hq : Zpos p~1 * 2 ^ 51 / 4503599627370496 = Zpos p).
        { symmetry. apply (Z.div_unique _ _ _ (2 ^ 51)); [simpl; lia|].
          rewrite Pos2Z.inj_xI. change 4503599627370496 with (2 * 2 ^ 51). ring. }
        assert (Hr : Zpos p~1 * 2 ^ 51 mod 4503599627370496 = 2 ^ 51).
        { symmetry. apply (Z.mod_unique _ _ (Zpos p)); [simpl; lia|].
          rewrite Pos2Z.inj_xI. change 4503599627370496 with (2 * 2 ^ 51). ring. }
        rewrite Hq, Hr.
        change (new_location 4503599627370496 (2 ^ 51)) with (loc_Inexact Eq).
        destruct (round_aux_tie sx p ltac:(change (2 ^ 53) with (2 * 2 ^ 52) in Hu; lia))
          as (m1 & Hm1 & -> & Hb1).
        split; [exact Hb1|]. split; [reflexivity|]. right.
        unfold Zval. rewrite !mag_emin.
        destruct sx; simpl cond_Zopp.
        -- exists (- Zpos p - 1). lia.
        -- exists (Zpos p). lia.
      * (* even: exact *)
        assert (Hq : Zpos p~0 * 2 ^ 51 / 4503599627370496 = Zpos p).
        { symmetry. apply (Z.div_unique _ _ _ 0); [simpl; lia|].
          rewrite Pos2Z.inj_xO. change 4503599627370496 with (2 * 2 ^ 51). ring. }
        assert (Hr : Zpos p~0 * 2 ^ 51 mod 4503599627370496 = 0).
        { symmetry. apply (Z.mod_unique _ _ (Zpos p)); [simpl; lia|].
          rewrite Pos2Z.inj_xO. change 4503599627370496 with (2 * 2 ^ 51). ring. }
        rewrite Hq, Hr.
        change (new_location 4503599627370496 0) with loc_Exact.
        assert (Hb1 : bounded 53 1024 p (-1074) = true) by (apply bounded_subnormal; lia).
        rewrite (B64_round_canonical sx p (-1074) Hb1).
        split; [exact Hb1|]. split; [reflexivity|]. left.
        unfold Zval. rewrite !mag_emin. destruct sx; simpl cond_Zopp; lia.
      * (* the smallest number: a tie, to zero *)
        split; [reflexivity|]. split; [reflexivity|]. right.
        destruct sx; simpl.
        -- exists (-1). change (mag 1 (-1074)) with 2. lia.
        -- exists 0. change (mag 1 (-1074)) with 2. lia.
Qed.

(** The order of [sort.Float64s] on finite numbers is the order of their
    values. *)
Lemma mag_lt_iff my ey mx ex :
  bounded 53 1024 my ey = true -> bounded 53 1024 mx ex = true ->
  (mag my ey < mag mx ex <-> ey < ex \/ (ey = ex /\ Zpos my < Zpos mx)).
Proof.
  intros Hy Hx.
  pose proof (valid_exponent _ _ Hy). pose proof (valid_exponent _ _ Hx).
  assert (Hstep : forall m1 e1 m2 e2,
            bounded 53 1024 m1 e1 = true -> bounded 53 1024 m2 e2 = true ->
            e1 < e2 -> mag m1 e1 < mag m2 e2).
  { intros m1 e1 m2 e2 H1 H2 Hlt.
    pose proof (valid_exponent _ _ H1). pose proof (valid_exponent _ _ H2).
    pose proof (mag_upper m1 e1 H1). pose proof (mag_lower_normal m2 e2 H2 ltac:(lia)).
    assert (2 ^ (e1 + 1128) <= 2 ^ (e2 + 1127)) by (apply Z.pow_le_mono_r; lia). lia. }
  pose proof (pow2_pos (ex + 1075) ltac:(lia)) as HP.
  split.
  - intros Hlt. destruct (Z.lt_trichotomy ey ex) as [|[Heq|Hgt]]; [auto| |].
    + right. split; [exact Heq|]. subst ey. unfold mag in Hlt. nia.
    + pose proof (Hstep mx ex my ey Hx Hy Hgt). lia.
  - intros [Hlt|[-> Hlt]]; [apply Hstep; assumption|]. unfold mag. nia.
Qed.

Lemma less_Zval x y :
  B64.valid x = true -> B64.valid y = true -> is_fin x = true -> is_fin y = true ->
  (B64.less y x = true <-> Zval y < Zval x).
Proof.
  intros Hx Hy Hfx Hfy. rewrite B64_less_rank.
  destruct x as [sx|sx| |sx mx ex], y as [sy|sy| |sy my ey]; try discriminate;
    simpl in Hx, Hy.
  - simpl. lia.
  - pose proof (valid_exponent _ _ Hy). pose proof (mag_pos my ey ltac:(lia)).
    destruct sy; simpl; lia.
  - pose proof (valid_exponent _ _ Hx). pose proof (mag_pos mx ex ltac:(lia)).
    destruct sx; simpl; lia.
  - pose proof (valid_exponent _ _ Hx). pose proof (mag_pos mx ex ltac:(lia)).
    pose proof (valid_exponent _ _ Hy). pose proof (mag_pos my ey ltac:(lia)).
    pose proof (mag_lt_iff my ey mx ex Hy Hx). pose proof (mag_lt_iff mx ex my ey Hx Hy).
    destruct sx, sy; simpl; lia.
Qed.

Lemma not_less_Zval x y :
  B64.valid x = true -> B64.valid y = true -> is_fin x = true -> is_fin y = true ->
  (B64.less y x = false <-> Zval x <= Zval y).
Proof.
  intros Hx Hy Hfx Hfy. pose proof (less_Zval x y Hx Hy Hfx Hfy).
  destruct (B64.less y x); split; intros; try discriminate; try reflexivity; intuition lia.
Qed.

(** The double of a number is a number, unless it is beyond the range. *)
Lemma twice_repr a :
  B64.valid a = true -> is_fin a = true ->
  (exists t, B64.valid t = true /\ is_fin t = true /\ Zval t = 2 * Zval a) \/
  b64_top <= 2 * Z.abs (Zval a).
Proof.
  intros Hv Hf. destruct a as [s|s| |s m e]; try discriminate.
  - left. exists (S754_zero s). auto.
  - simpl in Hv. destruct (B64_bounded_cases m e Hv) as [Hmax [[Hd He]|[Hd He]]].
    + destruct (Z_lt_le_dec e 971) as [Hlt|Hge].
      * left. exists (S754_finite s m (e + 1)). split; [|split; [reflexivity|]].
        -- apply bounded_intro; [rewrite Hd; unfold fexp, emin; lia|lia].
        -- unfold Zval, mag. replace (e + 1 + 1075) with (1 + (e + 1075)) by lia.
           rewrite (pow2_split 1 (e + 1075)) by lia. change (2 ^ 1) with 2.
           destruct s; simpl; lia.
      * right. pose proof (mag_lower_normal m e Hv ltac:(lia)) as Hl.
        pose proof (top_le_pow2 (1 + (e + 1127)) ltac:(lia)) as Htop.
        rewrite (pow2_split 1 (e + 1127)) in Htop by lia.
        change (2 ^ 1) with 2 in Htop. unfold Zval.
        destruct s; simpl; lia.
    + left. subst e. exists (S754_finite s m~0 (-1074)).
      pose proof (digits2_pos_bounds m) as [_ Dhi].
      assert (Zpos m < 2 ^ 52).
      { eapply Z.lt_le_trans; [exact Dhi|]. apply Z.pow_le_mono_r; lia. }
      split; [|split; [reflexivity|]].
      * apply bounded_subnormal. rewrite Pos2Z.inj_xO. change (2 ^ 53) with (2 * 2 ^ 52). lia.
      * unfold Zval. rewrite !mag_emin. rewrite Pos2Z.inj_xO. destruct s; simpl; lia.
Qed.

(** the average of b64_two numbers, as [(a + b) / 2.0] computes it, lies between
    them unless the sum overflows *)
Lemma B64_average_between a b :
  B64.valid a = true -> B64.valid b = true -> is_fin a = true -> is_fin b = true ->
  Zval a <= Zval b ->
  is_fin (SFadd 53 1024 a b) = true ->
  let v := SFdiv 53 1024 (SFadd 53 1024 a b) b64_two in
  B64.valid v = true /\ is_fin v = true /\ Zval a <= Zval v <= Zval b.
Proof.
  intros Ha Hb Hfa Hfb Hab Hfs v.
  destruct (add_spec a b Ha Hb Hfa Hfb) as (Hfin & Hovp & Hovn).
  destruct (Hfin Hfs) as (Hvs & HL & HU).
  set (s := SFadd 53 1024 a b) in *.
  pose proof (Zval_bound s Hvs) as Hsb.
  assert (Hlow : 2 * Zval a <= Zval s).
  { destruct (twice_repr a Ha Hfa) as [(t & Ht & Hft & Hvt)|Hbig].
    - rewrite <- Hvt. apply HL; [assumption|assumption|lia].
    - destruct (Z_lt_le_dec (Zval a) 0) as [Hneg|Hpos]; [lia|].
      assert (Hov : is_fin s = false) by (apply Hovp; lia). congruence. }
  assert (Hupp : Zval s <= 2 * Zval b).
  { destruct (twice_repr b Hb Hfb) as [(t & Ht & Hft & Hvt)|Hbig].
    - rewrite <- Hvt. apply HU; [assumption|assumption|lia].
    - destruct (Z_lt_le_dec 0 (Zval b)) as [Hpos|Hneg]; [lia|].
      assert (Hov : is_fin s = false) by (apply Hovn; lia). congruence. }
  destruct (half_spec s Hvs Hfs) as (Hvv & Hfv & Hhalf). fold v in Hvv, Hfv, Hhalf.
  split; [exact Hvv|]. split; [exact Hfv|].
  assert (Heven : forall x, B64.valid x = true -> is_fin x = true -> exists u, Zval x = 2 * u).
  { intros x Hx Hfx. destruct x as [sx|sx| |sx mx ex]; try discriminate.
    - exists 0. reflexivity.
    - simpl in Hx. pose proof (valid_exponent _ _ Hx).
      exists (cond_Zopp sx (Zpos mx * 2 ^ (ex + 1074))). unfold Zval, mag.
      replace (ex + 1075) with (1 + (ex + 1074)) by lia.
      rewrite (pow2_split 1 (ex + 1074)) by lia. change (2 ^ 1) with 2.
      destruct sx; simpl; lia. }
  destruct (Heven a Ha Hfa) as [ua Hua]. destruct (Heven b Hb Hfb) as [ub Hub].
  destruct Hhalf as [Hex|(j & Hs & Hv)]; lia.
Qed.

Lemma StronglySorted_nth {A} (R : A -> A -> Prop) (l : list A) (d : A) :
  StronglySorted R l ->
  forall i j, (i < j < length l)%nat -> R (nth i l d) (nth j l d).
Proof.
  induction 1 as [|x l Hl IH Hx]; intros i j Hij; [simpl in Hij; lia|].
  destruct j as [|j]; [lia|]. destruct i as [|i]; simpl.
  - rewrite Forall_forall in Hx. apply Hx, list_elem_of_In, nth_In.
    simpl in Hij. lia.
  - apply IH. simpl in Hij. lia.
Qed.

(** In binary64 the middle of an ascending sequence of finite numbers lies
    between the first and the last, unless the sum of the two middle
    elements overflows. *)
Lemma B64_middle_between (sorted : list spec_float) :
  sorted <> [] -> ascending sorted ->
  Forall (fun x => B64.valid x = true /\ is_fin x = true) sorted ->
  (Nat.even (length sorted) = true ->
   is_fin (B64.add (nth (length sorted / 2 - 1) sorted (f_of_int 0))
                   (nth (length sorted / 2) sorted (f_of_int 0))) = true) ->
  exists a b, In a sorted /\ In b sorted /\
    f_le a (middle_of_sorted sorted) /\ f_le (middle_of_sorted sorted) b.
Proof.
  intros Hne Hasc Hall Hsum. unfold middle_of_sorted.
  set (n := length sorted) in *.
  assert (Hn : (0 < n)%nat) by (subst n; destruct sorted; [congruence|simpl; lia]).
  assert (Hhalf : (n / 2 < n)%nat) by (apply Nat.div_lt; lia).
  rewrite Forall_forall in Hall.
  destruct (Nat.even n) eqn:E.
  - assert (Hn2 : (1 <= n / 2)%nat).
    { apply Nat.even_spec in E as [k Hk]. rewrite Hk.
      rewrite Nat.mul_comm, Nat.div_mul by lia. lia. }
    set (a := nth (n / 2 - 1) sorted (f_of_int 0)) in *.
    set (b := nth (n / 2) sorted (f_of_int 0)) in *.
    assert (Ha : In a sorted) by (apply nth_In; fold n; lia).
    assert (Hb : In b sorted) by (apply nth_In; exact Hhalf).
    destruct (Hall a (proj2 (list_elem_of_In _ _) Ha)) as [Hva Hfa].
    destruct (Hall b (proj2 (list_elem_of_In _ _) Hb)) as [Hvb Hfb].
    assert (Hab : f_le a b).
    { apply (StronglySorted_nth f_le sorted (f_of_int 0) Hasc). fold n. lia. }
    apply (not_less_Zval a b Hva Hvb Hfa Hfb) in Hab.
    destruct (B64_average_between a b Hva Hvb Hfa Hfb Hab (Hsum eq_refl))
      as (Hvv & Hfv & Hlo & Hhi).
    exists a, b. split; [exact Ha|]. split; [exact Hb|]. split.
    + apply (not_less_Zval a _ Hva Hvv Hfa Hfv). exact Hlo.
    + apply (not_less_Zval _ b Hvv Hvb Hfv Hfb). exact Hhi.
  - set (v := nth (n / 2) sorted (f_of_int 0)).
    assert (Hv : In v sorted) by (apply nth_In; exact Hhalf).
    exists v, v. repeat split; try exact Hv; apply f_le_refl.
Qed.

(** ** Ascending rearrangements of the same elements *)

Section Count.
Context {F : Type} {arith : Float64 F} {order : LessOrder F}.

Lemma filter_length_Permutation (f : F -> bool) (l1 l2 : list F) :
  Permutation l1 l2 -> length (List.filter f l1) = length (List.filter f l2).
Proof.
  induction 1 as [|x l1 l2 _ IH|x y l|l1 l2 l3 _ IH1 _ IH2]; simpl.
  - reflexivity.
  - destruct (f x); simpl; congruence.
  - destruct (f x), (f y); reflexivity.
  - congruence.
Qed.

Lemma filter_length_le (f g : F -> bool) (l : list F) :
  (forall x, In x l -> f x = true -> g x = true) ->
  (length (List.filter f l) <= length (List.filter g l))%nat.
Proof.
  induction l as [|x l IH]; intros Hfg; simpl; [lia|].
  assert (IH' := IH (fun y Hy => Hfg y (or_intror Hy))).
  destruct (f x) eqn:Ef.
  - rewrite (Hfg x (or_introl eq_refl) Ef). simpl. lia.
  - destruct (g x); simpl; lia.
Qed.

Lemma filter_none (f : F -> bool) (l : list F) :
  (forall x, In x l -> f x = false) -> List.filter f l = [].
Proof.
  induction l as [|x l IH]; intros Hf; simpl; [reflexivity|].
  rewrite (Hf x (or_introl eq_refl)). apply IH. intros y Hy. apply Hf. right. exact Hy.
Qed.

(** In an ascending sequence the elements less than the one at [i] are
    among the first [i]. *)
Lemma ascending_count_less (l : list F) d i :
  ascending l -> (i < length l)%nat ->
  (length (List.filter (fun y => f_less y (nth i l d)) l) <= i)%nat.
Proof.
  intros Hasc. revert i.
  induction Hasc as [|x l Hl IH Hx]; intros i Hi; [simpl in Hi; lia|].
  destruct i as [|i].
  - rewrite filter_none; [simpl; lia|]. cbn [nth]. intros y [<-|Hy].
    + apply f_le_refl.
    + rewrite Forall_forall in Hx. apply Hx, list_elem_of_In, Hy.
  - cbn [nth List.filter]. simpl in Hi. specialize (IH i ltac:(lia)).
    destruct (f_less x (nth i l d)); simpl; lia.
Qed.

(** And the first [i + 1] are not after it. *)
Lemma ascending_count_le (l : list F) d i :
  ascending l -> (i < length l)%nat ->
  (i < length (List.filter (fun y => negb (f_less (nth i l d) y)) l))%nat.
Proof.
  intros Hasc. revert i.
  induction Hasc as [|x l Hl IH Hx]; intros i Hi; [simpl in Hi; lia|].
  destruct i as [|i].
  - cbn [nth List.filter]. rewrite (f_le_refl x). simpl. lia.
  - cbn [nth List.filter]. simpl in Hi. specialize (IH i ltac:(lia)).
    assert (Hxa : f_le x (nth i l d)).
    { rewrite Forall_forall in Hx. apply Hx, list_elem_of_In, nth_In. lia. }
    unfold f_le in Hxa. rewrite Hxa. simpl. lia.
Qed.

Lemma f_le_less_trans (y a b : F) : f_le y a -> f_less a b = true -> f_less y b = true.
Proof.
  intros Hya Hab. destruct (f_less y b) eqn:E; [reflexivity|].
  assert (Hba : f_le b a) by (apply (le_trans b y a); assumption).
  unfold f_le in Hba. congruence.
Qed.

Lemma ascending_Permutation_nth_le (l1 l2 : list F) d i :
  Permutation l1 l2 -> ascending l1 -> ascending l2 -> (i < length l1)%nat ->
  f_le (nth i l2 d) (nth i l1 d).
Proof.
  intros Hperm H1 H2 Hi. unfold f_le.
  destruct (f_less (nth i l1 d) (nth i l2 d)) eqn:E; [|reflexivity].
  pose proof (ascending_count_le l1 d i H1 Hi) as Hlow.
  rewrite (filter_length_Permutation _ l1 l2 Hperm) in Hlow.
  assert (Hi2 : (i < length l2)%nat) by (rewrite <- (Permutation_length Hperm); exact Hi).
  pose proof (ascending_count_less l2 d i H2 Hi2) as Hupp.
  pose proof (filter_length_le (fun y => negb (f_less (nth i l1 d) y))
                               (fun y => f_less y (nth i l2 d)) l2) as Hmono.
  assert (Hle : (length (List.filter (fun y => negb (f_less (nth i l1 d) y)) l2)
                 <= length (List.filter (fun y => f_less y (nth i l2 d)) l2))%nat).
  { apply Hmono. intros y _ Hy. apply negb_true_iff in Hy.
    apply (f_le_less_trans y (nth i l1 d)); [exact Hy|exact E]. }
  lia.
Qed.

(** Two ascending rearrangements of the same elements hold, at every
    index, elements that the order does not tell apart. *)
Lemma ascending_Permutation_nth (l1 l2 : list F) d i :
  Permutation l1 l2 -> ascending l1 -> ascending l2 -> (i < length l1)%nat ->
  f_le (nth i l1 d) (nth i l2 d) /\ f_le (nth i l2 d) (nth i l1 d).
Proof.
  intros Hperm H1 H2 Hi. split.
  - apply ascending_Permutation_nth_le; [symmetry; exact Hperm|assumption|assumption|].
    rewrite <- (Permutation_length Hperm). exact Hi.
  - apply ascending_Permutation_nth_le; assumption.
Qed.

End Count.

(** ** binary64: what the order does not tell apart, and the average *)

Lemma B64_same_place (x y : spec_float) :
  f_le x y -> f_le y x -> same_number x y.
Proof.
  unfold f_le. cbn [f_less binary64]. intros Hxy Hyx.
  apply B64_not_less_rank in Hxy, Hyx. unfold same_number.
  destruct x as [sx|sx| |sx mx ex], y as [sy|sy| |sy my ey];
    try destruct sx; try destruct sy; simpl in *;
    try (left; reflexivity); try (right; split; reflexivity);
    try (exfalso; lia).
  - left. assert (ex = ey) by lia. assert (Zpos mx = Zpos my) by lia. congruence.
  - left. assert (ex = ey) by lia. assert (Zpos mx = Zpos my) by lia. congruence.
Qed.

Lemma same_number_Zval x y : same_number x y -> Zval x = Zval y.
Proof. intros [->|[Hx Hy]]; [reflexivity|]. destruct x, y; try discriminate; reflexivity. Qed.

Lemma same_number_valid x y : same_number x y -> B64.valid x = B64.valid y.
Proof. intros [->|[Hx Hy]]; [reflexivity|]. destruct x, y; try discriminate; reflexivity. Qed.

Lemma same_number_is_fin x y : same_number x y -> is_fin x = is_fin y.
Proof. intros [->|[Hx Hy]]; [reflexivity|]. destruct x, y; try discriminate; reflexivity. Qed.

Lemma add_zero_l_is_fin s y : is_fin (B64.add (S754_zero s) y) = is_fin y.
Proof. destruct y as [sy|sy| |sy my ey]; try reflexivity. destruct s, sy; reflexivity. Qed.

Lemma add_zero_r_is_fin x s : is_fin (B64.add x (S754_zero s)) = is_fin x.
Proof. destruct x as [sx|sx| |sx mx ex]; try reflexivity. destruct s, sx; reflexivity. Qed.

Lemma same_number_add_is_fin a a' b b' :
  same_number a a' -> same_number b b' ->
  is_fin (B64.add a b) = is_fin (B64.add a' b').
Proof.
  intros [->|[Ha Ha']] [->|[Hb Hb']]; [reflexivity| | |].
  - destruct b, b'; try discriminate. rewrite !add_zero_r_is_fin. reflexivity.
  - destruct a, a'; try discriminate. rewrite !add_zero_l_is_fin. reflexivity.
  - destruct a, a', b, b'; try discriminate. rewrite !add_zero_r_is_fin. reflexivity.
Qed.

Lemma Zval_even x : B64.valid x = true -> exists u, Zval x = 2 * u.
Proof.
  intros Hx. destruct x as [sx|sx| |sx mx ex]; try (exists 0; reflexivity).
  simpl in Hx. pose proof (valid_exponent _ _ Hx).
  exists (cond_Zopp sx (Zpos mx * 2 ^ (ex + 1074))). unfold Zval, mag.
  replace (ex + 1075) with (1 + (ex + 1074)) by lia.
  rewrite (pow2_split 1 (ex + 1074)) by lia. change (2 ^ 1) with 2.
  destruct sx; simpl; lia.
Qed.

(** [(a + b) / 2.0] is the average of [a] and [b] rounded to binary64,
    unless the sum overflows. *)
Lemma B64_average_rounds a b :
  B64.valid a = true -> B64.valid b = true -> is_fin a = true -> is_fin b = true ->
  is_fin (B64.add a b) = true ->
  rounds_average a b (B64.div (B64.add a b) b64_two).
Proof.
  intros Ha Hb Hfa Hfb Hfs.
  change (is_fin (SFadd 53 1024 a b) = true) in Hfs.
  change (rounds_average a b (SFdiv 53 1024 (SFadd 53 1024 a b) b64_two)).
  destruct (add_spec a b Ha Hb Hfa Hfb) as (Hfin & Hovp & Hovn).
  destruct (Hfin Hfs) as (Hvs & HL & HU).
  set (s := SFadd 53 1024 a b) in *.
  pose proof (Zval_bound s Hvs) as Hsb.
  destruct (half_spec s Hvs Hfs) as (Hvv & Hfv & Hhalf).
  set (v := SFdiv 53 1024 s b64_two) in *.
  split; [exact Hvv|]. split; [exact Hfv|]. split.
  - intros lo Hlo Hflo Hle.
    assert (Hlow : 2 * Zval lo <= Zval s).
    { destruct (twice_repr lo Hlo Hflo) as [(t & Ht & Hft & Hvt)|Hbig].
      - rewrite <- Hvt. apply HL; [assumption|assumption|lia].
      - destruct (Z_lt_le_dec (Zval lo) 0) as [Hneg|Hpos]; [lia|].
        assert (Hov : is_fin s = false) by (apply Hovp; lia). congruence. }
    destruct (Zval_even lo Hlo) as [u Hu].
    destruct Hhalf as [Hex|(j & Hs & Hv)]; lia.
  - intros hi Hhi Hfhi Hle.
    assert (Hupp : Zval s <= 2 * Zval hi).
    { destruct (twice_repr hi Hhi Hfhi) as [(t & Ht & Hft & Hvt)|Hbig].
      - rewrite <- Hvt. apply HU; [assumption|assumption|lia].
      - destruct (Z_lt_le_dec 0 (Zval hi)) as [Hpos|Hneg]; [lia|].
        assert (Hov : is_fin s = false) by (apply Hovn; lia). congruence. }
    destruct (Zval_even hi Hhi) as [u Hu].
    destruct Hhalf as [Hex|(j & Hs & Hv)]; lia.
Qed.

Lemma B64_half_not_finite x : is_fin x = false -> is_fin (B64.div x b64_two) = false.
Proof. destruct x as [sx|sx| |sx mx ex]; try discriminate; reflexivity. Qed.

Lemma B64_add_not_finite a b :
  is_fin a = false \/ is_fin b = false -> is_fin (B64.add a b) = false.
Proof.
  destruct a as [sa|sa| |sa ma ea], b as [sb|sb| |sb mb eb]; intros [H|H];
    try discriminate; try reflexivity; destruct sa, sb; reflexivity.
Qed.

Lemma rounds_average_same a a' b b' v :
  same_number a a' -> same_number b b' -> rounds_average a b v -> rounds_average a' b' v.
Proof.
  intros Ha Hb. unfold rounds_average.
  rewrite (same_number_Zval a a' Ha), (same_number_Zval b b' Hb). tauto.
Qed.

(** ** The standard error as a formula *)

Section Formulas.
Context {F} {arith : Float64 F}.

Lemma fold_left_map_sum {A} (f : A -> F) (xs : list A) (acc : F) :
  fold_left (fun sum x => (sum + f x)%f64) xs acc = fold_left f_add (map f xs) acc.
Proof. revert acc. induction xs as [|x xs IH]; intros acc; simpl; [reflexivity|apply IH]. Qed.

(** What [standardError] computes: the square root of the sample variance
    divided by the square root of [n]. *)
Lemma standardError_of_sampleVariance (data : list F) :
  standardError_of data
  = (f_sqrt (sampleVariance data) / f_sqrt (f_of_int (Z.of_nat (length data))))%f64.
Proof.
  unfold standardError_of, sampleVariance, sum_in_order.
  rewrite (fold_left_map_sum (fun x => f_pow2 (x - mean_of data)%f64)). reflexivity.
Qed.

End Formulas.

(** In exact arithmetic what [standardError] computes,
    [sqrt(sampleVariance) / sqrt(n)], is [sqrt(sampleVariance / n)]: in
    float64 the two differ by rounding only. *)
Lemma exact_standardError_of (data : list R) :
  (2 <= length data)%nat ->
  standardError_of data = sampleStandardError data.
Proof.
  intros Hn. rewrite standardError_of_sampleVariance. unfold sampleStandardError.
  cbv [f_div f_sqrt f_of_int exact]. symmetry. apply sqrt_div_alt.
  apply IZR_lt. lia.
Qed.

Lemma B64_div_finite x y : is_fin (B64.div x y) = true -> is_fin x = true.
Proof. destruct x as [sx|sx| |sx mx ex], y as [sy|sy| |sy my ey]; try discriminate; reflexivity. Qed.

Lemma B64_sqrt_finite x :
  is_fin (B64.sqrt x) = true -> is_fin x = true /\ B64.ltb x (B64.of_int 0) = false.
Proof.
  destruct x as [sx|sx| |sx mx ex]; try discriminate.
  - intros _. split; [reflexivity|]. destruct sx; reflexivity.
  - destruct sx; discriminate.
  - destruct sx; [discriminate|]. intros _. split; reflexivity.
Qed.

(** ** Drawing from a tape *)

Section Tape.
Context {F : Type} {arith : Float64 F}.

(** A tape of values below [n] gives its first [count] values, and is left
    with the rest. *)
Lemma tape_draw_indices n (ks rest : list Z) :
  Forall (fun k => 0 <= k < n) ks ->
  draw_indices (random := tape) n (length ks) (ks ++ rest) = (ks, rest).
Proof.
  induction 1 as [|k ks Hk _ IH]; [reflexivity|].
  cbn [length app draw_indices rand_Intn tape hd tl]. rewrite IH.
  rewrite Z.mod_small by exact Hk. reflexivity.
Qed.

Lemma tape_draw_positions n sampleSize (K : list (list Z)) (rest : list Z) :
  Forall (fun ks => length ks = sampleSize /\ Forall (fun k => 0 <= k < n) ks) K ->
  draw_positions (random := tape) n sampleSize (length K) (concat K ++ rest) = (K, rest).
Proof.
  induction 1 as [|ks K [Hlen Hks] _ IH]; [reflexivity|].
  cbn [length concat draw_positions]. rewrite <- app_assoc, <- Hlen.
  rewrite (tape_draw_indices n ks _ Hks). rewrite Hlen, IH. reflexivity.
Qed.

(** What is drawn from a tape of values below [n] is the tape, cut into
    samples. *)
Lemma tape_positions_concat n sampleSize count (t : list Z) :
  length t = (count * sampleSize)%nat -> Forall (fun k => 0 <= k < n) t ->
  concat (fst (draw_positions (random := tape) n sampleSize count t)) = t.
Proof.
  revert t. induction count as [|c IH]; intros t Hlen Hall.
  - destruct t; [reflexivity|discriminate].
  - cbn [draw_positions].
    rewrite <- (take_drop sampleSize t) at 1.
    assert (Htake : length (take sampleSize t) = sampleSize)
      by (rewrite length_take; simpl in Hlen; lia).
    rewrite <- Htake at 1.
    rewrite (tape_draw_indices n (take sampleSize t) (drop sampleSize t))
      by (apply Forall_take, Hall).
    specialize (IH (drop sampleSize t)).
    destruct (draw_positions (random := tape) n sampleSize c (drop sampleSize t))
      as [kss g2].
    cbn [fst concat] in *. rewrite IH.
    + apply take_drop.
    + rewrite length_drop. simpl in Hlen. lia.
    + apply Forall_drop, Hall.
Qed.

Lemma concat_length_uniform {A} (K : list (list A)) m :
  Forall (fun ks => length ks = m) K -> length (concat K) = (length K * m)%nat.
Proof.
  induction 1 as [|ks K Hks _ IH]; [reflexivity|].
  cbn [concat length]. rewrite length_app, IH, Hks. lia.
Qed.

(** Every choice of positions comes from exactly one tape: with the values
    of [rand.Intn] uniform and independent, so are the positions, and every
    choice of [count] samples of [sampleSize] positions is as likely as
    every other. *)
Lemma tape_positions_unique n sampleSize count (K : list (list Z)) :
  length K = count ->
  Forall (fun ks => length ks = sampleSize /\ Forall (fun k => 0 <= k < n) ks) K ->
  exists! t : list Z,
    length t = (count * sampleSize)%nat /\ Forall (fun k => 0 <= k < n) t /\
    fst (draw_positions (random := tape) n sampleSize count t) = K.
Proof.
  intros Hlen HK. exists (concat K). split.
  - split; [|split].
    + rewrite <- Hlen. apply concat_length_uniform.
      eapply Forall_impl; [exact HK|]. intros ks [H _]. exact H.
    + apply Forall_concat. eapply Forall_impl; [exact HK|]. intros ks [_ H]. exact H.
    + rewrite <- Hlen. rewrite <- (app_nil_r (concat K)).
      rewrite (tape_draw_positions n sampleSize K [] HK). reflexivity.
  - intros t (Ht & Hall & Hpos). rewrite <- Hpos.
    apply tape_positions_concat; assumption.
Qed.

End Tape.

(** ** What [rand.Seed] does to the two toy sources *)

Lemma lcg_seed_resets {F} {arith : Float64 F} : seed_resets (lcg (F := F)).
Proof. intros seed g1 g2. reflexivity. Qed.

Lemma lcg_seed_nop_ignored {F} {arith : Float64 F} : seed_ignored (lcg_seed_nop (F := F)).
Proof. intros seed g. reflexivity. Qed.

(** * Properties of the program *)

Section Claims.
Context {F G : Type} {arith : Float64 F} {random : RandSource F G}.
Implicit Types (s : @state F G) (population : slice) (pop data : list F).

Lemma modifies_only_run_calls population cs :
  modifies_only (F := F) (G := G) ∅ (run_calls population cs).
Proof.
  induction cs as [|c cs IH]; simpl.
  - apply modifies_only_ret.
  - apply modifies_only_bind; [|intros _; exact IH].
    destruct c; simpl;
      (apply modifies_only_bind; [|intros; apply modifies_only_ret]).
    + apply modifies_only_bootstrap.
    + apply modifies_only_centralLimitTheorem.
Qed.

(** C5.  Two calls of [generatePopulation] with the same [size >= 0],
    [mean] and [stddev] return populations of length [size], each made of
    the draws from the source as [rand.Seed(42)] leaves it.  When the two
    sources agree after [rand.Seed(42)], and so whenever [rand.Seed] takes
    effect, the populations are equal element for element.  When
    [rand.Seed] is a no-op and the second call starts from the source the
    first has left, the second population is not a repetition of the
    first: the two are the first [size] and the next [size] of
    [2 * size] draws. *)
Theorem generatePopulation_twice (s1 s2 : @state F G) size (mean stddev : F) :
  0 <= size ->
  exists l1 s1' l2 s2' (pop1 pop2 : list F),
    generatePopulation size mean stddev s1 = Ok l1 s1' /\
    generatePopulation size mean stddev s2 = Ok l2 s2' /\
    heap s1' !! l1 = Some pop1 /\ heap s2' !! l2 = Some pop2 /\
    Z.of_nat (length pop1) = size /\ Z.of_nat (length pop2) = size /\
    (rand_Seed 42 (rng s1) = rand_Seed 42 (rng s2) ->
     pop1 = pop2 /\ rng s1' = rng s2') /\
    (seed_resets random -> pop1 = pop2 /\ rng s1' = rng s2') /\
    (seed_ignored random -> rng s2 = rng s1' ->
     pop1 ++ pop2
     = fst (normal_draws mean stddev (Z.to_nat size + Z.to_nat size) (rng s1))).
Proof.
  intros Hsize. do 4 eexists.
  exists (fst (normal_draws mean stddev (Z.to_nat size) (rand_Seed 42 (rng s1)))),
         (fst (normal_draws mean stddev (Z.to_nat size) (rand_Seed 42 (rng s2)))).
  split; [apply run_generatePopulation, Hsize|].
  split; [apply run_generatePopulation, Hsize|]. cbn [heap rng].
  rewrite !lookup_insert_eq, !normal_draws_length.
  split; [reflexivity|]. split; [reflexivity|].
  split; [lia|]. split; [lia|].
  assert (Hsame : rand_Seed 42 (rng s1) = rand_Seed 42 (rng s2) ->
                  fst (normal_draws mean stddev (Z.to_nat size) (rand_Seed 42 (rng s1)))
                  = fst (normal_draws mean stddev (Z.to_nat size) (rand_Seed 42 (rng s2))) /\
                  snd (normal_draws mean stddev (Z.to_nat size) (rand_Seed 42 (rng s1)))
                  = snd (normal_draws mean stddev (Z.to_nat size) (rand_Seed 42 (rng s2))))
    by (intros Hseed; rewrite Hseed; split; reflexivity).
  split; [exact Hsame|]. split.
  - intros Hreset. apply Hsame, Hreset.
  - intros Hnop Hnext. rewrite !Hnop in *. rewrite Hnext.
    symmetry. apply normal_draws_app.
Qed.

(** C6.  Any number of calls of [bootstrap] and [centralLimitTheorem] on a
    population, with any arguments, leave the population as it was: the same
    elements in the same order. *)
Theorem population_unchanged_by_estimators s population pop (cs : list call) s' :
  heap s !! population = Some pop ->
  run_calls population cs s = Ok tt s' ->
  heap s' !! population = Some pop.
Proof.
  intros Hpop Hrun.
  destruct (modifies_only_run_calls population cs s tt s' Hrun) as [_ Hsame].
  rewrite Hsame; [exact Hpop| |set_solver].
  apply elem_of_dom. eauto.
Qed.

(** C9, amended.  [generatePopulation] validates nothing.  With [size = 0]
    it returns a population, the empty one, after [rand.Seed(42)]; with
    [size < 0] it does not return: [make] panics. *)
Theorem generatePopulation_nonpositive_size s size (mean stddev : F) :
  size <= 0 ->
  (size = 0 ->
   exists l s', generatePopulation size mean stddev s = Ok l s' /\
                heap s' !! l = Some [] /\ heap s !! l = None /\
                rng s' = rand_Seed 42 (rng s)) /\
  (size < 0 ->
   generatePopulation size mean stddev s = Panic makeslice_len_out_of_range).
Proof.
  intros _. split.
  - intros ->. do 2 eexists. split; [apply run_generatePopulation; lia|]. simpl.
    rewrite lookup_insert_eq. repeat split.
    apply not_elem_of_dom, is_fresh.
  - intros Hneg. unfold generatePopulation, bind.
    rewrite run_make_panic by exact Hneg. reflexivity.
Qed.

(** C10.  From the same state of the random source, on every population,
    for [sampleSize >= 1] and [k >= 2]: [centralLimitTheorem(population,
    sampleSize, k)] returns what [bootstrap(population, k, sampleSize)]
    returns as its first component (and panics when [bootstrap] panics), and
    both leave the random source in the same state. *)
Theorem centralLimitTheorem_is_bootstrap_mean s population pop sampleSize k :
  heap s !! population = Some pop -> 1 <= sampleSize -> 2 <= k ->
  result (centralLimitTheorem population sampleSize k s)
  = first_of (result (bootstrap population k sampleSize s)) /\
  forall a s1 b s2,
    centralLimitTheorem population sampleSize k s = Ok a s1 ->
    bootstrap population k sampleSize s = Ok b s2 ->
    rng s1 = rng s2.
Proof.
  intros Hpop Hsize Hk. destruct pop as [|x pop].
  - rewrite run_centralLimitTheorem_empty, run_bootstrap_empty by (assumption || lia).
    split; [reflexivity|discriminate].
  - destruct (run_centralLimitTheorem s population (x :: pop) sampleSize k)
      as (s1 & -> & Hg1); [assumption|discriminate|lia|lia|].
    destruct (run_bootstrap s population (x :: pop) k sampleSize)
      as (s2 & -> & Hg2); [assumption|discriminate|lia|lia|].
    split; [reflexivity|]. intros a s1' b s2' [= _ <-] [= _ <-]. congruence.
Qed.

End Claims.

(** ** The estimators on float64 values *)

(** A population of five numbers in a store with nothing else, and the
    linear congruential source in state 7. *)
Lemma run_example_lookup {F} (pop : list F) (g : Z) :
  heap (State (F := F) {[ 0%nat := pop ]} g) !! 0%nat = Some pop.
Proof. apply lookup_singleton_eq. Qed.

(** C1, amended.  On every sequence of float64 values of length [n >= 2]
    [standardError] returns, and when what it returns is finite (no sum
    has overflowed): the sample variance as float64 computes it is finite
    and not negative, and the value returned is its square root divided
    by the square root of [n], each operation rounded to float64.  On
    [1, 2, 3, 4, 5] the value is within [1e-6] of [0.70710678119], by the
    comparison of [TestStandardError]. *)
Theorem standardError_is_sqrt_of_variance_over_sqrt_n {G}
    {random : RandSource spec_float G} (s : @state spec_float G) l
    (data : list spec_float) :
  heap s !! l = Some data -> (2 <= length data)%nat ->
  exists v,
    standardError l s = Ok v s /\
    (is_fin v = true ->
     is_fin (sampleVariance data) = true /\
     B64.ltb (sampleVariance data) (B64.of_int 0) = false /\
     v = B64.div (B64.sqrt (sampleVariance data))
                 (B64.sqrt (B64.of_int (Z.of_nat (length data))))) /\
    (data = map B64.of_int [1; 2; 3; 4; 5] ->
     B64.ltb (B64.decimal 1 (-6))
             (B64.abs (B64.sub v (B64.decimal 70710678119 (-11)))) = false).
Proof.
  intros Hl Hn. eexists. split; [apply (run_standardError s l data Hl)|]. split.
  - rewrite standardError_of_sampleVariance. intros Hfin.
    change (is_fin (B64.div (B64.sqrt (sampleVariance data))
                            (B64.sqrt (B64.of_int (Z.of_nat (length data))))) = true) in Hfin.
    apply B64_div_finite, B64_sqrt_finite in Hfin. destruct Hfin as [Hf Hpos].
    split; [exact Hf|]. split; [exact Hpos|reflexivity].
  - intros ->. vm_compute. reflexivity.
Qed.

(** C2.  For every population that is not empty, every
    [bootstrapSamples >= 2] and every [sampleSize >= 1]:
    - [bootstrap] returns the pair of the standard errors of two
      distributions of length [bootstrapSamples], the means and the medians
      of [bootstrapSamples] samples, each of [sampleSize] elements of the
      population, at the positions that successive calls of
      [rand.Intn(len(population))] gave, one call for each element and the
      value used as it is;
    - the samples are drawn uniformly, with replacement.  On a source whose
      values of [rand.Intn] are uniform and independent (a tape), every
      choice [K] of [bootstrapSamples] times [sampleSize] positions below
      [len(population)], repetitions included, is drawn from exactly one
      tape of that length, so that all choices are equally likely; and
      from that tape [bootstrap] returns the standard errors of the means
      and of the medians of the samples at the positions [K]. *)
Theorem bootstrap_standard_errors_of_resamples {F} {arith : Float64 F}
    (pop : list F) bootstrapSamples sampleSize :
  pop <> [] -> 2 <= bootstrapSamples -> 1 <= sampleSize ->
  let n := Z.of_nat (length pop) in
  (forall G (random : RandSource F G) (s : @state F G) population,
     heap s !! population = Some pop ->
     let drawn :=
       draw_positions n (Z.to_nat sampleSize) (Z.to_nat bootstrapSamples) (rng s) in
     let samples := map (map (pick pop)) (fst drawn) in
     let means := map mean_of samples in
     let medians := map median_of samples in
     Z.of_nat (length (fst drawn)) = bootstrapSamples /\
     Forall (fun ks => Z.of_nat (length ks) = sampleSize /\
                       Forall (fun k => 0 <= k < n) ks) (fst drawn) /\
     Z.of_nat (length means) = bootstrapSamples /\
     Z.of_nat (length medians) = bootstrapSamples /\
     exists s',
       bootstrap population bootstrapSamples sampleSize s
       = Ok (standardError_of means, standardError_of medians) s' /\
       rng s' = snd drawn) /\
  (forall K : list (list Z),
     Z.of_nat (length K) = bootstrapSamples ->
     Forall (fun ks => Z.of_nat (length ks) = sampleSize /\
                       Forall (fun k => 0 <= k < n) ks) K ->
     (exists! t : list Z,
        Z.of_nat (length t) = bootstrapSamples * sampleSize /\
        Forall (fun k => 0 <= k < n) t /\
        fst (draw_positions (random := tape) n (Z.to_nat sampleSize)
                            (Z.to_nat bootstrapSamples) t) = K) /\
     (forall (s : @state F (list Z)) population,
        heap s !! population = Some pop -> rng s = concat K ->
        let samples := map (map (pick pop)) K in
        exists s',
          bootstrap (random := tape) population bootstrapSamples sampleSize s
          = Ok (standardError_of (map mean_of samples),
                standardError_of (map median_of samples)) s' /\
          rng s' = [])).
Proof.
  intros Hne HB Hsize n.
  assert (Hn : 0 < n) by (subst n; destruct pop; [congruence|simpl; lia]).
  assert (Hrun : forall G (random : RandSource F G) (s : @state F G) population,
            heap s !! population = Some pop ->
            exists s',
              bootstrap population bootstrapSamples sampleSize s
              = Ok (standardError_of
                      (map mean_of (map (map (pick pop))
                         (fst (draw_positions n (Z.to_nat sampleSize)
                                 (Z.to_nat bootstrapSamples) (rng s))))),
                    standardError_of
                      (map median_of (map (map (pick pop))
                         (fst (draw_positions n (Z.to_nat sampleSize)
                                 (Z.to_nat bootstrapSamples) (rng s)))))) s' /\
              rng s' = snd (draw_positions n (Z.to_nat sampleSize)
                              (Z.to_nat bootstrapSamples) (rng s))).
  { intros G random s population Hpop.
    destruct (run_bootstrap s population pop bootstrapSamples sampleSize Hpop Hne)
      as (s' & Hs' & Hg); [lia|exact Hsize|].
    rewrite resamples_positions in Hs', Hg. exists s'. split; assumption. }
  split.
  - intros G random s population Hpop drawn samples means medians.
    assert (Hlen : Z.of_nat (length (fst drawn)) = bootstrapSamples)
      by (unfold drawn; rewrite draw_positions_length; lia).
    split; [exact Hlen|]. split.
    + pose proof (draw_positions_each n (Z.to_nat sampleSize) (Z.to_nat bootstrapSamples)
                    (rng s) Hn) as Heach.
      eapply Forall_impl; [exact Heach|]. intros ks [Hl Hin]. split; [lia|exact Hin].
    + unfold means, medians, samples. rewrite !length_map.
      repeat split; try exact Hlen. apply Hrun, Hpop.
  - intros K HK Hrows.
    assert (Hrows' : Forall (fun ks => length ks = Z.to_nat sampleSize /\
                                       Forall (fun k => 0 <= k < n) ks) K).
    { eapply Forall_impl; [exact Hrows|]. intros ks [Hl Hin]. split; [lia|exact Hin]. }
    split.
    + destruct (tape_positions_unique (F := F) n (Z.to_nat sampleSize)
                  (Z.to_nat bootstrapSamples) K ltac:(lia) Hrows')
        as (t & (Ht & Hall & Hpos) & Huniq).
      exists t. split.
      * split; [|split; assumption]. rewrite Ht. rewrite Nat2Z.inj_mul. lia.
      * intros t' (Ht' & Hall' & Hpos'). apply Huniq. split; [|split; assumption].
        apply Nat2Z.inj. rewrite Nat2Z.inj_mul. lia.
    + intros s population Hpop Htape samples.
      destruct (Hrun (list Z) tape s population Hpop) as (s' & Hs' & Hg).
      rewrite Htape in Hs', Hg.
      replace (Z.to_nat bootstrapSamples) with (length K) in Hs', Hg by lia.
      rewrite <- (app_nil_r (concat K)) in Hs', Hg.
      rewrite (tape_draw_positions n (Z.to_nat sampleSize) K [] Hrows') in Hs', Hg.
      exists s'. split; assumption.
Qed.

(** C3, amended.  [median] sorts its argument in place: after
    [median(data)] returns, the caller's slice holds the same elements
    rearranged in ascending order, so it is as before exactly when it was in
    ascending order already; no other slice and nothing of the random source
    changes. *)
Theorem median_sorts_in_place {F G} {arith : Float64 F} {random : RandSource F G}
    {order : LessOrder F} (s : @state F G) l (data : list F) :
  heap s !! l = Some data -> data <> [] ->
  exists v s' sorted,
    median l s = Ok v s' /\
    heap s' !! l = Some sorted /\
    Permutation sorted data /\ ascending sorted /\
    (sorted = data <-> ascending data) /\
    (forall l', l' <> l -> heap s' !! l' = heap s !! l') /\
    rng s' = rng s.
Proof.
  intros Hl Hne. eexists _, _, (sort_Float64s data).
  split; [apply (run_median s l data Hl Hne)|]. simpl.
  split; [apply lookup_insert_eq|].
  split; [apply sort_Float64s_Permutation|].
  split; [apply sort_Float64s_ascending|].
  split; [apply sort_Float64s_fixpoint|].
  split; [|reflexivity].
  intros l' Hne'. apply lookup_insert_ne. congruence.
Qed.

(** C4, amended.  [standardError] has no error to fail with.  On every
    sequence of binary64 numbers of length [n < 2] it returns, and what it
    returns is NaN (zero divided by zero). *)
Theorem standardError_of_short_input_is_NaN {G} {random : RandSource spec_float G}
    (s : @state spec_float G) l (data : list spec_float) :
  heap s !! l = Some data -> (length data < 2)%nat ->
  Forall (fun x => B64.valid x = true) data ->
  standardError l s = Ok S754_nan s.
Proof.
  intros Hl Hn Hvalid. rewrite (run_standardError s l data Hl).
  rewrite (B64_standardError_of_short data Hn Hvalid). reflexivity.
Qed.

(** C7, amended.  On every sequence of float64 values that is not empty
    [median] returns, and with the sorted sequence any ascending
    rearrangement of the data (in the order of [sort.Float64s]):
    - when the length is odd the value is the middle element of the sorted
      sequence ([+0] and [-0] taken as one number);
    - when the length is even and the two middle elements are finite, the
      value is their average rounded to float64 (the average itself when
      it is a float64 number, otherwise a float64 number next to it),
      provided that their sum does not overflow;
    - when the length is even and a middle element is NaN or an infinity,
      the value is NaN or an infinity. *)
Theorem median_is_middle_of_sorted {G} {random : RandSource spec_float G}
    (s : @state spec_float G) l (data : list spec_float) :
  heap s !! l = Some data -> data <> [] ->
  exists v s',
    median l s = Ok v s' /\
    forall sorted, Permutation sorted data -> ascending sorted ->
      let n := length data in
      let a := nth (n / 2 - 1) sorted (f_of_int 0) in
      let b := nth (n / 2) sorted (f_of_int 0) in
      (Nat.even n = false -> same_number v b) /\
      (Nat.even n = true ->
       B64.valid a = true -> B64.valid b = true ->
       is_fin a = true -> is_fin b = true ->
       is_fin (B64.add a b) = true ->
       rounds_average a b v) /\
      (Nat.even n = true -> is_fin a = false \/ is_fin b = false ->
       is_fin v = false).
Proof.
  intros Hl Hne. do 2 eexists. split; [apply (run_median s l data Hl Hne)|].
  intros sorted Hperm Hasc n a b.
  rewrite median_of_middle. unfold middle_of_sorted.
  rewrite sort_Float64s_length. fold n.
  set (a0 := nth (n / 2 - 1)%nat (sort_Float64s data) (f_of_int 0)).
  set (b0 := nth (n / 2)%nat (sort_Float64s data) (f_of_int 0)).
  assert (Hn : (0 < n)%nat) by (subst n; destruct data; [congruence|simpl; lia]).
  assert (Hhalf : (n / 2 < n)%nat) by (apply Nat.div_lt; lia).
  assert (Hboth : Permutation (sort_Float64s data) sorted).
  { rewrite sort_Float64s_Permutation. symmetry. exact Hperm. }
  assert (Hlen : length (sort_Float64s data) = n) by apply sort_Float64s_length.
  assert (Hsame : forall i, (i < n)%nat ->
            same_number (nth i (sort_Float64s data) (f_of_int 0))
                        (nth i sorted (f_of_int 0))).
  { intros i Hi.
    destruct (ascending_Permutation_nth (sort_Float64s data) sorted (f_of_int 0) i
                Hboth (sort_Float64s_ascending data) Hasc ltac:(lia)) as [H1 H2].
    apply B64_same_place; assumption. }
  assert (Ha : same_number a0 a) by (apply Hsame; lia).
  assert (Hb : same_number b0 b) by (apply Hsame; lia).
  split; [|split].
  - intros Hodd. rewrite Hodd. exact Hb.
  - intros Heven Hva Hvb Hfa Hfb Hsum. rewrite Heven.
    apply (rounds_average_same a0 a b0 b _ Ha Hb).
    apply B64_average_rounds.
    + rewrite (same_number_valid a0 a Ha). exact Hva.
    + rewrite (same_number_valid b0 b Hb). exact Hvb.
    + rewrite (same_number_is_fin a0 a Ha). exact Hfa.
    + rewrite (same_number_is_fin b0 b Hb). exact Hfb.
    + rewrite (same_number_add_is_fin a0 a b0 b Ha Hb). exact Hsum.
  - intros Heven Hnot. rewrite Heven.
    apply B64_half_not_finite, B64_add_not_finite.
    rewrite (same_number_is_fin a0 a Ha), (same_number_is_fin b0 b Hb). exact Hnot.
Qed.

(** C8, amended.  On every sequence that is not empty, of finite binary64
    numbers, the value [median] returns lies between the minimum and the
    maximum of the sequence, provided that, when the length is even, the
    sum of the two middle elements of the sorted sequence does not overflow.
    On a sequence of odd length [median] returns one of its elements, in
    every arithmetic.  Over the reals the value lies between the minimum
    and the maximum on every sequence that is not empty. *)
Theorem median_between_minimum_and_maximum :
  (forall G (random : RandSource spec_float G) (s : @state spec_float G) l
          (data : list spec_float),
     heap s !! l = Some data -> data <> [] ->
     Forall (fun x => B64.valid x = true /\ is_fin x = true) data ->
     (Nat.even (length data) = true ->
      is_fin (B64.add (nth (length data / 2 - 1) (sort_Float64s data) (f_of_int 0))
                      (nth (length data / 2) (sort_Float64s data) (f_of_int 0)))
      = true) ->
     exists v s', median l s = Ok v s' /\
       forall lo hi, is_minimum lo data -> is_maximum hi data ->
                     f_le lo v /\ f_le v hi) /\
  (forall F G (arith : Float64 F) (random : RandSource F G)
          (s : @state F G) l (data : list F),
     heap s !! l = Some data -> Nat.even (length data) = false ->
     exists v s', median l s = Ok v s' /\ In v data) /\
  (forall G (random : RandSource R G) (s : @state R G) l (data : list R),
     heap s !! l = Some data -> data <> [] ->
     exists v s', median l s = Ok v s' /\
                  (minimum data <= v <= maximum data)%R).
Proof.
  split; [|split].
  - intros G random s l data Hl Hne Hall Hsum.
    do 2 eexists. split; [apply (run_median s l data Hl Hne)|].
    rewrite median_of_middle. intros lo hi [_ Hlo] [_ Hhi].
    pose proof (sort_Float64s_Permutation data) as Hperm.
    destruct (B64_middle_between (sort_Float64s data)) as (a & b & Ha & Hb & Hav & Hvb).
    + intros Hnil. apply Hne. apply Permutation_nil. rewrite <- Hnil. exact Hperm.
    + apply sort_Float64s_ascending.
    + rewrite Hperm. exact Hall.
    + rewrite sort_Float64s_length. exact Hsum.
    + apply (Permutation_in _ Hperm) in Ha. apply (Permutation_in _ Hperm) in Hb.
      split.
      * apply (le_trans lo a); [apply Hlo, Ha|exact Hav].
      * apply (le_trans _ b); [exact Hvb|apply Hhi, Hb].
  - intros F G arith random s l data Hl Hodd.
    assert (Hne : data <> []) by (intros ->; discriminate).
    do 2 eexists. split; [apply (run_median s l data Hl Hne)|].
    rewrite median_of_middle.
    apply (Permutation_in _ (sort_Float64s_Permutation data)).
    apply middle_of_sorted_odd_In. rewrite sort_Float64s_length. exact Hodd.
  - intros G random s l data Hl Hne.
    do 2 eexists. split; [apply (run_median s l data Hl Hne)|].
    rewrite median_of_middle. apply exact_middle_between.
    + intros Hnil. apply Hne.
      apply Permutation_nil. rewrite <- Hnil.
      apply sort_Float64s_Permutation.
    + apply Forall_forall. intros x Hx. apply list_elem_of_In in Hx.
      apply (Permutation_in _ (sort_Float64s_Permutation data)) in Hx.
      split; [apply minimum_le, Hx|apply le_maximum, Hx].
Qed.

(** ** The claims on concrete inputs *)

(** C1 as stated fails in binary64.  On [1, 2, 3] the exact value is the
    square root of 1/3, which no float64 number is: what [standardError]
    returns is not the exact value, and it is not the float64 value of
    [sqrt(sampleVariance / n)] either, from which it differs in the last
    digit. *)
Lemma standardError_is_not_sqrt_of_variance_over_n :
  let data := map B64.of_int [1; 2; 3] in
  let s := State (G := Z) {[ 0%nat := data ]} 7 in
  exists v, standardError 0%nat s = Ok v s /\
            is_fin v = true /\
            v <> sampleStandardError data /\
            ~ exact_sampleStandardError data v.
Proof.
  intros data s. eexists. split; [vm_compute; reflexivity|].
  split; [reflexivity|]. split; [vm_compute; discriminate|].
  intros (_ & _ & H). vm_compute in H. discriminate H.
Qed.

(** C1, amended, on the data of [TestStandardError]. *)
Lemma standardError_is_sqrt_of_variance_over_sqrt_n_witness :
  let data := map B64.of_int [1; 2; 3; 4; 5] in
  let s := State (G := Z) {[ 0%nat := data ]} 7 in
  (heap s !! 0%nat = Some data /\ (2 <= length data)%nat) /\
  exists v,
    standardError 0%nat s = Ok v s /\
    v = B64.div (B64.sqrt (sampleVariance data)) (B64.sqrt (B64.of_int 5)) /\
    B64.ltb (B64.decimal 1 (-6))
            (B64.abs (B64.sub v (B64.decimal 70710678119 (-11)))) = false.
Proof.
  intros data s.
  assert (Hl : heap s !! 0%nat = Some data) by reflexivity.
  assert (Hn : (2 <= length data)%nat) by (simpl; lia).
  split; [split; assumption|].
  destruct (standardError_is_sqrt_of_variance_over_sqrt_n s 0%nat data Hl Hn)
    as (v & Hrun & Hfin & Htest).
  exists v. split; [exact Hrun|]. split; [|apply Htest; reflexivity].
  apply Hfin.
  assert (E : standardError 0%nat s = Ok (standardError_of data) s)
    by apply (run_standardError s 0%nat data Hl).
  assert (Hv : v = standardError_of data) by congruence.
  rewrite Hv. reflexivity.
Defined.

(** C2 on a population of five numbers, three samples of two. *)
Lemma bootstrap_standard_errors_of_resamples_witness :
  let pop := map B64.of_int [3; 1; 2; 5; 4] in
  let s := State (G := Z) {[ 0%nat := pop ]} 7 in
  let drawn := draw_positions 5 (Z.to_nat 2) (Z.to_nat 3) (rng s) in
  let samples := map (map (pick pop)) (fst drawn) in
  let K := [[4; 0]; [2; 2]; [1; 3]] in
  let onTape := State (G := list Z) {[ 0%nat := pop ]} (concat K) in
  (pop <> [] /\ 2 <= 3 /\ 1 <= 2 /\ heap s !! 0%nat = Some pop /\
   heap onTape !! 0%nat = Some pop /\ rng onTape = concat K) /\
  (exists s',
     bootstrap 0%nat 3 2 s
     = Ok (standardError_of (map mean_of samples),
           standardError_of (map median_of samples)) s') /\
  (exists! t : list Z,
     Z.of_nat (length t) = 3 * 2 /\
     Forall (fun k => 0 <= k < 5) t /\
     fst (draw_positions (random := tape (F := spec_float)) 5 (Z.to_nat 2) (Z.to_nat 3) t)
     = K) /\
  (exists s',
     bootstrap (random := tape) 0%nat 3 2 onTape
     = Ok (standardError_of (map mean_of (map (map (pick pop)) K)),
           standardError_of (map median_of (map (map (pick pop)) K))) s' /\
     rng s' = []).
Proof.
  intros pop s drawn samples K onTape.
  assert (Hl : heap s !! 0%nat = Some pop) by reflexivity.
  assert (Hl' : heap onTape !! 0%nat = Some pop) by reflexivity.
  assert (Hne : pop <> []) by discriminate.
  split; [repeat split; (assumption || lia)|].
  destruct (bootstrap_standard_errors_of_resamples pop 3 2 Hne ltac:(lia) ltac:(lia))
    as [Hrun Huniform].
  split.
  - destruct (Hrun Z lcg s 0%nat Hl) as (_ & _ & _ & _ & s' & Hs' & _).
    exists s'. exact Hs'.
  - assert (HK : Forall (fun ks => Z.of_nat (length ks) = 2 /\
                                   Forall (fun k => 0 <= k < Z.of_nat (length pop)) ks) K).
    { repeat (constructor;
              [split; [reflexivity
                      |repeat (constructor; [unfold pop; simpl; lia|]); constructor]|]).
      constructor. }
    destruct (Huniform K eq_refl HK) as [Hone Htape].
    split; [exact Hone|]. apply (Htape onTape 0%nat Hl' eq_refl).
Defined.

(** C3 as stated fails: after [median] of [3, 1, 2] the caller's slice holds
    [1, 2, 3]. *)
Lemma median_reorders_the_callers_slice :
  exists v s',
    median 0%nat (State (G := Z) {[ 0%nat := map B64.of_int [3; 1; 2] ]} 7)
    = Ok v s' /\
    heap s' !! 0%nat = Some (map B64.of_int [1; 2; 3]) /\
    map B64.of_int [1; 2; 3] <> map B64.of_int [3; 1; 2].
Proof.
  do 2 eexists. split; [vm_compute; reflexivity|].
  split; [vm_compute; reflexivity|]. vm_compute. discriminate.
Qed.

(** C3, amended, on the same slice. *)
Lemma median_sorts_in_place_witness :
  let data := map B64.of_int [3; 1; 2] in
  let s := State (G := Z) {[ 0%nat := data ]} 7 in
  (heap s !! 0%nat = Some data /\ data <> []) /\
  exists v s' sorted,
    median 0%nat s = Ok v s' /\
    heap s' !! 0%nat = Some sorted /\
    Permutation sorted data /\ ascending sorted /\
    (sorted = data <-> ascending data) /\
    (forall l', l' <> 0%nat -> heap s' !! l' = heap s !! l') /\
    rng s' = rng s.
Proof.
  intros data s.
  assert (Hl : heap s !! 0%nat = Some data) by apply run_example_lookup.
  assert (Hne : data <> []) by discriminate.
  split; [split; assumption|].
  apply (median_sorts_in_place s 0%nat data Hl Hne).
Defined.

(** C4 as stated fails: on the single number 5 [standardError] returns, and
    returns NaN. *)
Lemma standardError_of_one_number_returns_NaN :
  standardError 0%nat (State (G := Z) {[ 0%nat := [B64.of_int 5] ]} 7)
  = Ok S754_nan (State {[ 0%nat := [B64.of_int 5] ]} 7).
Proof. vm_compute. reflexivity. Qed.

(** C4, amended, on the single number 5. *)
Lemma standardError_of_short_input_is_NaN_witness :
  let data := [B64.of_int 5] in
  let s := State (G := Z) {[ 0%nat := data ]} 7 in
  (heap s !! 0%nat = Some data /\ (length data < 2)%nat /\
   Forall (fun x => B64.valid x = true) data) /\
  standardError 0%nat s = Ok S754_nan s.
Proof.
  intros data s.
  assert (Hl : heap s !! 0%nat = Some data) by apply run_example_lookup.
  assert (Hn : (length data < 2)%nat) by (simpl; lia).
  assert (Hv : Forall (fun x => B64.valid x = true) data)
    by (repeat constructor).
  split; [repeat split; assumption|].
  apply (standardError_of_short_input_is_NaN s 0%nat data Hl Hn Hv).
Defined.

(** C5 on the arguments of [TestGeneratePopulation], from two different
    states of the program, with a source on which [rand.Seed] takes
    effect. *)
Lemma generatePopulation_twice_witness :
  let s1 := State (F := spec_float) (G := Z) ∅ 7 in
  let s2 := State (G := Z) {[ 0%nat := [B64.of_int 1] ]} 2024 in
  0 <= 100 /\
  exists l1 s1' l2 s2' (pop1 pop2 : list spec_float),
    generatePopulation 100 (B64.of_int 100) (B64.of_int 10) s1 = Ok l1 s1' /\
    generatePopulation 100 (B64.of_int 100) (B64.of_int 10) s2 = Ok l2 s2' /\
    heap s1' !! l1 = Some pop1 /\ heap s2' !! l2 = Some pop2 /\
    Z.of_nat (length pop1) = 100 /\ Z.of_nat (length pop2) = 100 /\
    pop1 = pop2 /\ rng s1' = rng s2'.
Proof.
  intros s1 s2. split; [lia|].
  destruct (generatePopulation_twice s1 s2 100 (B64.of_int 100) (B64.of_int 10)
              ltac:(lia))
    as (l1 & s1' & l2 & s2' & pop1 & pop2 & H1 & H2 & Hp1 & Hp2 & Hn1 & Hn2 & _ & Hsame & _).
  exists l1, s1', l2, s2', pop1, pop2.
  repeat split; try assumption; apply Hsame, lcg_seed_resets.
Defined.

(** C5 fails where [rand.Seed] is a no-op: two calls in a row, the second
    from the state the first has left, return two populations of three
    elements that differ. *)
Lemma generatePopulation_twice_differs :
  let s := State (F := spec_float) (G := Z) ∅ 7 in
  exists l1 s1 l2 s2 (pop1 pop2 : list spec_float),
    generatePopulation (random := lcg_seed_nop) 3 (B64.of_int 100) (B64.of_int 10) s
    = Ok l1 s1 /\
    generatePopulation (random := lcg_seed_nop) 3 (B64.of_int 100) (B64.of_int 10) s1
    = Ok l2 s2 /\
    heap s1 !! l1 = Some pop1 /\ heap s2 !! l2 = Some pop2 /\
    length pop1 = 3%nat /\ length pop2 = 3%nat /\ pop1 <> pop2.
Proof.
  intros s. do 6 eexists.
  split; [vm_compute; reflexivity|].
  split; [vm_compute; reflexivity|].
  split; [vm_compute; reflexivity|].
  split; [vm_compute; reflexivity|].
  split; [reflexivity|]. split; [reflexivity|]. discriminate.
Qed.

(** C6 on a run of [centralLimitTheorem] and then [bootstrap], as [main]
    calls them for one sample size. *)
Lemma population_unchanged_by_estimators_witness :
  let pop := map B64.of_int [3; 1; 2; 5; 4] in
  let s := State (G := Z) {[ 0%nat := pop ]} 7 in
  let cs := [call_centralLimitTheorem 2 3; call_bootstrap 3 2] in
  heap s !! 0%nat = Some pop /\
  exists s', run_calls 0%nat cs s = Ok tt s' /\ heap s' !! 0%nat = Some pop.
Proof.
  intros pop s cs.
  assert (Hl : heap s !! 0%nat = Some pop) by apply run_example_lookup.
  split; [exact Hl|].
  destruct (run_calls 0%nat cs s) as [[] s'|p] eqn:Hrun.
  - exists s'. split; [reflexivity|].
    apply (population_unchanged_by_estimators s 0%nat pop cs s' Hl Hrun).
  - vm_compute in Hrun. discriminate.
Defined.

(** C7 as stated fails in binary64: the average of two float64 numbers need
    not be one.  On [1, 1 + 2^-52] the average is [1 + 2^-53]; [median]
    returns 1. *)
Lemma median_is_not_the_average :
  let a := B64.of_int 1 in
  let b := S754_finite false 4503599627370497 (-52) in
  let s := State (G := Z) {[ 0%nat := [a; b] ]} 7 in
  B64.valid a = true /\ B64.valid b = true /\
  exists v s', median 0%nat s = Ok v s' /\ v = a /\
               2 * Zval v <> Zval a + Zval b.
Proof.
  intros a b s. split; [reflexivity|]. split; [reflexivity|].
  do 2 eexists. split; [vm_compute; reflexivity|]. split; [reflexivity|].
  vm_compute. discriminate.
Qed.

(** C7, amended, on [4, 1, 3, 2], whose median is 2.5, and on [3, 1, 2]. *)
Lemma median_is_middle_of_sorted_witness :
  let even := map B64.of_int [4; 1; 3; 2] in
  let odd := map B64.of_int [3; 1; 2] in
  let s := State (G := Z) {[ 0%nat := even; 1%nat := odd ]} 7 in
  (heap s !! 0%nat = Some even /\ even <> [] /\
   heap s !! 1%nat = Some odd /\ odd <> []) /\
  (exists v s', median 0%nat s = Ok v s' /\
     rounds_average (B64.of_int 2) (B64.of_int 3) v /\
     v = B64.decimal 25 (-1)) /\
  (exists v s', median 1%nat s = Ok v s' /\ same_number v (B64.of_int 2)).
Proof.
  intros even odd s.
  assert (H0 : heap s !! 0%nat = Some even) by reflexivity.
  assert (H1 : heap s !! 1%nat = Some odd) by reflexivity.
  assert (Hne0 : even <> []) by discriminate.
  assert (Hne1 : odd <> []) by discriminate.
  split; [repeat split; assumption|]. split.
  - destruct (median_is_middle_of_sorted s 0%nat even H0 Hne0) as (v & s' & Hrun & Hmid).
    exists v, s'. split; [exact Hrun|]. split.
    + destruct (Hmid (map B64.of_int [1; 2; 3; 4])) as (_ & Heven & _).
      * apply (Permutation_map B64.of_int). solve_Permutation.
      * repeat constructor.
      * apply Heven; reflexivity.
    + assert (E : median 0%nat s = Ok (B64.decimal 25 (-1)) (State (<[0%nat := map B64.of_int [1; 2; 3; 4]]> (heap s)) 7))
        by (vm_compute; reflexivity).
      congruence.
  - destruct (median_is_middle_of_sorted s 1%nat odd H1 Hne1) as (v & s' & Hrun & Hmid).
    exists v, s'. split; [exact Hrun|].
    destruct (Hmid (map B64.of_int [1; 2; 3])) as (Hodd & _).
    + apply (Permutation_map B64.of_int). solve_Permutation.
    + repeat constructor.
    + apply Hodd. reflexivity.
Defined.

(** C8 as stated fails in binary64.  The sum of the two middle elements of
    [1e308, 1.7e308] overflows, and [median] returns +Inf, above the
    maximum; the sum of the two middle elements of [-Inf, +Inf] is NaN, and
    so is the value [median] returns, which is not above the minimum. *)
Lemma median_outside_minimum_and_maximum :
  (let a := B64.decimal 1 308 in
   let b := B64.decimal 17 307 in
   B64.valid a = true /\ B64.valid b = true /\ B64.ltb a b = true /\
   exists s',
     median 0%nat (State (G := Z) {[ 0%nat := [a; b] ]} 7)
     = Ok (S754_infinity false) s' /\
     B64.leb (S754_infinity false) b = false) /\
  (let a := S754_infinity true in
   let b := S754_infinity false in
   exists s',
     median 0%nat (State (G := Z) {[ 0%nat := [a; b] ]} 7) = Ok S754_nan s' /\
     B64.leb a S754_nan = false).
Proof.
  split.
  - intros a b. repeat split; try (vm_compute; reflexivity).
    eexists. split; vm_compute; reflexivity.
  - intros a b. eexists. split; vm_compute; reflexivity.
Qed.

(** C8, amended, on [4, 1, 3, 2] and on [3, 1, 2] in binary64 and on
    [4, 1, 3, 2] over the reals. *)
Lemma median_between_minimum_and_maximum_witness :
  (let data := map B64.of_int [4; 1; 3; 2] in
   let s := State (G := Z) {[ 0%nat := data ]} 7 in
   (heap s !! 0%nat = Some data /\ data <> [] /\
    Forall (fun x => B64.valid x = true /\ is_fin x = true) data /\
    (Nat.even (length data) = true ->
     is_fin (B64.add (nth (length data / 2 - 1) (sort_Float64s data) (f_of_int 0))
                     (nth (length data / 2) (sort_Float64s data) (f_of_int 0)))
     = true)) /\
   exists v s', median 0%nat s = Ok v s' /\
     forall lo hi, is_minimum lo data -> is_maximum hi data ->
                   f_le lo v /\ f_le v hi) /\
  (let data := map B64.of_int [3; 1; 2] in
   let s := State (G := Z) {[ 0%nat := data ]} 7 in
   (heap s !! 0%nat = Some data /\ Nat.even (length data) = false) /\
   exists v s', median 0%nat s = Ok v s' /\ In v data) /\
  (let data := [4; 1; 3; 2]%R in
   let s := State (G := Z) {[ 0%nat := data ]} 7 in
   (heap s !! 0%nat = Some data /\ data <> []) /\
   exists v s', median 0%nat s = Ok v s' /\
                (minimum data <= v <= maximum data)%R).
Proof.
  split; [|split].
  - intros data s.
    assert (Hl : heap s !! 0%nat = Some data) by apply run_example_lookup.
    assert (Hne : data <> []) by discriminate.
    assert (Hall : Forall (fun x => B64.valid x = true /\ is_fin x = true) data)
      by (repeat constructor).
    assert (Hsum : Nat.even (length data) = true ->
              is_fin (B64.add (nth (length data / 2 - 1) (sort_Float64s data) (f_of_int 0))
                              (nth (length data / 2) (sort_Float64s data) (f_of_int 0)))
              = true) by (intros _; vm_compute; reflexivity).
    split; [repeat split; assumption|].
    apply (proj1 median_between_minimum_and_maximum Z lcg s 0%nat data Hl Hne Hall Hsum).
  - intros data s.
    assert (Hl : heap s !! 0%nat = Some data) by apply run_example_lookup.
    assert (Hodd : Nat.even (length data) = false) by reflexivity.
    split; [split; assumption|].
    apply (proj1 (proj2 median_between_minimum_and_maximum) spec_float Z binary64 lcg
             s 0%nat data Hl Hodd).
  - intros data s.
    assert (Hl : heap s !! 0%nat = Some data) by apply run_example_lookup.
    assert (Hne : data <> []) by discriminate.
    split; [split; assumption|].
    apply (proj2 (proj2 median_between_minimum_and_maximum) Z lcg s 0%nat data Hl Hne).
Defined.

(** C9 as stated fails at [size = 0]: [generatePopulation] returns, and what
    it returns is the empty population. *)
Lemma generatePopulation_of_size_zero_returns :
  exists l s',
    generatePopulation 0 (B64.of_int 100) (B64.of_int 10) (State (G := Z) ∅ 7)
    = Ok l s' /\
    heap s' !! l = Some [].
Proof. do 2 eexists. split; vm_compute; reflexivity. Qed.

(** C9, amended, at [size = 0] and at [size = -1]. *)
Lemma generatePopulation_nonpositive_size_witness :
  let s := State (F := spec_float) (G := Z) ∅ 7 in
  (0 <= 0 /\ -1 <= 0) /\
  (exists l s', generatePopulation 0 (B64.of_int 100) (B64.of_int 10) s = Ok l s' /\
                heap s' !! l = Some [] /\ heap s !! l = None /\
                rng s' = rand_Seed (F := spec_float) 42 (rng s)) /\
  generatePopulation (-1) (B64.of_int 100) (B64.of_int 10) s
  = Panic makeslice_len_out_of_range.
Proof.
  intros s. split; [lia|]. split.
  - apply (proj1 (generatePopulation_nonpositive_size s 0 (B64.of_int 100)
                    (B64.of_int 10) ltac:(lia))).
    reflexivity.
  - apply (proj2 (generatePopulation_nonpositive_size s (-1) (B64.of_int 100)
                    (B64.of_int 10) ltac:(lia))).
    lia.
Defined.

(** C10 on a population of five numbers, three samples of two. *)
Lemma centralLimitTheorem_is_bootstrap_mean_witness :
  let pop := map B64.of_int [3; 1; 2; 5; 4] in
  let s := State (G := Z) {[ 0%nat := pop ]} 7 in
  (heap s !! 0%nat = Some pop /\ 1 <= 2 /\ 2 <= 3) /\
  result (centralLimitTheorem 0%nat 2 3 s)
  = first_of (result (bootstrap 0%nat 3 2 s)) /\
  forall a s1 b s2,
    centralLimitTheorem 0%nat 2 3 s = Ok a s1 ->
    bootstrap 0%nat 3 2 s = Ok b s2 ->
    rng s1 = rng s2.
Proof.
  intros pop s.
  assert (Hl : heap s !! 0%nat = Some pop) by apply run_example_lookup.
  split; [repeat split; (assumption || lia)|].
  apply (centralLimitTheorem_is_bootstrap_mean s 0%nat pop 2 3 Hl); lia.
Defined.

(** * Edge cases, invariants and compositions *)

(** What the functions do on empty slices and with degenerate counts, what
    they keep, and how they compose. *)

Section Edges.
Context {F G : Type} {arith : Float64 F} {random : RandSource F G}.
Implicit Types (s : @state F G) (population : slice) (pop data : list F).

(** ** Reading a slice that may be nil *)

Lemma run_mean_contents s l : mean l s = Ok (mean_of (contents s l)) s.
Proof. reflexivity. Qed.

Lemma run_standardError_contents s l :
  standardError l s = Ok (standardError_of (contents s l)) s.
Proof. reflexivity. Qed.

Lemma run_median_nil s l : contents s l = [] -> median l s = Panic index_out_of_range.
Proof.
  intros Hl. unfold median, bind, sort_Float64s_in_place, len, index, contents, set_heap.
  cbn [heap]. rewrite lookup_alter_eq. unfold contents in Hl.
  destruct (heap s !! l) as [xs|]; simpl in *; [subst xs|]; reflexivity.
Qed.

(** ** Degenerate counts *)

Lemma run_make_zero s :
  make 0 s = Ok (fresh (dom (heap s))) (State (<[fresh (dom (heap s)) := []]> (heap s)) (rng s)).
Proof. reflexivity. Qed.

Lemma run_bootstrap_sampleSize_zero s population bootstrapSamples :
  1 <= bootstrapSamples ->
  bootstrap population bootstrapSamples 0 s = Panic index_out_of_range.
Proof.
  intros HB. unfold bootstrap.
  rewrite (run_bind _ _ _ _ _ (run_make s bootstrapSamples ltac:(lia))).
  set (means := fresh (dom (heap s))). set (s1 := State _ _).
  assert (HM1 : heap s1 !! means = Some (replicate (Z.to_nat bootstrapSamples) (f_of_int 0)))
    by apply lookup_insert_eq.
  rewrite (run_bind _ _ _ _ _ (run_make s1 bootstrapSamples ltac:(lia))).
  set (medians := fresh (dom (heap s1))). set (s2 := State _ _).
  assert (HDM : medians <> means) by apply (fresh_not_allocated _ _ _ HM1).
  assert (HM2 : heap s2 !! means = Some (replicate (Z.to_nat bootstrapSamples) (f_of_int 0)))
    by (simpl; rewrite lookup_insert_ne by exact HDM; exact HM1).
  unfold for_upto. destruct (Z.to_nat bootstrapSamples) as [|c] eqn:E; [lia|].
  cbn [for_loop]. unfold bind at 1 2 3.
  rewrite run_make_zero.
  set (sample := fresh (dom (heap s2))). set (s3 := State _ _).
  assert (HSM : sample <> means) by apply (fresh_not_allocated _ _ _ HM2).
  change (Z.to_nat 0) with 0%nat. cbn [for_loop].
  unfold bind at 1. unfold ret at 1.
  unfold bind at 1. rewrite run_mean_contents.
  assert (HM3 : heap s3 !! means = Some (replicate (S c) (f_of_int 0)))
    by (simpl; rewrite lookup_insert_ne by exact HSM; exact HM2).
  unfold bind at 1.
  rewrite (run_assign s3 means _ 0 _ HM3) by (rewrite length_replicate; lia).
  set (s4 := State _ _).
  unfold bind at 1. rewrite (run_median_nil s4 sample); [reflexivity|].
  unfold contents, s4. simpl.
  rewrite lookup_insert_ne by congruence. rewrite lookup_insert_eq. reflexivity.
Qed.

Lemma run_bootstrap_negative_samples s population bootstrapSamples sampleSize :
  bootstrapSamples < 0 ->
  bootstrap population bootstrapSamples sampleSize s = Panic makeslice_len_out_of_range.
Proof.
  intros HB. unfold bootstrap, bind. rewrite run_make_panic by exact HB. reflexivity.
Qed.

Lemma run_bootstrap_negative_size s population bootstrapSamples sampleSize :
  1 <= bootstrapSamples -> sampleSize < 0 ->
  bootstrap population bootstrapSamples sampleSize s = Panic makeslice_len_out_of_range.
Proof.
  intros HB Hsize. unfold bootstrap.
  rewrite (run_bind _ _ _ _ _ (run_make s bootstrapSamples ltac:(lia))).
  set (s1 := State _ _).
  rewrite (run_bind _ _ _ _ _ (run_make s1 bootstrapSamples ltac:(lia))).
  set (s2 := State _ _).
  unfold for_upto. destruct (Z.to_nat bootstrapSamples) as [|c] eqn:E; [lia|].
  cbn [for_loop]. unfold bind at 1 2 3.
  rewrite run_make_panic by exact Hsize. reflexivity.
Qed.

Lemma run_centralLimitTheorem_negative_samples s population sampleSize numSamples :
  numSamples < 0 ->
  centralLimitTheorem population sampleSize numSamples s = Panic makeslice_len_out_of_range.
Proof.
  intros HN. unfold centralLimitTheorem, bind. rewrite run_make_panic by exact HN. reflexivity.
Qed.

Lemma run_centralLimitTheorem_negative_size s population sampleSize numSamples :
  1 <= numSamples -> sampleSize < 0 ->
  centralLimitTheorem population sampleSize numSamples s = Panic makeslice_len_out_of_range.
Proof.
  intros HN Hsize. unfold centralLimitTheorem.
  rewrite (run_bind _ _ _ _ _ (run_make s numSamples ltac:(lia))).
  set (s1 := State _ _).
  unfold for_upto. destruct (Z.to_nat numSamples) as [|c] eqn:E; [lia|].
  cbn [for_loop]. unfold bind at 1 2 3.
  rewrite run_make_panic by exact Hsize. reflexivity.
Qed.

(** With [sampleSize = 0] the loop of [centralLimitTheorem] stores the mean
    of the empty sample at every index, and draws nothing. *)
Lemma run_clt_loop_zero population sampleMeans count :
  forall (done : list F) s,
  heap s !! sampleMeans = Some (done ++ replicate count (f_of_int 0)) ->
  exists s',
    for_loop count (Z.of_nat (length done))
      (fun i =>
         bind (make 0) (fun sample =>
         bind (for_upto 0 (fun j =>
                 bind (len population) (fun n =>
                 bind (Intn n) (fun k =>
                 bind (index population k) (fun v => assign sample j v)))))
              (fun _ =>
         bind (mean sample) (fun m => assign sampleMeans i m)))) s
    = Ok tt s' /\
    heap s' !! sampleMeans = Some (done ++ replicate count (mean_of [])) /\
    rng s' = rng s.
Proof.
  induction count as [|c IH]; intros done s Hmeans.
  - exists s. simpl in *. auto.
  - cbn [for_loop]. unfold bind at 1 2. rewrite run_make_zero.
    set (sample := fresh (dom (heap s))). set (s1 := State _ _).
    assert (HSM : sample <> sampleMeans) by apply (fresh_not_allocated _ _ _ Hmeans).
    unfold for_upto. change (Z.to_nat 0) with 0%nat. cbn [for_loop].
    unfold bind at 1. unfold ret at 1.
    assert (H1 : heap s1 !! sample = Some []) by apply lookup_insert_eq.
    rewrite (run_bind _ _ _ _ _ (run_mean s1 sample [] H1)).
    assert (H1M : heap s1 !! sampleMeans = Some (done ++ replicate (S c) (f_of_int 0)))
      by (simpl; rewrite lookup_insert_ne by exact HSM; exact Hmeans).
    rewrite (run_assign s1 sampleMeans _ (Z.of_nat (length done)) _ H1M)
      by (rewrite length_app; simpl; lia).
    rewrite Nat2Z.id. cbn [replicate]. rewrite insert_at_end by congruence.
    set (s2 := State _ _).
    replace (Z.of_nat (length done) + 1)
      with (Z.of_nat (length (done ++ [mean_of []])))
      by (rewrite length_app; simpl; lia).
    destruct (IH (done ++ [mean_of []]) s2) as (s' & Hrun & HM' & Hg').
    + simpl. apply lookup_insert_eq.
    + exists s'. rewrite <- !app_assoc in HM'. auto.
Qed.

Lemma run_centralLimitTheorem_sampleSize_zero s population numSamples :
  0 <= numSamples ->
  exists s',
    centralLimitTheorem population 0 numSamples s
    = Ok (standardError_of (replicate (Z.to_nat numSamples) (mean_of []))) s' /\
    rng s' = rng s.
Proof.
  intros HN. unfold centralLimitTheorem.
  rewrite (run_bind _ _ _ _ _ (run_make s _ HN)).
  set (means := fresh (dom (heap s))). set (s1 := State _ _).
  destruct (run_clt_loop_zero population means (Z.to_nat numSamples) [] s1)
    as (s2 & Hrun & HM & Hg).
  - simpl. apply lookup_insert_eq.
  - simpl in Hrun, HM, Hg. unfold for_upto.
    rewrite (run_bind _ _ _ _ _ Hrun).
    rewrite (run_standardError s2 means _ HM).
    exists s2. split; [reflexivity|exact Hg].
Qed.

Lemma run_bootstrap_no_samples s population sampleSize :
  exists s',
    bootstrap population 0 sampleSize s
    = Ok (standardError_of [], standardError_of []) s' /\
    rng s' = rng s.
Proof.
  unfold bootstrap. unfold bind at 1. rewrite run_make_zero.
  set (s1 := State _ _). unfold bind at 1. rewrite run_make_zero.
  set (s2 := State _ _). unfold for_upto. change (Z.to_nat 0) with 0%nat.
  cbn [for_loop]. unfold bind at 1. unfold ret at 1.
  unfold bind at 1. rewrite run_standardError_contents.
  unfold bind at 1. rewrite run_standardError_contents.
  exists s2. split; [|reflexivity]. unfold ret. f_equal.
  assert (H1 : contents s2 (fresh (dom (heap s))) = []).
  { unfold contents, s2. simpl. rewrite lookup_insert_ne.
    - unfold s1. simpl. rewrite lookup_insert_eq. reflexivity.
    - apply (fresh_not_allocated s1 _ []). unfold s1. simpl. apply lookup_insert_eq. }
  assert (H2 : contents s2 (fresh (dom (heap s1))) = []).
  { unfold contents, s2. simpl. rewrite lookup_insert_eq. reflexivity. }
  rewrite H1, H2. reflexivity.
Qed.

Lemma run_centralLimitTheorem_no_samples s population sampleSize :
  exists s',
    centralLimitTheorem population sampleSize 0 s = Ok (standardError_of []) s' /\
    rng s' = rng s.
Proof.
  unfold centralLimitTheorem. unfold bind at 1. rewrite run_make_zero.
  set (s1 := State _ _). unfold for_upto. change (Z.to_nat 0) with 0%nat.
  cbn [for_loop]. unfold bind at 1. unfold ret at 1.
  rewrite run_standardError_contents.
  exists s1. split; [|reflexivity]. f_equal.
  unfold contents, s1. simpl. rewrite lookup_insert_eq. reflexivity.
Qed.

End Edges.

Section Compositions.
Context {F G : Type} {arith : Float64 F} {random : RandSource F G}.
Implicit Types (s : @state F G) (population : slice) (pop data : list F).

(** ** Sorting twice, and sorting a rearrangement *)

Section SortedTwice.
Context {order : LessOrder F}.

Lemma sort_Float64s_idempotent data :
  sort_Float64s (sort_Float64s data) = sort_Float64s data.
Proof. apply sort_Float64s_of_ascending, sort_Float64s_ascending. Qed.

Lemma median_of_sorted data : median_of (sort_Float64s data) = median_of data.
Proof.
  unfold median_of. rewrite sort_Float64s_idempotent, sort_Float64s_length. reflexivity.
Qed.

Lemma run_median_twice s l v s' :
  median l s = Ok v s' -> median l s' = Ok v s'.
Proof.
  intros Hrun. destruct (heap s !! l) as [data|] eqn:Hl.
  - destruct data as [|x data].
    + rewrite (run_median_empty s l Hl) in Hrun. discriminate.
    + rewrite (run_median s l (x :: data) Hl) in Hrun by discriminate.
      injection Hrun as <- <-.
      set (sorted := sort_Float64s (x :: data)).
      assert (Hne : sorted <> []).
      { intros E. apply (f_equal length) in E. unfold sorted in E.
        rewrite sort_Float64s_length in E. discriminate. }
      rewrite (run_median _ l sorted) by (apply lookup_insert_eq || exact Hne).
      cbn [heap rng]. rewrite insert_insert_eq.
      unfold sorted. rewrite sort_Float64s_idempotent, median_of_sorted. reflexivity.
  - rewrite run_median_nil in Hrun by (unfold contents; rewrite Hl; reflexivity).
    discriminate.
Qed.

Lemma sort_Float64s_unique data1 data2 :
  Permutation data1 data2 ->
  (forall x y, In x data1 -> In y data1 -> f_le x y -> f_le y x -> x = y) ->
  sort_Float64s data1 = sort_Float64s data2.
Proof.
  intros Hperm Hanti.
  assert (Htrans : Transitive (f_le (F := F))) by (intros x y z; apply le_trans).
  apply (StronglySorted_unique_strong f_le).
  - intros x y Hx Hy. apply Hanti.
    + apply (Permutation_in _ (sort_Float64s_Permutation data1)), list_elem_of_In, Hx.
    + apply (Permutation_in _ (Permutation_sym Hperm)).
      apply (Permutation_in _ (sort_Float64s_Permutation data2)), list_elem_of_In, Hy.
  - apply sort_Float64s_ascending.
  - apply sort_Float64s_ascending.
  - rewrite !sort_Float64s_Permutation. exact Hperm.
Qed.

Lemma median_of_Permutation data1 data2 :
  Permutation data1 data2 ->
  (forall x y, In x data1 -> In y data1 -> f_le x y -> f_le y x -> x = y) ->
  median_of data1 = median_of data2.
Proof.
  intros Hperm Hanti. unfold median_of.
  rewrite (sort_Float64s_unique data1 data2 Hperm Hanti).
  rewrite (Permutation_length Hperm). reflexivity.
Qed.

End SortedTwice.

(** ** [generatePopulation] and what follows it *)

Lemma normal_draws_nonempty (mean stddev : F) size g :
  1 <= size -> fst (normal_draws mean stddev (Z.to_nat size) g) <> [].
Proof.
  intros Hsize E. apply (f_equal length) in E.
  rewrite normal_draws_length in E. simpl in E. lia.
Qed.

Lemma normal_draws_take (mean stddev : F) (a b : nat) (g : G) :
  fst (normal_draws mean stddev a g)
  = take a (fst (normal_draws mean stddev (a + b) g)).
Proof.
  revert g. induction a as [|a IH]; intros g; [reflexivity|].
  cbn [Nat.add normal_draws].
  destruct (rand_NormFloat64 g) as [v g1]. specialize (IH g1).
  destruct (normal_draws mean stddev a g1) as [vs g2].
  destruct (normal_draws mean stddev (a + b) g1) as [ws g3].
  cbn [fst take] in *. rewrite IH. reflexivity.
Qed.

Lemma run_generatePopulation_fresh s size (mean stddev : F) l s' :
  generatePopulation size mean stddev s = Ok l s' ->
  heap s !! l = None /\
  (forall l', l' <> l -> heap s' !! l' = heap s !! l') /\
  heap s' !! l = Some (fst (normal_draws mean stddev (Z.to_nat size) (rand_Seed 42 (rng s)))) /\
  rng s' = snd (normal_draws mean stddev (Z.to_nat size) (rand_Seed 42 (rng s))).
Proof.
  intros Hrun. destruct (Z_lt_le_dec size 0) as [Hneg|Hpos].
  - unfold generatePopulation, bind in Hrun.
    rewrite run_make_panic in Hrun by exact Hneg. discriminate.
  - rewrite run_generatePopulation in Hrun by exact Hpos.
    injection Hrun as <- <-. cbn [heap rng].
    split; [apply not_elem_of_dom, is_fresh|].
    split; [|split; [apply lookup_insert_eq|reflexivity]].
    intros l' Hne. apply lookup_insert_ne. congruence.
Qed.

Lemma run_generatePopulation_then_bootstrap s size (mean stddev : F)
    bootstrapSamples sampleSize :
  1 <= size -> 0 <= bootstrapSamples -> 1 <= sampleSize ->
  let drawn := normal_draws mean stddev (Z.to_nat size) (rand_Seed 42 (rng s)) in
  let samples :=
    fst (resamples (fst drawn) (Z.to_nat sampleSize) (Z.to_nat bootstrapSamples)
                   (snd drawn)) in
  result (bind (generatePopulation size mean stddev)
               (fun population => bootstrap population bootstrapSamples sampleSize) s)
  = inl (standardError_of (map mean_of samples),
         standardError_of (map median_of samples)).
Proof.
  intros Hsize HB Hn drawn samples.
  rewrite (run_bind _ _ _ _ _ (run_generatePopulation s size mean stddev ltac:(lia))).
  set (s1 := State _ _).
  destruct (run_bootstrap s1 (fresh (dom (heap s))) (fst drawn) bootstrapSamples sampleSize)
    as (s2 & Hrun & _); try assumption.
  - apply lookup_insert_eq.
  - apply normal_draws_nonempty, Hsize.
  - rewrite Hrun. reflexivity.
Qed.

(** ** The loop of [main] *)

Lemma reports_of_sampleSizes pop bootstrapSamples numSamples sampleSizes g :
  map report_sampleSize (reports_of pop bootstrapSamples numSamples sampleSizes g)
  = sampleSizes.
Proof.
  revert g. induction sampleSizes as [|n rest IH]; intros g; [reflexivity|].
  cbn [reports_of].
  destruct (resamples pop (Z.to_nat n) (Z.to_nat numSamples) g) as [c g1].
  destruct (resamples pop (Z.to_nat n) (Z.to_nat bootstrapSamples) g1) as [b g2].
  simpl. rewrite IH. reflexivity.
Qed.

Lemma lookup_unmodified {A} (m : M A) s (a : A) s' l xs :
  modifies_only ∅ m -> m s = Ok a s' -> heap s !! l = Some xs -> heap s' !! l = Some xs.
Proof.
  intros Hm Hrun Hl. destruct (Hm s a s' Hrun) as [_ Hsame].
  rewrite Hsame; [exact Hl| |set_solver].
  apply elem_of_dom. eauto.
Qed.

Lemma run_main_loop population pop bootstrapSamples numSamples sampleSizes :
  pop <> [] -> 0 <= bootstrapSamples -> 0 <= numSamples ->
  Forall (fun sampleSize => 1 <= sampleSize) sampleSizes ->
  forall s, heap s !! population = Some pop ->
  exists s',
    main_loop population bootstrapSamples numSamples sampleSizes s
    = Ok (reports_of pop bootstrapSamples numSamples sampleSizes (rng s)) s' /\
    heap s' !! population = Some pop.
Proof.
  intros Hne HB HN Hsizes. induction Hsizes as [|n rest Hn _ IH]; intros s Hpop.
  - exists s. split; [reflexivity|exact Hpop].
  - cbn [main_loop reports_of].
    destruct (run_centralLimitTheorem s population pop n numSamples Hpop Hne)
      as (s1 & Hclt & Hg1); [lia|exact HN|].
    rewrite (run_bind _ _ _ _ _ Hclt).
    pose proof (lookup_unmodified _ _ _ _ _ _
                  (modifies_only_centralLimitTheorem population n numSamples) Hclt Hpop)
      as Hpop1.
    destruct (run_bootstrap s1 population pop bootstrapSamples n Hpop1 Hne HB Hn)
      as (s2 & Hboot & Hg2).
    rewrite (run_bind _ _ _ _ _ Hboot).
    pose proof (lookup_unmodified _ _ _ _ _ _
                  (modifies_only_bootstrap population bootstrapSamples n) Hboot Hpop1)
      as Hpop2.
    destruct (IH s2 Hpop2) as (s3 & Hrest & Hpop3).
    rewrite (run_bind _ _ _ _ _ Hrest).
    exists s3. split; [|exact Hpop3].
    rewrite Hg1 in Hg2.
    destruct (resamples pop (Z.to_nat n) (Z.to_nat numSamples) (rng s)) as [c g1].
    cbn [fst snd] in *. rewrite Hg1.
    destruct (resamples pop (Z.to_nat n) (Z.to_nat bootstrapSamples) g1) as [b g2].
    cbn [fst snd] in *. rewrite Hg2. reflexivity.
Qed.

Lemma run_main s :
  let drawn := normal_draws (f_of_int 100) (f_of_int 10) (Z.to_nat 10000) (rand_Seed 42 (rng s)) in
  exists s',
    main s = Ok (reports_of (fst drawn) 100 1000 [25; 100; 225; 400] (snd drawn)) s'.
Proof.
  intros drawn. unfold main.
  rewrite (run_bind _ _ _ _ _ (run_generatePopulation s 10000 _ _ ltac:(lia))).
  set (s1 := State _ _).
  destruct (run_main_loop (fresh (dom (heap s))) (fst drawn) 100 1000 [25; 100; 225; 400])
    with (s := s1) as (s2 & Hrun & _).
  - apply normal_draws_nonempty. lia.
  - lia.
  - lia.
  - repeat constructor; lia.
  - apply lookup_insert_eq.
  - exists s2. exact Hrun.
Qed.

End Compositions.

(** ** Signs in binary64 *)

Lemma round_aux_sign mx ex lx :
  sign_clear (binary_round_aux 53 1024 false mx ex lx) = true.
Proof.
  unfold binary_round_aux.
  destruct (shr_fexp 53 1024 mx ex lx) as [mrs' e'].
  destruct (shr_fexp 53 1024 _ e' loc_Exact) as [mrs'' e''].
  destruct (shr_m mrs''); [reflexivity| |reflexivity].
  destruct (e'' <=? 1024 - 53); reflexivity.
Qed.

Lemma round_sign mx ex : sign_clear (binary_round 53 1024 false mx ex) = true.
Proof.
  unfold binary_round. destruct (shl_align mx ex _) as [mz ez]. apply round_aux_sign.
Qed.

Lemma B64_of_int_sign n : 0 <= n -> sign_clear (B64.of_int n) = true.
Proof.
  intros Hn. unfold B64.of_int, binary_normalize.
  destruct n as [|p|p]; [reflexivity|apply round_sign|lia].
Qed.

Lemma B64_add_sign x y :
  sign_clear x = true -> sign_clear y = true -> sign_clear (B64.add x y) = true.
Proof.
  intros Hx Hy.
  destruct x as [[|]|[|]| |[|] mx ex]; try discriminate;
  destruct y as [[|]|[|]| |[|] my ey]; try discriminate; try reflexivity.
  unfold B64.add, SFadd. cbn [cond_Zopp Z.add binary_normalize]. apply round_sign.
Qed.

Lemma B64_mul_sign x y :
  sign_clear x = true -> sign_clear y = true -> sign_clear (B64.mul x y) = true.
Proof.
  intros Hx Hy.
  destruct x as [[|]|[|]| |[|] mx ex]; try discriminate;
  destruct y as [[|]|[|]| |[|] my ey]; try discriminate; try reflexivity.
  unfold B64.mul, SFmul. cbn [xorb]. apply round_aux_sign.
Qed.

Lemma B64_mul_self_sign x : sign_clear (B64.mul x x) = true.
Proof.
  destruct x as [[|]|[|]| |[|] mx ex]; try reflexivity;
    unfold B64.mul, SFmul; cbn [xorb]; apply round_aux_sign.
Qed.

Lemma B64_div_sign x y :
  sign_clear x = true -> sign_clear y = true -> sign_clear (B64.div x y) = true.
Proof.
  intros Hx Hy.
  destruct x as [[|]|[|]| |[|] mx ex]; try discriminate;
  destruct y as [[|]|[|]| |[|] my ey]; try discriminate; try reflexivity.
  unfold B64.div, SFdiv.
  destruct (SFdiv_core_binary _ _ _ _ _ _) as [[mz ez] lz].
  cbn [xorb]. apply round_aux_sign.
Qed.

Lemma B64_sqrt_sign x : sign_clear x = true -> sign_clear (B64.sqrt x) = true.
Proof.
  intros Hx. destruct x as [[|]|[|]| |[|] mx ex]; try discriminate; try reflexivity.
  unfold B64.sqrt, SFsqrt.
  destruct (SFsqrt_core_binary _ _ _ _) as [[mz ez] lz]. apply round_aux_sign.
Qed.

Lemma B64_ldexp_sign x e : sign_clear x = true -> sign_clear (SFldexp 53 1024 x e) = true.
Proof.
  intros Hx. destruct x as [[|]|[|]| |[|] mx ex]; try discriminate; try reflexivity.
  unfold SFldexp. apply round_sign.
Qed.

(** [math.Pow(x, 2)] is never less than zero. *)
Lemma B64_pow2_sign x : sign_clear (B64.pow2 x) = true.
Proof.
  destruct x as [s|s| |s m e]; try reflexivity.
  unfold B64.pow2.
  destruct (SFeqb _ _); [reflexivity|].
  destruct (SFfrexp B64.prec B64.emax (S754_finite s m e)) as [x1 xe].
  pose proof (B64_mul_self_sign x1) as Hsq.
  destruct (B64.ltb (B64.mul x1 x1) (B64.decimal 5 (-1))).
  - apply B64_ldexp_sign, B64_mul_sign; [reflexivity|].
    apply B64_add_sign; exact Hsq.
  - apply B64_ldexp_sign, B64_mul_sign; [reflexivity|exact Hsq].
Qed.

Lemma sign_clear_not_less x : sign_clear x = true -> B64.ltb x (B64.of_int 0) = false.
Proof. destruct x as [[|]|[|]| |[|] mx ex]; try discriminate; reflexivity. Qed.

Lemma B64_variance_sign (mean : spec_float) (data : list spec_float) (acc : spec_float) :
  sign_clear acc = true ->
  sign_clear (fold_left (fun variance value => (variance + f_pow2 (value - mean))%f64)
                        data acc) = true.
Proof.
  revert acc. induction data as [|x data IH]; intros acc Hacc; [exact Hacc|].
  simpl fold_left. apply IH. apply B64_add_sign; [exact Hacc|apply B64_pow2_sign].
Qed.

Lemma B64_standardError_of_sign (data : list spec_float) :
  sign_clear (standardError_of data) = true.
Proof.
  destruct data as [|x data]; [reflexivity|].
  unfold standardError_of. set (n := Z.of_nat (length (x :: data))).
  assert (Hn : 1 <= n) by (unfold n; simpl; lia).
  apply B64_div_sign; [apply B64_sqrt_sign, B64_div_sign|apply B64_sqrt_sign].
  - apply B64_variance_sign. reflexivity.
  - apply B64_of_int_sign. lia.
  - apply B64_of_int_sign. lia.
Qed.

(** ** NaN in the data *)

Lemma B64_add_nan_r x : B64.add x S754_nan = S754_nan.
Proof. destruct x; reflexivity. Qed.

Lemma B64_sub_nan_r x : B64.sub x S754_nan = S754_nan.
Proof. destruct x; reflexivity. Qed.

Lemma B64_fold_nan (f : spec_float -> spec_float) (data : list spec_float) :
  fold_left (fun acc value => (acc + f value)%f64) data S754_nan = S754_nan.
Proof. induction data as [|x data IH]; [reflexivity|exact IH]. Qed.

Lemma B64_sum_loop_nan (data : list spec_float) :
  In S754_nan data -> sum_loop data = S754_nan.
Proof.
  unfold sum_loop. generalize (f_of_int (F := spec_float) 0).
  induction data as [|x data IH]; intros acc Hin; [destruct Hin|].
  simpl fold_left. destruct Hin as [->|Hin].
  - change (f_add acc S754_nan) with (B64.add acc S754_nan). rewrite B64_add_nan_r.
    exact (B64_fold_nan (fun v => v) data).
  - apply IH, Hin.
Qed.

Lemma B64_mean_of_nan (data : list spec_float) :
  In S754_nan data -> mean_of data = S754_nan.
Proof. intros Hin. unfold mean_of. rewrite (B64_sum_loop_nan data Hin). reflexivity. Qed.

Lemma B64_deviations_nan (data : list spec_float) (acc : spec_float) :
  data <> [] ->
  fold_left (fun variance value => (variance + f_pow2 (value - S754_nan))%f64) data acc
  = S754_nan.
Proof.
  intros Hne. destruct data as [|x data]; [congruence|]. simpl fold_left.
  change (f_sub x S754_nan) with (B64.sub x S754_nan). rewrite B64_sub_nan_r.
  change (f_pow2 S754_nan) with S754_nan.
  change (f_add acc S754_nan) with (B64.add acc S754_nan). rewrite B64_add_nan_r.
  exact (B64_fold_nan (fun value => B64.pow2 (B64.sub value S754_nan)) data).
Qed.

Lemma B64_standardError_of_nan (data : list spec_float) :
  In S754_nan data -> standardError_of data = S754_nan.
Proof.
  intros Hin. unfold standardError_of. rewrite (B64_mean_of_nan data Hin).
  rewrite B64_deviations_nan by (intros ->; destruct Hin). reflexivity.
Qed.

Lemma B64_standardError_of_nans (k : nat) :
  standardError_of (replicate k S754_nan) = S754_nan.
Proof.
  destruct k as [|k]; [reflexivity|].
  apply B64_standardError_of_nan. left. reflexivity.
Qed.

(** ** Numbers that [Less] does not tell apart *)

Lemma B64_rank_injective (x y : spec_float) :
  B64.rank x = B64.rank y -> x <> S754_zero true -> y <> S754_zero true -> x = y.
Proof.
  intros E Hx Hy.
  destruct x as [[|]|[|]| |[|] mx ex]; destruct y as [[|]|[|]| |[|] my ey];
    simpl in E; try congruence; injection E; intros; f_equal; lia.
Qed.

Lemma B64_le_antisym (x y : spec_float) :
  x <> S754_zero true -> y <> S754_zero true ->
  f_le x y -> f_le y x -> x = y.
Proof.
  intros Hx Hy Hxy Hyx. unfold f_le in *. simpl in Hxy, Hyx.
  apply B64_not_less_rank in Hxy, Hyx.
  apply B64_rank_injective; [|assumption|assumption].
  destruct (B64.rank x) as [[a1 a2] a3], (B64.rank y) as [[b1 b2] b3].
  simpl in Hxy, Hyx. f_equal; [f_equal|]; lia.
Qed.

(** ** One element *)

Lemma B64_mean_of_one (x : spec_float) :
  B64.valid x = true -> x <> S754_zero true -> mean_of [x] = x.
Proof.
  intros Hv Hz. destruct (B64.is_nan x) eqn:Hnan.
  - destruct x; try discriminate. reflexivity.
  - rewrite (B64_mean_of_single x Hv Hnan).
    destruct x as [[|]|s| |s m e]; congruence.
Qed.

Lemma median_of_one {F} {arith : Float64 F} (x : F) : median_of [x] = x.
Proof. reflexivity. Qed.

(** ** An infinity in the data *)

Lemma B64_of_int_positive n :
  1 <= n ->
  B64.of_int n = S754_infinity false \/ exists m e, B64.of_int n = S754_finite false m e.
Proof.
  intros Hn. destruct n as [|p|p]; try lia.
  unfold B64.of_int, binary_normalize, B64.prec, B64.emax.
  destruct (binary_round_spec false p 0 ltac:(lia))
    as (R & _ & _ & _ & [(_ & m & e & -> & _)|(_ & ->)]); eauto.
Qed.

Lemma B64_add_to_infinity s acc :
  B64.add acc (S754_infinity s) = S754_infinity s \/ B64.add acc (S754_infinity s) = S754_nan.
Proof. destruct acc as [[|]|[|]| |[|] m e], s; simpl; auto. Qed.

Lemma B64_add_from_infinity s acc y :
  acc = S754_infinity s \/ acc = S754_nan ->
  B64.add acc y = S754_infinity s \/ B64.add acc y = S754_nan.
Proof.
  intros [->| ->]; [|right; reflexivity].
  destruct y as [[|]|[|]| |[|] m e], s; simpl; auto.
Qed.

Lemma B64_sum_from_infinity s (data : list spec_float) acc :
  acc = S754_infinity s \/ acc = S754_nan ->
  let sum := fold_left (fun sum value => (sum + value)%f64) data acc in
  sum = S754_infinity s \/ sum = S754_nan.
Proof.
  revert acc. induction data as [|x data IH]; intros acc Hacc; [exact Hacc|].
  simpl. apply IH. apply B64_add_from_infinity, Hacc.
Qed.

Lemma B64_sum_with_infinity s (data : list spec_float) acc :
  In (S754_infinity s) data ->
  let sum := fold_left (fun sum value => (sum + value)%f64) data acc in
  sum = S754_infinity s \/ sum = S754_nan.
Proof.
  revert acc. induction data as [|x data IH]; intros acc Hin; [destruct Hin|].
  simpl. destruct Hin as [->|Hin].
  - apply B64_sum_from_infinity, B64_add_to_infinity.
  - apply IH, Hin.
Qed.

Lemma B64_mean_of_with_infinity s (data : list spec_float) :
  In (S754_infinity s) data ->
  mean_of data = S754_infinity s \/ mean_of data = S754_nan.
Proof.
  intros Hin. unfold mean_of, sum_loop.
  assert (Hn : 1 <= Z.of_nat (length data)) by (destruct data; [destruct Hin|simpl; lia]).
  destruct (B64_sum_with_infinity s data (f_of_int 0) Hin) as [-> | ->];
    [|right; reflexivity].
  change (f_of_int (Z.of_nat (length data))) with (B64.of_int (Z.of_nat (length data))).
  destruct (B64_of_int_positive _ Hn) as [->|(m & e & ->)]; destruct s; simpl; auto.
Qed.

Lemma B64_fold_to_nan (f : spec_float -> spec_float) (data : list spec_float) acc :
  (exists x, In x data /\ f x = S754_nan) ->
  fold_left (fun acc value => (acc + f value)%f64) data acc = S754_nan.
Proof.
  revert acc. induction data as [|y data IH]; intros acc (x & Hin & Hx); [destruct Hin|].
  simpl fold_left. destruct Hin as [->|Hin].
  - rewrite Hx. change (f_add acc S754_nan) with (B64.add acc S754_nan).
    rewrite B64_add_nan_r. apply B64_fold_nan.
  - apply IH. eauto.
Qed.

Lemma B64_standardError_of_infinity s (data : list spec_float) :
  In (S754_infinity s) data -> standardError_of data = S754_nan.
Proof.
  intros Hin. unfold standardError_of.
  rewrite (B64_fold_to_nan (fun value => f_pow2 (value - mean_of data)%f64)).
  - reflexivity.
  - exists (S754_infinity s). split; [exact Hin|].
    destruct (B64_mean_of_with_infinity s data Hin) as [-> | ->]; destruct s; reflexivity.
Qed.

Lemma B64_standardError_of_not_finite (data : list spec_float) :
  Exists (fun x => is_fin x = false) data -> standardError_of data = S754_nan.
Proof.
  intros Hex. apply Exists_exists in Hex as (x & Hin & Hx).
  apply list_elem_of_In in Hin.
  destruct x as [s|s| |s m e]; try discriminate.
  - apply (B64_standardError_of_infinity s), Hin.
  - apply B64_standardError_of_nan, Hin.
Qed.

(** ** How much of the random source is used *)

Section Draws.
Context {F G : Type} {arith : Float64 F} {random : RandSource F G}.
Implicit Types (s : @state F G) (population : slice) (pop data : list F).

Lemma draw_indices_add n (a b : nat) (g : G) :
  snd (draw_indices n (a + b) g) = snd (draw_indices n b (snd (draw_indices n a g))).
Proof.
  revert g. induction a as [|a IH]; intros g; [reflexivity|].
  cbn [Nat.add draw_indices].
  destruct (rand_Intn n g) as [k g1]. specialize (IH g1).
  destruct (draw_indices n (a + b) g1) as [ks g2].
  destruct (draw_indices n a g1) as [ks' g2']. exact IH.
Qed.

Lemma resample_source pop sampleSize (g : G) :
  snd (resample pop sampleSize g)
  = snd (draw_indices (Z.of_nat (length pop)) sampleSize g).
Proof.
  unfold resample. destruct (draw_indices _ sampleSize g) as [ks g']. reflexivity.
Qed.

Lemma resamples_source pop sampleSize count (g : G) :
  snd (resamples pop sampleSize count g)
  = snd (draw_indices (Z.of_nat (length pop)) (count * sampleSize) g).
Proof.
  revert g. induction count as [|c IH]; intros g; [reflexivity|].
  cbn [resamples Nat.mul]. rewrite draw_indices_add.
  pose proof (resample_source pop sampleSize g) as Hone.
  destruct (resample pop sampleSize g) as [smp g1]. cbn [snd] in Hone.
  rewrite <- Hone. specialize (IH g1).
  destruct (resamples pop sampleSize c g1) as [ss g2]. exact IH.
Qed.

Lemma to_nat_product (a b : Z) :
  0 <= a -> 0 <= b -> (Z.to_nat a * Z.to_nat b)%nat = Z.to_nat (a * b).
Proof. intros Ha Hb. rewrite Z2Nat.inj_mul by assumption. reflexivity. Qed.

(** ** What [bootstrap] and [centralLimitTheorem] return is a standard error *)

Lemma bootstrap_returns_standardErrors s population bootstrapSamples sampleSize a b s' :
  bootstrap population bootstrapSamples sampleSize s = Ok (a, b) s' ->
  exists means medians : list F,
    a = standardError_of means /\ b = standardError_of medians.
Proof.
  unfold bootstrap. unfold bind at 1.
  destruct (make bootstrapSamples s) as [means s1|]; [|discriminate].
  unfold bind at 1.
  destruct (make bootstrapSamples s1) as [medians s2|]; [|discriminate].
  unfold bind at 1.
  destruct (for_upto bootstrapSamples _ s2) as [[] s3|]; [|discriminate].
  unfold bind at 1. rewrite run_standardError_contents.
  unfold bind at 1. rewrite run_standardError_contents.
  unfold ret. intros [= <- <- _]. eauto.
Qed.

Lemma centralLimitTheorem_returns_standardError s population sampleSize numSamples a s' :
  centralLimitTheorem population sampleSize numSamples s = Ok a s' ->
  exists sampleMeans : list F, a = standardError_of sampleMeans.
Proof.
  unfold centralLimitTheorem. unfold bind at 1.
  destruct (make numSamples s) as [sampleMeans s1|]; [|discriminate].
  unfold bind at 1.
  destruct (for_upto numSamples _ s1) as [[] s2|]; [|discriminate].
  rewrite run_standardError_contents. intros [= <- _]. eauto.
Qed.

End Draws.

(** ** Data that is not negative *)

Lemma B64_add_not_negative x y :
  B64.ltb x (B64.of_int 0) = false -> B64.ltb y (B64.of_int 0) = false ->
  B64.ltb (B64.add x y) (B64.of_int 0) = false.
Proof.
  intros Hx Hy.
  destruct x as [[|]|[|]| |[|] mx ex]; try discriminate;
  destruct y as [[|]|[|]| |[|] my ey]; try discriminate; try reflexivity.
  apply sign_clear_not_less. unfold B64.add, SFadd.
  cbn [cond_Zopp Z.add binary_normalize]. apply round_sign.
Qed.

Lemma B64_div_not_negative x n :
  1 <= n ->
  B64.ltb x (B64.of_int 0) = false ->
  B64.ltb (B64.div x (B64.of_int n)) (B64.of_int 0) = false.
Proof.
  intros Hn Hx.
  destruct (B64_of_int_positive n Hn) as [->|(m & e & ->)];
    destruct x as [[|]|[|]| |[|] mx ex]; try discriminate; try reflexivity.
  apply sign_clear_not_less. unfold B64.div, SFdiv.
  destruct (SFdiv_core_binary _ _ _ _ _ _) as [[mz ez] lz].
  cbn [xorb]. apply round_aux_sign.
Qed.

Lemma B64_sum_not_negative (data : list spec_float) acc :
  B64.ltb acc (B64.of_int 0) = false ->
  Forall (fun x => B64.ltb x (B64.of_int 0) = false) data ->
  B64.ltb (fold_left (fun sum value => (sum + value)%f64) data acc) (B64.of_int 0) = false.
Proof.
  intros Hacc Hall. revert acc Hacc.
  induction Hall as [|x data Hx _ IH]; intros acc Hacc; [exact Hacc|].
  simpl fold_left. apply IH. apply B64_add_not_negative; assumption.
Qed.

Lemma B64_mean_of_not_negative (data : list spec_float) :
  Forall (fun x => B64.ltb x (B64.of_int 0) = false) data ->
  B64.ltb (mean_of data) (B64.of_int 0) = false.
Proof.
  intros Hall. destruct data as [|x data]; [reflexivity|].
  unfold mean_of, sum_loop. apply B64_div_not_negative; [simpl; lia|].
  apply B64_sum_not_negative; [reflexivity|exact Hall].
Qed.

Lemma B64_pick_not_negative (data : list spec_float) k :
  Forall (fun x => B64.ltb x (B64.of_int 0) = false) data ->
  B64.ltb (pick data k) (B64.of_int 0) = false.
Proof.
  intros Hall. unfold pick.
  destruct (nth_in_or_default (Z.to_nat k) data (f_of_int 0)) as [Hin| ->];
    [|reflexivity].
  rewrite Forall_forall in Hall. apply Hall, list_elem_of_In, Hin.
Qed.

Lemma B64_median_of_not_negative (data : list spec_float) :
  Forall (fun x => B64.ltb x (B64.of_int 0) = false) data ->
  B64.ltb (median_of data) (B64.of_int 0) = false.
Proof.
  intros Hall.
  assert (Hsorted : Forall (fun x => B64.ltb x (B64.of_int 0) = false)
                           (sort_Float64s data))
    by (rewrite sort_Float64s_Permutation; exact Hall).
  unfold median_of. destruct (Z.rem _ 2 =? 0).
  - apply (B64_div_not_negative _ 2); [lia|].
    apply B64_add_not_negative; apply B64_pick_not_negative, Hsorted.
  - apply B64_pick_not_negative, Hsorted.
Qed.

(** ** The properties *)

Section Further.
Context {F G : Type} {arith : Float64 F} {random : RandSource F G}.
Implicit Types (s : @state F G) (population : slice) (pop data : list F).

(** X1.  [median] of a slice with no elements (empty or nil) does not
    return: [data[n/2-1]] is [data[-1]], an index out of range. *)
Theorem median_of_empty_slice_panics s l :
  contents s l = [] -> median l s = Panic index_out_of_range.
Proof. apply run_median_nil. Qed.

(** X2.  [mean] and [standardError] only read: on every slice, in every
    state, they return a value, and the state after is the state before (no
    slice is written, nothing is drawn from the random source, nothing
    panics). *)
Theorem mean_and_standardError_only_read s l :
  (exists v, mean l s = Ok v s) /\ (exists v, standardError l s = Ok v s).
Proof.
  split; eexists; [apply run_mean_contents|apply run_standardError_contents].
Qed.

(** X3.  [median] a second time on the same slice returns the same value
    and changes nothing: the first call has left the slice sorted. *)
Theorem median_twice {order : LessOrder F} s l v s' :
  median l s = Ok v s' -> median l s' = Ok v s'.
Proof. apply run_median_twice. Qed.

(** X4.  [bootstrap] with [sampleSize = 0] and at least one bootstrap
    sample does not return, whatever the population: the first sample is
    empty and [median] indexes it out of range.  No random number is drawn
    before. *)
Theorem bootstrap_with_sampleSize_zero_panics s population bootstrapSamples :
  1 <= bootstrapSamples ->
  bootstrap population bootstrapSamples 0 s = Panic index_out_of_range.
Proof. apply run_bootstrap_sampleSize_zero. Qed.

(** X5.  A negative number of samples, or a negative sample size when at
    least one sample is asked for, makes [bootstrap] and
    [centralLimitTheorem] panic in [make]. *)
Theorem negative_counts_panic_in_make s population count sampleSize :
  count < 0 \/ (1 <= count /\ sampleSize < 0) ->
  bootstrap population count sampleSize s = Panic makeslice_len_out_of_range /\
  centralLimitTheorem population sampleSize count s = Panic makeslice_len_out_of_range.
Proof.
  intros [Hneg|[Hpos Hsize]].
  - split; [apply run_bootstrap_negative_samples
           |apply run_centralLimitTheorem_negative_samples]; exact Hneg.
  - split; [apply run_bootstrap_negative_size
           |apply run_centralLimitTheorem_negative_size]; assumption.
Qed.

(** X6.  On a population that is not empty, [bootstrap(population,
    bootstrapSamples, sampleSize)] takes exactly [bootstrapSamples *
    sampleSize] values of [rand.Intn(len(population))] from the random
    source and nothing else, and [centralLimitTheorem(population,
    sampleSize, numSamples)] exactly [numSamples * sampleSize]. *)
Theorem estimators_draw_one_index_per_element s population pop count sampleSize :
  heap s !! population = Some pop -> pop <> [] ->
  0 <= count -> 1 <= sampleSize ->
  let after := snd (draw_indices (Z.of_nat (length pop))
                                 (Z.to_nat (count * sampleSize)) (rng s)) in
  (exists r s', bootstrap population count sampleSize s = Ok r s' /\ rng s' = after) /\
  (exists r s', centralLimitTheorem population sampleSize count s = Ok r s' /\
                rng s' = after).
Proof.
  intros Hpop Hne Hcount Hsize after. unfold after.
  rewrite <- to_nat_product by lia. rewrite <- resamples_source. split.
  - destruct (run_bootstrap s population pop count sampleSize Hpop Hne Hcount Hsize)
      as (s' & Hrun & Hg). eauto.
  - destruct (run_centralLimitTheorem s population pop sampleSize count Hpop Hne)
      as (s' & Hrun & Hg); [lia|exact Hcount|]. eauto.
Qed.

(** X7.  [generatePopulation] writes no slice that exists: for [size >= 0]
    the slice it returns is a new one, of length [size], and every other
    slice is as before. *)
Theorem generatePopulation_allocates s size (mean stddev : F) :
  0 <= size ->
  exists l s' pop,
    generatePopulation size mean stddev s = Ok l s' /\
    heap s !! l = None /\
    heap s' !! l = Some pop /\ Z.of_nat (length pop) = size /\
    forall l', l' <> l -> heap s' !! l' = heap s !! l'.
Proof.
  intros Hsize.
  destruct (generatePopulation size mean stddev s) as [l s'|p] eqn:Hrun.
  - destruct (run_generatePopulation_fresh s size mean stddev l s' Hrun)
      as (Hnew & Hframe & Hl & _).
    exists l, s', (fst (normal_draws mean stddev (Z.to_nat size) (rand_Seed 42 (rng s)))).
    repeat split; try assumption. rewrite normal_draws_length. lia.
  - rewrite run_generatePopulation in Hrun by exact Hsize. discriminate.
Qed.

(** X8.  [generatePopulation] followed by [bootstrap] on the population it
    returns (as in [TestBootstrap] and in [main]) does not panic, and the
    pair of standard errors depends on the state it starts from only
    through the random source as [rand.Seed(42)] leaves it: two runs whose
    sources agree there return the same pair.  Where [rand.Seed] takes
    effect these are any two runs. *)
Theorem generatePopulation_then_bootstrap_same_source (s1 s2 : @state F G)
    size (mean stddev : F) bootstrapSamples sampleSize :
  1 <= size -> 0 <= bootstrapSamples -> 1 <= sampleSize ->
  rand_Seed 42 (rng s1) = rand_Seed 42 (rng s2) ->
  exists r,
    result (bind (generatePopulation size mean stddev)
                 (fun population => bootstrap population bootstrapSamples sampleSize) s1)
    = inl r /\
    result (bind (generatePopulation size mean stddev)
                 (fun population => bootstrap population bootstrapSamples sampleSize) s2)
    = inl r.
Proof.
  intros Hsize HB Hn Hseed. eexists. split.
  - apply (run_generatePopulation_then_bootstrap s1); assumption.
  - rewrite Hseed. apply (run_generatePopulation_then_bootstrap s2); assumption.
Qed.

(** X9.  [main] computes without a panic, from every state and with every
    random source.  It reports on the sample sizes 25, 100, 225 and 400 in
    this order, and what it reports is computed from the random source as
    [rand.Seed(42)] leaves it: the population is the first 10000 draws, and
    each sample size takes 1000 samples for [centralLimitTheorem], then 100
    for [bootstrap], from where the source was left. *)
Theorem main_reports s :
  let drawn := normal_draws (f_of_int 100) (f_of_int 10) (Z.to_nat 10000) (rand_Seed 42 (rng s)) in
  let reports := reports_of (fst drawn) 100 1000 [25; 100; 225; 400] (snd drawn) in
  (exists s', main s = Ok reports s') /\
  map report_sampleSize reports = [25; 100; 225; 400].
Proof.
  intros drawn reports. split; [apply run_main|apply reports_of_sampleSizes].
Qed.

(** X10.  Populations of two sizes begin alike: for [0 <= size1 <= size2]
    and the same [mean] and [stddev], the population that
    [generatePopulation] returns for [size1] is the first [size1] elements
    of the one it returns for [size2], when the two calls start from
    sources that agree after [rand.Seed(42)] (any two sources, where
    [rand.Seed] takes effect). *)
Theorem generatePopulation_prefix (s1 s2 : @state F G) size1 size2 (mean stddev : F) :
  0 <= size1 <= size2 ->
  rand_Seed 42 (rng s1) = rand_Seed 42 (rng s2) ->
  exists l1 s1' l2 s2' pop1 pop2,
    generatePopulation size1 mean stddev s1 = Ok l1 s1' /\
    generatePopulation size2 mean stddev s2 = Ok l2 s2' /\
    heap s1' !! l1 = Some pop1 /\ heap s2' !! l2 = Some pop2 /\
    pop1 = take (Z.to_nat size1) pop2.
Proof.
  intros Hsize Hseed. do 4 eexists.
  exists (fst (normal_draws mean stddev (Z.to_nat size1) (rand_Seed 42 (rng s1)))),
         (fst (normal_draws mean stddev (Z.to_nat size2) (rand_Seed 42 (rng s2)))).
  split; [apply run_generatePopulation; lia|].
  split; [apply run_generatePopulation; lia|].
  cbn [heap]. rewrite !lookup_insert_eq. repeat split. rewrite Hseed.
  replace (Z.to_nat size2) with (Z.to_nat size1 + (Z.to_nat size2 - Z.to_nat size1))%nat
    by lia.
  apply normal_draws_take.
Qed.

(** X11.  On a population with no elements, [bootstrap] and
    [centralLimitTheorem] do not return when asked for at least one sample
    of at least one element: [rand.Intn(len(population))] is [rand.Intn(0)],
    which panics. *)
Theorem estimators_of_empty_population_panic s population count sampleSize :
  heap s !! population = Some [] -> 1 <= count -> 1 <= sampleSize ->
  bootstrap population count sampleSize s = Panic invalid_argument_to_Intn /\
  centralLimitTheorem population sampleSize count s = Panic invalid_argument_to_Intn.
Proof.
  intros Hpop Hcount Hsize. split.
  - apply run_bootstrap_empty; assumption.
  - apply run_centralLimitTheorem_empty; assumption.
Qed.

End Further.

Section FurtherBinary64.
Context {G : Type} {random : RandSource spec_float G}.
Implicit Types (s : @state spec_float G) (population : slice)
               (pop data : list spec_float).

(** X12.  [mean] of a slice with no elements returns NaN, zero divided by
    zero; it does not panic. *)
Theorem mean_of_empty_slice_is_NaN s l :
  contents s l = [] -> mean l s = Ok S754_nan s.
Proof. intros Hl. rewrite run_mean_contents, Hl. reflexivity. Qed.

(** X13.  [standardError] never returns a number less than zero: on every
    slice of float64 values, infinities and NaN included, what it returns
    is NaN, or zero or more. *)
Theorem standardError_never_negative s l :
  exists v, standardError l s = Ok v s /\ B64.ltb v (B64.of_int 0) = false.
Proof.
  eexists. split; [apply run_standardError_contents|].
  apply sign_clear_not_less, B64_standardError_of_sign.
Qed.

(** X14.  Whenever [bootstrap] or [centralLimitTheorem] return, no standard
    error they return is less than zero (the comparison of
    [TestBootstrap]). *)
Theorem estimators_never_negative s population count sampleSize :
  (forall a b s', bootstrap population count sampleSize s = Ok (a, b) s' ->
     B64.ltb a (B64.of_int 0) = false /\ B64.ltb b (B64.of_int 0) = false) /\
  (forall a s', centralLimitTheorem population sampleSize count s = Ok a s' ->
     B64.ltb a (B64.of_int 0) = false).
Proof.
  split.
  - intros a b s' Hrun.
    destruct (bootstrap_returns_standardErrors _ _ _ _ _ _ _ Hrun)
      as (means & medians & -> & ->).
    split; apply sign_clear_not_less, B64_standardError_of_sign.
  - intros a s' Hrun.
    destruct (centralLimitTheorem_returns_standardError _ _ _ _ _ _ Hrun)
      as (sampleMeans & ->).
    apply sign_clear_not_less, B64_standardError_of_sign.
Qed.

(** X15.  A NaN among the data makes [mean] return NaN; a NaN or an
    infinity among the data makes [standardError] return NaN. *)
Theorem not_finite_data_gives_NaN s l data :
  heap s !! l = Some data ->
  (In S754_nan data -> mean l s = Ok S754_nan s) /\
  (Exists (fun x => is_fin x = false) data -> standardError l s = Ok S754_nan s).
Proof.
  intros Hl. split.
  - intros Hin. rewrite (run_mean s l data Hl), (B64_mean_of_nan data Hin). reflexivity.
  - intros Hex. rewrite (run_standardError s l data Hl).
    rewrite (B64_standardError_of_not_finite data Hex). reflexivity.
Qed.

(** X16.  [median] does not depend on the order of the data: on two slices
    that hold the same float64 values in any two orders it returns the same
    value (or panics on both, when they are empty), provided that no value
    is the negative zero, the one number that [Less] does not tell from
    another, the positive zero. *)
Theorem median_of_rearranged_data (s1 s2 : @state spec_float G) l1 l2 data1 data2 :
  heap s1 !! l1 = Some data1 -> heap s2 !! l2 = Some data2 ->
  Permutation data1 data2 ->
  Forall (fun x => x <> S754_zero true) data1 ->
  result (median l1 s1) = result (median l2 s2).
Proof.
  intros H1 H2 Hperm Hz. destruct data1 as [|x data1].
  - apply Permutation_nil in Hperm. subst data2.
    rewrite (run_median_empty s1 l1 H1), (run_median_empty s2 l2 H2). reflexivity.
  - assert (Hne2 : data2 <> []).
    { intros ->. apply Permutation_sym, Permutation_nil in Hperm. discriminate. }
    rewrite (run_median s1 l1 _ H1) by discriminate.
    rewrite (run_median s2 l2 _ H2) by exact Hne2.
    simpl. f_equal. apply median_of_Permutation; [exact Hperm|].
    intros a b Ha Hb. rewrite Forall_forall in Hz.
    apply B64_le_antisym; apply Hz, list_elem_of_In; assumption.
Qed.

(** X17.  [centralLimitTheorem] with [sampleSize = 0] returns NaN, whatever
    the population and the number of samples [numSamples >= 0]: every
    sample mean is zero divided by zero.  It draws nothing from the random
    source.  ([bootstrap] panics on the same arguments.) *)
Theorem centralLimitTheorem_with_sampleSize_zero_is_NaN s population numSamples :
  0 <= numSamples ->
  exists s', centralLimitTheorem population 0 numSamples s = Ok S754_nan s' /\
             rng s' = rng s.
Proof.
  intros HN.
  destruct (run_centralLimitTheorem_sampleSize_zero s population numSamples HN)
    as (s' & Hrun & Hg).
  exists s'. split; [|exact Hg]. rewrite Hrun.
  change (mean_of []) with S754_nan. rewrite B64_standardError_of_nans. reflexivity.
Qed.

(** X18.  With no sample asked for, [bootstrap] returns the pair (NaN, NaN)
    and [centralLimitTheorem] returns NaN, whatever the population and the
    sample size: the standard error of no numbers.  The random source is
    left as it was. *)
Theorem no_samples_give_NaN s population sampleSize :
  (exists s', bootstrap population 0 sampleSize s = Ok (S754_nan, S754_nan) s' /\
              rng s' = rng s) /\
  (exists s', centralLimitTheorem population sampleSize 0 s = Ok S754_nan s' /\
              rng s' = rng s).
Proof.
  split.
  - destruct (run_bootstrap_no_samples s population sampleSize) as (s' & Hrun & Hg).
    exists s'. split; [exact Hrun|exact Hg].
  - destruct (run_centralLimitTheorem_no_samples s population sampleSize)
      as (s' & Hrun & Hg).
    exists s'. split; [exact Hrun|exact Hg].
Qed.

(** X19.  With [sampleSize = 1] the two standard errors that [bootstrap]
    returns are the same number: the mean and the median of one element
    are that element.  (For valid float64 values other than the negative
    zero, whose mean is the positive zero.) *)
Theorem bootstrap_with_sampleSize_one s population pop bootstrapSamples :
  heap s !! population = Some pop -> pop <> [] ->
  Forall (fun x => B64.valid x = true /\ x <> S754_zero true) pop ->
  0 <= bootstrapSamples ->
  exists v s', bootstrap population bootstrapSamples 1 s = Ok (v, v) s'.
Proof.
  intros Hpop Hne Hall HB.
  destruct (run_bootstrap s population pop bootstrapSamples 1 Hpop Hne HB ltac:(lia))
    as (s' & Hrun & _).
  eexists _, s'. rewrite Hrun. do 2 f_equal. f_equal.
  apply map_ext_in. intros sample Hin.
  pose proof (resamples_each pop (Z.to_nat 1) (Z.to_nat bootstrapSamples) (rng s) Hne)
    as Heach.
  rewrite Forall_forall in Heach.
  destruct (Heach sample (proj2 (list_elem_of_In _ _) Hin)) as [Hlen Hfrom].
  destruct sample as [|x [|y sample]]; try discriminate.
  apply Forall_inv in Hfrom. rewrite Forall_forall in Hall.
  destruct (Hall x (proj2 (list_elem_of_In _ _) Hfrom)) as [Hv Hz].
  rewrite median_of_one. symmetry. apply B64_mean_of_one; assumption.
Qed.

(** X20.  On float64 data none of which is less than zero, [mean] returns
    a value that is not less than zero, and so does [median] when it
    returns: rounding does not take a sum or an average below zero. *)
Theorem mean_and_median_of_data_not_negative s l data :
  heap s !! l = Some data ->
  Forall (fun x => B64.ltb x (B64.of_int 0) = false) data ->
  (exists v, mean l s = Ok v s /\ B64.ltb v (B64.of_int 0) = false) /\
  (data <> [] ->
   exists v s', median l s = Ok v s' /\ B64.ltb v (B64.of_int 0) = false).
Proof.
  intros Hl Hall. split.
  - eexists. split; [apply (run_mean s l data Hl)|].
    apply B64_mean_of_not_negative, Hall.
  - intros Hne. do 2 eexists. split; [apply (run_median s l data Hl Hne)|].
    apply B64_median_of_not_negative, Hall.
Qed.

End FurtherBinary64.



(** ** The further properties on concrete inputs *)

(** X1 on an empty slice. *)
Lemma median_of_empty_slice_panics_witness :
  let s := State (F := spec_float) (G := Z) {[ 0%nat := [] ]} 7 in
  contents s 0%nat = [] /\ median 0%nat s = Panic index_out_of_range.
Proof.
  intros s.
  assert (Hl : contents s 0%nat = [])
    by (unfold contents, s; rewrite run_example_lookup; reflexivity).
  split; [exact Hl|]. apply (median_of_empty_slice_panics s 0%nat Hl).
Defined.

(** X12 on an empty slice. *)
Lemma mean_of_empty_slice_is_NaN_witness :
  let s := State (F := spec_float) (G := Z) {[ 0%nat := [] ]} 7 in
  contents s 0%nat = [] /\ mean 0%nat s = Ok S754_nan s.
Proof.
  intros s.
  assert (Hl : contents s 0%nat = [])
    by (unfold contents, s; rewrite run_example_lookup; reflexivity).
  split; [exact Hl|]. apply (mean_of_empty_slice_is_NaN s 0%nat Hl).
Defined.

(** X14 on a population of five numbers. *)
Lemma estimators_never_negative_witness :
  let pop := map B64.of_int [3; 1; 2; 5; 4] in
  let s := State (G := Z) {[ 0%nat := pop ]} 7 in
  (exists a b s', bootstrap 0%nat 3 2 s = Ok (a, b) s' /\
     B64.ltb a (B64.of_int 0) = false /\ B64.ltb b (B64.of_int 0) = false) /\
  (exists a s', centralLimitTheorem 0%nat 2 3 s = Ok a s' /\
     B64.ltb a (B64.of_int 0) = false).
Proof.
  intros pop s. split.
  - destruct (bootstrap 0%nat 3 2 s) as [[a b] s'|p] eqn:Hrun.
    + exists a, b, s'. split; [reflexivity|].
      apply (proj1 (estimators_never_negative s 0%nat 3 2) a b s' Hrun).
    + vm_compute in Hrun. discriminate.
  - destruct (centralLimitTheorem 0%nat 2 3 s) as [a s'|p] eqn:Hrun.
    + exists a, s'. split; [reflexivity|].
      apply (proj2 (estimators_never_negative s 0%nat 3 2) a s' Hrun).
    + vm_compute in Hrun. discriminate.
Defined.

(** X15 on a slice that holds a NaN and an infinity. *)
Lemma not_finite_data_gives_NaN_witness :
  let data := [B64.of_int 1; S754_nan; S754_infinity false] in
  let s := State (G := Z) {[ 0%nat := data ]} 7 in
  (heap s !! 0%nat = Some data /\ In S754_nan data /\
   Exists (fun x => is_fin x = false) data) /\
  mean 0%nat s = Ok S754_nan s /\ standardError 0%nat s = Ok S754_nan s.
Proof.
  intros data s.
  assert (Hl : heap s !! 0%nat = Some data) by apply run_example_lookup.
  assert (Hin : In S754_nan data) by (right; left; reflexivity).
  assert (Hex : Exists (fun x => is_fin x = false) data)
    by (apply Exists_cons_tl, Exists_cons_hd; reflexivity).
  split; [repeat split; assumption|]. split.
  - apply (proj1 (not_finite_data_gives_NaN s 0%nat data Hl) Hin).
  - apply (proj2 (not_finite_data_gives_NaN s 0%nat data Hl) Hex).
Defined.

(** X3 on three numbers. *)
Lemma median_twice_witness :
  let data := map B64.of_int [3; 1; 2] in
  let s := State (G := Z) {[ 0%nat := data ]} 7 in
  exists v s', median 0%nat s = Ok v s' /\ median 0%nat s' = Ok v s'.
Proof.
  intros data s.
  destruct (median 0%nat s) as [v s'|p] eqn:Hrun.
  - exists v, s'. split; [reflexivity|]. apply (median_twice s 0%nat v s' Hrun).
  - vm_compute in Hrun. discriminate.
Defined.

(** X16 on three numbers in two orders. *)
Lemma median_of_rearranged_data_witness :
  let data1 := [B64.of_int 3; B64.of_int 1; B64.of_int 2] in
  let data2 := [B64.of_int 2; B64.of_int 3; B64.of_int 1] in
  let s1 := State (G := Z) {[ 0%nat := data1 ]} 7 in
  let s2 := State (G := Z) {[ 0%nat := data2 ]} 11 in
  (heap s1 !! 0%nat = Some data1 /\ heap s2 !! 0%nat = Some data2 /\
   Permutation data1 data2 /\ Forall (fun x => x <> S754_zero true) data1) /\
  result (median 0%nat s1) = result (median 0%nat s2).
Proof.
  intros data1 data2 s1 s2.
  assert (H1 : heap s1 !! 0%nat = Some data1) by apply run_example_lookup.
  assert (H2 : heap s2 !! 0%nat = Some data2) by apply run_example_lookup.
  assert (Hperm : Permutation data1 data2)
    by (symmetry; apply (Permutation_cons_append [B64.of_int 3; B64.of_int 1])).
  assert (Hz : Forall (fun x => x <> S754_zero true) data1)
    by (repeat constructor; intros E; vm_compute in E; discriminate).
  split; [repeat split; assumption|].
  apply (median_of_rearranged_data s1 s2 0%nat 0%nat data1 data2 H1 H2 Hperm Hz).
Defined.

(** X4 with three bootstrap samples. *)
Lemma bootstrap_with_sampleSize_zero_panics_witness :
  let pop := map B64.of_int [3; 1; 2; 5; 4] in
  let s := State (G := Z) {[ 0%nat := pop ]} 7 in
  1 <= 3 /\ bootstrap 0%nat 3 0 s = Panic index_out_of_range.
Proof.
  intros pop s. split; [lia|].
  apply (bootstrap_with_sampleSize_zero_panics s 0%nat 3). lia.
Defined.

(** X17 with three samples. *)
Lemma centralLimitTheorem_with_sampleSize_zero_is_NaN_witness :
  let pop := map B64.of_int [3; 1; 2; 5; 4] in
  let s := State (G := Z) {[ 0%nat := pop ]} 7 in
  0 <= 3 /\
  exists s', centralLimitTheorem 0%nat 0 3 s = Ok S754_nan s' /\ rng s' = rng s.
Proof.
  intros pop s. split; [lia|].
  apply (centralLimitTheorem_with_sampleSize_zero_is_NaN s 0%nat 3). lia.
Defined.

(** X5 with a count of -1, and with a sample size of -1. *)
Lemma negative_counts_panic_in_make_witness :
  let pop := map B64.of_int [3; 1; 2; 5; 4] in
  let s := State (G := Z) {[ 0%nat := pop ]} 7 in
  (-1 < 0 /\ 1 <= 3) /\
  (bootstrap 0%nat (-1) 2 s = Panic makeslice_len_out_of_range /\
   centralLimitTheorem 0%nat 2 (-1) s = Panic makeslice_len_out_of_range) /\
  (bootstrap 0%nat 3 (-1) s = Panic makeslice_len_out_of_range /\
   centralLimitTheorem 0%nat (-1) 3 s = Panic makeslice_len_out_of_range).
Proof.
  intros pop s. split; [lia|]. split.
  - apply (negative_counts_panic_in_make s 0%nat (-1) 2). left. lia.
  - apply (negative_counts_panic_in_make s 0%nat 3 (-1)). right. lia.
Defined.

(** X19 on a population of five numbers. *)
Lemma bootstrap_with_sampleSize_one_witness :
  let pop := [B64.of_int 3; B64.of_int 1; B64.of_int 2; B64.of_int 5; B64.of_int 4] in
  let s := State (G := Z) {[ 0%nat := pop ]} 7 in
  (heap s !! 0%nat = Some pop /\ pop <> [] /\
   Forall (fun x => B64.valid x = true /\ x <> S754_zero true) pop /\ 0 <= 3) /\
  exists v s', bootstrap 0%nat 3 1 s = Ok (v, v) s'.
Proof.
  intros pop s.
  assert (Hl : heap s !! 0%nat = Some pop) by apply run_example_lookup.
  assert (Hne : pop <> []) by discriminate.
  assert (Hall : Forall (fun x => B64.valid x = true /\ x <> S754_zero true) pop)
    by (repeat constructor; intros E; vm_compute in E; discriminate).
  split; [repeat split; (assumption || lia)|].
  apply (bootstrap_with_sampleSize_one s 0%nat pop 3 Hl Hne Hall). lia.
Defined.

(** X6 with three samples of two elements. *)
Lemma estimators_draw_one_index_per_element_witness :
  let pop := map B64.of_int [3; 1; 2; 5; 4] in
  let s := State (G := Z) {[ 0%nat := pop ]} 7 in
  let after := snd (draw_indices (F := spec_float) 5 6 7) in
  (heap s !! 0%nat = Some pop /\ pop <> [] /\ 0 <= 3 /\ 1 <= 2) /\
  (exists r s', bootstrap 0%nat 3 2 s = Ok r s' /\ rng s' = after) /\
  (exists r s', centralLimitTheorem 0%nat 2 3 s = Ok r s' /\ rng s' = after).
Proof.
  intros pop s after.
  assert (Hl : heap s !! 0%nat = Some pop) by apply run_example_lookup.
  assert (Hne : pop <> []) by discriminate.
  split; [repeat split; (assumption || lia)|].
  apply (estimators_draw_one_index_per_element s 0%nat pop 3 2 Hl Hne); lia.
Defined.

(** X7 for a population of three. *)
Lemma generatePopulation_allocates_witness :
  let s := State (G := Z) {[ 0%nat := [B64.of_int 1] ]} 7 in
  0 <= 3 /\
  exists l s' pop,
    generatePopulation 3 (B64.of_int 100) (B64.of_int 10) s = Ok l s' /\
    heap s !! l = None /\
    heap s' !! l = Some pop /\ Z.of_nat (length pop) = 3 /\
    forall l', l' <> l -> heap s' !! l' = heap s !! l'.
Proof.
  intros s. split; [lia|].
  apply (generatePopulation_allocates s 3 (B64.of_int 100) (B64.of_int 10)). lia.
Defined.

(** X8 for a population of three, two samples of two elements, from two
    different states. *)
Lemma generatePopulation_then_bootstrap_same_source_witness :
  let s1 := State (F := spec_float) (G := Z) ∅ 7 in
  let s2 := State (G := Z) {[ 0%nat := [B64.of_int 1] ]} 2024 in
  (1 <= 3 /\ 0 <= 2 /\ 1 <= 2 /\
   rand_Seed (F := spec_float) 42 (rng s1) = rand_Seed (F := spec_float) 42 (rng s2)) /\
  exists r,
    result (bind (generatePopulation 3 (B64.of_int 100) (B64.of_int 10))
                 (fun population => bootstrap population 2 2) s1)
    = inl r /\
    result (bind (generatePopulation 3 (B64.of_int 100) (B64.of_int 10))
                 (fun population => bootstrap population 2 2) s2)
    = inl r.
Proof.
  intros s1 s2. split; [repeat split; lia|].
  apply (generatePopulation_then_bootstrap_same_source
           s1 s2 3 (B64.of_int 100) (B64.of_int 10) 2 2); try lia.
  reflexivity.
Defined.

(** X20 on three numbers, one of them a zero. *)
Lemma mean_and_median_of_data_not_negative_witness :
  let data := [B64.of_int 3; B64.of_int 0; B64.of_int 2] in
  let s := State (G := Z) {[ 0%nat := data ]} 7 in
  (heap s !! 0%nat = Some data /\
   Forall (fun x => B64.ltb x (B64.of_int 0) = false) data /\ data <> []) /\
  (exists v, mean 0%nat s = Ok v s /\ B64.ltb v (B64.of_int 0) = false) /\
  (exists v s', median 0%nat s = Ok v s' /\ B64.ltb v (B64.of_int 0) = false).
Proof.
  intros data s.
  assert (Hl : heap s !! 0%nat = Some data) by apply run_example_lookup.
  assert (Hall : Forall (fun x => B64.ltb x (B64.of_int 0) = false) data)
    by (repeat constructor).
  assert (Hne : data <> []) by discriminate.
  split; [repeat split; assumption|]. split.
  - apply (proj1 (mean_and_median_of_data_not_negative s 0%nat data Hl Hall)).
  - apply (proj2 (mean_and_median_of_data_not_negative s 0%nat data Hl Hall) Hne).
Defined.

(** X10 for populations of 3 and of 5. *)
Lemma generatePopulation_prefix_witness :
  let s1 := State (F := spec_float) (G := Z) ∅ 7 in
  let s2 := State (G := Z) {[ 0%nat := [B64.of_int 1] ]} 2024 in
  (0 <= 3 <= 5 /\
   rand_Seed (F := spec_float) 42 (rng s1) = rand_Seed (F := spec_float) 42 (rng s2)) /\
  exists l1 s1' l2 s2' pop1 pop2,
    generatePopulation 3 (B64.of_int 100) (B64.of_int 10) s1 = Ok l1 s1' /\
    generatePopulation 5 (B64.of_int 100) (B64.of_int 10) s2 = Ok l2 s2' /\
    heap s1' !! l1 = Some pop1 /\ heap s2' !! l2 = Some pop2 /\
    pop1 = take (Z.to_nat 3) pop2.
Proof.
  intros s1 s2. split; [split; [lia|reflexivity]|].
  apply (generatePopulation_prefix s1 s2 3 5 (B64.of_int 100) (B64.of_int 10));
    [lia|reflexivity].
Defined.

(** X11 with three samples of two elements. *)
Lemma estimators_of_empty_population_panic_witness :
  let s := State (F := spec_float) (G := Z) {[ 0%nat := [] ]} 7 in
  (heap s !! 0%nat = Some [] /\ 1 <= 3 /\ 1 <= 2) /\
  bootstrap 0%nat 3 2 s = Panic invalid_argument_to_Intn /\
  centralLimitTheorem 0%nat 2 3 s = Panic invalid_argument_to_Intn.
Proof.
  intros s.
  assert (Hl : heap s !! 0%nat = Some []) by apply run_example_lookup.
  split; [repeat split; (assumption || lia)|].
  apply (estimators_of_empty_population_panic s 0%nat 3 2 Hl); lia.
Defined.
